(** * figjar: a chunking, compressing, quota-tracking layer over plugin data

    Shallow embedding of the TypeScript sources
      - [src/core/ChunkManager.ts]
      - [src/core/IntegrityValidator.ts]
      - [src/core/GlobalQuotaManager.ts]
      - [src/core/Compressor.ts]
      - [src/utils/errors.ts]
      - [src/PluginData.ts]
      - [tests/mocks/figma.mock.ts] (the [BaseNode] the library runs against)
    followed by the properties of the storage orchestrator.

    Conventions.  A JavaScript string is a [string]; [s.length] is
    [String.length s]; a JavaScript number holding an integer is a [Z].
    A method that mutates the node or the ledger, or that may throw, is a
    computation in the monad [M]: it maps a [World] to an outcome and the
    world it leaves behind.  A thrown exception keeps every mutation made
    before the throw, as in JavaScript. *)

From Stdlib Require Import ZArith String Ascii List Lia.
From Stdlib Require Import DecimalString DecimalNat.
From Stdlib Require DecimalFacts.
From stdpp Require Import base gmap strings list.

Local Open Scope string_scope.
Local Open Scope Z_scope.
Set Warnings "-register-all".

(** ** JavaScript strings *)

(** [s.length] as a JavaScript number. *)
Definition len (s : string) : Z := Z.of_nat (String.length s).

(** [s.slice(i, j)] for [0 <= i <= j]: the code units from [i] up to [j],
    cut at the end of [s]. *)
Definition slice (i j : nat) (s : string) : string :=
  substring i (j - i) s.

(** [arr.join('')]. *)
Definition join (l : list string) : string := String.concat "" l.

(** [String(n)] for a non-negative integer: its decimal digits. *)
Definition Number_toString (n : nat) : string :=
  NilEmpty.string_of_uint (Nat.to_uint n).

(** [c.repeat(n)]. *)
Definition repeat_char (c : ascii) (n : N) : string :=
  N.iter n (String c) "".

(** ** Errors ([src/utils/errors.ts]) *)

Inductive CompressOp := Compress | Decompress.

(** The six error classes of the library, and what else JavaScript can
    throw on these paths: a plain [Error] (the backing store's) and a
    [TypeError] (property access on [null], [JSON.stringify] of a
    [BigInt]). *)
Inductive Error :=
| DataTooLargeError (actualSize : Z)
| QuotaExceededError (needed remaining : Z)
| EntryTooLargeError (entrySize maxSize : Z)
| DataCorruptedError (key : string)
| InvalidKeyError (key : string)
| CompressionError (operation : CompressOp)
| JsError (message : string)
| TypeError.

(** The class of an error, as [instanceof] sees it. *)
Inductive ErrorKind :=
| KDataTooLarge | KQuotaExceeded | KEntryTooLarge | KDataCorrupted
| KInvalidKey | KCompression | KOther.

Definition kind (e : Error) : ErrorKind :=
  match e with
  | DataTooLargeError _ => KDataTooLarge
  | QuotaExceededError _ _ => KQuotaExceeded
  | EntryTooLargeError _ _ => KEntryTooLarge
  | DataCorruptedError _ => KDataCorrupted
  | InvalidKeyError _ => KInvalidKey
  | CompressionError _ => KCompression
  | JsError _ | TypeError => KOther
  end.

(** ** ChunkManager ([src/core/ChunkManager.ts]) *)

Module ChunkManager.

Definition CHUNK_SIZE : nat := 85 * 1024.
Definition MAX_ENTRY_SIZE : Z := 100 * 1024.

Record ChunkResult := { chunks : list string; totalSize : Z }.

(** The loop [for (i = 0; i < data.length; i += size) push(slice(i, i+size))]
    from index [i] on.  Every turn advances [i] by [size], so
    [data.length] turns are enough when [size] is positive. *)
Fixpoint chunk_loop (size fuel : nat) (data : string) (i : nat) : list string :=
  match fuel with
  | O => []
  | S fuel' =>
      if (i <? String.length data)%nat
      then slice i (i + size) data :: chunk_loop size fuel' data (i + size)
      else []
  end.

Definition chunk (data : string) : ChunkResult :=
  {| chunks := chunk_loop CHUNK_SIZE (String.length data) data 0;
     totalSize := len data |}.

Definition calculateChunkKey (baseKey : string) (index : nat) : string :=
  "__fpdu_chunk_" +:+ baseKey +:+ "_" +:+ Number_toString index.

(** [validateChunkEntry]: [None] when the entry fits, the error thrown
    otherwise. *)
Definition validateChunkEntry (key chunk : string) : option Error :=
  let entrySize := len key + len chunk in
  if entrySize >? MAX_ENTRY_SIZE
  then Some (EntryTooLargeError entrySize MAX_ENTRY_SIZE)
  else None.

Definition getSafeChunkSize (baseKey : string) : Z :=
  let longestPossibleKey := calculateChunkKey baseKey 999 in
  let keyOverhead := len longestPossibleKey in
  MAX_ENTRY_SIZE - keyOverhead.

End ChunkManager.

(** ** JavaScript values *)

(** The values that a caller hands to the library and that travel
    through [JSON.stringify] and [JSON.parse]: numbers are the integers;
    an object is the list of its own properties.  A [BigInt] is a value
    that a caller can pass and that [JSON.stringify] refuses. *)
Inductive Json :=
| JNull
| JBool (b : bool)
| JNum (n : Z)
| JStr (s : string)
| JArr (items : list Json)
| JObj (fields : list (string * Json))
| JBigInt (n : Z).

(** The binding of [k] that a reader of the object sees: the last one. *)
Fixpoint assoc_last (k : string) (fields : list (string * Json)) : option Json :=
  match fields with
  | [] => None
  | (k', v) :: rest =>
      match assoc_last k rest with
      | Some v' => Some v'
      | None => if String.eqb k k' then Some v else None
      end
  end.

(** [v.k] for the property names read in this library ([chunked],
    [totalChunks], [checksum]), none of which is inherited: [None] is
    [undefined], and reading a property of [null] throws. *)
Definition js_get (v : Json) (k : string) : Error + option Json :=
  match v with
  | JNull => inl TypeError
  | JObj fields => inr (assoc_last k fields)
  | _ => inr None
  end.

(** [ToBoolean]: what [if (v)] and [!v] test. *)
Definition truthy (v : option Json) : bool :=
  match v with
  | None | Some JNull => false
  | Some (JBool b) => b
  | Some (JNum n) => negb (n =? 0)
  | Some (JStr s) => negb (String.eqb s "")
  | Some (JArr _) | Some (JObj _) => true
  | Some (JBigInt n) => negb (n =? 0)
  end.

(** Whether [JSON.stringify(v)] throws its [TypeError]: it does on a
    [BigInt], wherever in the value it sits. *)
Fixpoint has_bigint (v : Json) : bool :=
  match v with
  | JBigInt _ => true
  | JArr items => existsb has_bigint items
  | JObj fields => existsb (fun kv => has_bigint (snd kv)) fields
  | _ => false
  end.

(** ** IntegrityValidator ([src/core/IntegrityValidator.ts]) *)

Module IntegrityValidator.

(** The 32-bit signed integer a bitwise operator sees: the low 32 bits
    of [z], read as negative from 2^31 on. *)
Definition ToInt32 (z : Z) : Z :=
  let int32bit := Z.land z 4294967295 in
  if int32bit <? 2147483648 then int32bit else int32bit - 4294967296.

Definition charCodeAt (c : ascii) : Z := Z.of_nat (nat_of_ascii c).

(** The digit of [d] in base 36, for [0 <= d < 36]. *)
Definition digit36 (d : Z) : ascii :=
  if d <? 10 then ascii_of_nat (Z.to_nat (48 + d))
  else ascii_of_nat (Z.to_nat (87 + d)).

Fixpoint digits36 (fuel : nat) (n : Z) (acc : string) : string :=
  match fuel with
  | O => acc
  | S fuel' =>
      if n =? 0 then acc
      else digits36 fuel' (n / 36) (String (digit36 (n mod 36)) acc)
  end.

(** [n.toString(36)] for an integer [n >= 0]. *)
Definition toString36 (n : Z) : string :=
  if n =? 0 then "0" else digits36 (S (Z.to_nat (Z.log2 n))) n "".

(** The loop body: [hash = ((hash << 5) - hash) + char; hash = hash & hash]. *)
Definition hash_step (hash : Z) (c : ascii) : Z :=
  let hash1 := ToInt32 (Z.shiftl (ToInt32 hash) 5) - hash + charCodeAt c in
  Z.land (ToInt32 hash1) (ToInt32 hash1).

Fixpoint hash_loop (data : string) (hash : Z) : Z :=
  match data with
  | EmptyString => hash
  | String c rest => hash_loop rest (hash_step hash c)
  end.

Definition calculateChecksum (data : string) : string :=
  toString36 (Z.abs (hash_loop data 0)).

(** [calculateChecksum(data) === expectedChecksum], where the expected
    value is whatever the metadata holds under [checksum]. *)
Definition validate (data : string) (expectedChecksum : option Json) : bool :=
  match expectedChecksum with
  | Some (JStr expected) => String.eqb (calculateChecksum data) expected
  | _ => false
  end.

End IntegrityValidator.

(** ** GlobalQuotaManager ([src/core/GlobalQuotaManager.ts]) *)

Module GlobalQuotaManager.

Definition MAX_TOTAL_QUOTA : Z := 5 * 1024 * 1024.
Definition MAX_ENTRY_SIZE : Z := 100 * 1024.

(** The static field [usage]: nodeId -> (key -> bytes). *)
Abbreviation Usage := (gmap string (gmap string Z)).

Definition getCurrentUsage (usage : Usage) : Z :=
  map_fold (fun _ nodeUsage total =>
              map_fold (fun _ keyBytes total' => total' + keyBytes) total nodeUsage)
           0 usage.

Definition getRemainingQuota (usage : Usage) : Z :=
  MAX_TOTAL_QUOTA - getCurrentUsage usage.

Definition canStore (sizeBytes : Z) (usage : Usage) : bool :=
  getCurrentUsage usage + sizeBytes <=? MAX_TOTAL_QUOTA.

Definition recordUsage (nodeId key : string) (bytes : Z) (usage : Usage) : Usage :=
  let nodeUsage := default ∅ (usage !! nodeId) in
  <[nodeId := <[key := bytes]> nodeUsage]> usage.

Definition removeUsage (nodeId key : string) (usage : Usage) : Usage :=
  match usage !! nodeId with
  | Some nodeUsage =>
      let nodeUsage' := delete key nodeUsage in
      if decide (size nodeUsage' = 0%nat)
      then delete nodeId usage
      else <[nodeId := nodeUsage']> usage
  | None => usage
  end.

(** [None] when the entry fits, the error thrown otherwise. *)
Definition validateEntrySize (key value : string) : option Error :=
  let entrySize := len key + len value in
  if entrySize >? MAX_ENTRY_SIZE
  then Some (EntryTooLargeError entrySize MAX_ENTRY_SIZE)
  else None.

(** [nodeUsage?.get(key) || 0]. *)
Definition getKeyUsage (nodeId key : string) (usage : Usage) : Z :=
  match usage !! nodeId with
  | Some nodeUsage => default 0 (nodeUsage !! key)
  | None => 0
  end.

(** [updateUsage]: the old byte count is received and not used. *)
Definition updateUsage (nodeId key : string) (oldBytes newBytes : Z)
           (usage : Usage) : Usage :=
  recordUsage nodeId key newBytes usage.

Definition getNodeUsage (nodeId : string) (usage : Usage) : Z :=
  match usage !! nodeId with
  | Some nodeUsage => map_fold (fun _ bytes total => total + bytes) 0 nodeUsage
  | None => 0
  end.

Definition cleanupNode (nodeId : string) (usage : Usage) : Usage :=
  delete nodeId usage.

Definition reset (usage : Usage) : Usage := ∅.

End GlobalQuotaManager.

(** ** The backing store ([tests/mocks/figma.mock.ts]) *)

Module MockNode.

(** The closure state of [createMockNode]: the [storage] map, the
    [nodeUsage] counter, and the node's [id]. *)
Record t := { id : string; storage : gmap string string; nodeUsage : Z }.

Definition createMockNode (id : string) : t :=
  {| id := id; storage := ∅; nodeUsage := 0 |}.

(** [storage.get(key) || '']. *)
Definition getPluginData (key : string) (n : t) : string :=
  default "" (storage n !! key).

(** [setPluginData]: the node left behind, and the error thrown if any.
    The entry limit is checked before the map is touched, the usage
    limit after. *)
Definition setPluginData (key value : string) (n : t) : t * option Error :=
  let entrySize := len key + len value in
  if entrySize >? 100 * 1024
  then (n, Some (JsError ("Plugin data entry exceeds 100KB limit: "
                          +:+ Number_toString (Z.to_nat entrySize) +:+ " bytes")))
  else
    let oldValue := getPluginData key n in
    let oldEntrySize := len key + len oldValue in
    let n' :=
      if String.eqb value ""
      then {| id := id n; storage := delete key (storage n);
              nodeUsage := nodeUsage n - oldEntrySize |}
      else {| id := id n; storage := <[key := value]> (storage n);
              nodeUsage := nodeUsage n - oldEntrySize + entrySize |} in
    if nodeUsage n' >? 1024 * 1024
    then (n', Some (JsError "Mock node quota exceeded"))
    else (n', None).

(** [Array.from(storage.keys())], as a finite set: the order of
    insertion is not tracked. *)
Definition getPluginDataKeys (n : t) : gset string := dom (storage n).

End MockNode.

(** ** The platform

    What the library takes from its host and from [fflate]:
    the JSON codec, the coercion of a non-number to a number, the byte
    size of a [Blob], and gzip with its base64 transport, in the direct
    and in the callback form.  [None] stands for a thrown exception
    ([NaN] for [ToNumber]).  [JSON_stringify] is the text of a value
    that [JSON.stringify] accepts; on which values it throws is said by
    [has_bigint]. *)
Class Platform := {
  JSON_stringify : Json -> string;
  JSON_parse : string -> option Json;
  ToNumber : Json -> option Z;
  Blob_size : string -> Z;
  gzipSync_base64 : string -> option string;
  gunzipSync_text : string -> option string;
  gzip_base64 : string -> option string;
  gunzip_text : string -> option string;
}.

(** How many [i = 0, 1, 2, ...] satisfy [i < v]. *)
Definition loop_bound `{Platform} (v : option Json) : nat :=
  match v with
  | None => 0%nat
  | Some (JNum n) => Z.to_nat n
  | Some j => match ToNumber j with Some n => Z.to_nat n | None => 0%nat end
  end.

(** ** Computations over the node and the ledger *)

Record World := {
  node : MockNode.t;
  usage : GlobalQuotaManager.Usage;
}.

Inductive outcome (A : Type) :=
| Ok (a : A)
| Throw (e : Error).
Arguments Ok {A} a.
Arguments Throw {A} e.

Definition M (A : Type) : Type := World -> outcome A * World.

Definition ret {A} (a : A) : M A := fun w => (Ok a, w).

Definition throw {A} (e : Error) : M A := fun w => (Throw e, w).

Definition bind {A B} (m : M A) (f : A -> M B) : M B :=
  fun w =>
    match m w with
    | (Ok a, w') => f a w'
    | (Throw e, w') => (Throw e, w')
    end.

(** [try { m } catch (error) { h error }]. *)
Definition try_catch {A} (m : M A) (h : Error -> M A) : M A :=
  fun w =>
    match m w with
    | (Ok a, w') => (Ok a, w')
    | (Throw e, w') => h e w'
    end.

Declare Scope js_scope.
Delimit Scope js_scope with js.
Notation "x <- m ;; k" := (bind m (fun x => k))
  (at level 100, m at next level, right associativity) : js_scope.
Notation "m ;; k" := (bind m (fun _ => k))
  (at level 100, right associativity) : js_scope.
Local Open Scope js_scope.

(** A validation that reports its error as an option. *)
Definition check (r : option Error) : M unit :=
  match r with
  | Some e => throw e
  | None => ret tt
  end.

(** A value or a thrown error, lifted. *)
Definition lift {A} (r : Error + A) : M A :=
  match r with
  | inl e => throw e
  | inr a => ret a
  end.

(** [this.node.getPluginData(key)]. *)
Definition node_get (key : string) : M string :=
  fun w => (Ok (MockNode.getPluginData key (node w)), w).

(** [this.node.setPluginData(key, value)]. *)
Definition node_set (key value : string) : M unit :=
  fun w =>
    let '(n', r) := MockNode.setPluginData key value (node w) in
    let w' := {| node := n'; usage := usage w |} in
    match r with
    | Some e => (Throw e, w')
    | None => (Ok tt, w')
    end.

(** [this.node.id]. *)
Definition node_id : M string := fun w => (Ok (MockNode.id (node w)), w).

(** A read of the ledger. *)
Definition quota_read {A} (f : GlobalQuotaManager.Usage -> A) : M A :=
  fun w => (Ok (f (usage w)), w).

(** An update of the ledger. *)
Definition quota_update (f : GlobalQuotaManager.Usage -> GlobalQuotaManager.Usage) : M unit :=
  fun w => (Ok tt, {| node := node w; usage := f (usage w) |}).

(** ** Compressor ([src/core/Compressor.ts]) *)

Module Compressor.
Section Compressor.
Context `{Platform}.

Definition compress (data : string) : M string :=
  match gzipSync_base64 data with
  | Some compressed => ret compressed
  | None => throw (CompressionError Compress)
  end.

Definition decompress (data : string) : M string :=
  match gunzipSync_text data with
  | Some text => ret text
  | None => throw (CompressionError Decompress)
  end.

Definition compressAsync (data : string) : M string :=
  match gzip_base64 data with
  | Some compressed => ret compressed
  | None => throw (CompressionError Compress)
  end.

Definition decompressAsync (data : string) : M string :=
  match gunzip_text data with
  | Some text => ret text
  | None => throw (CompressionError Decompress)
  end.

End Compressor.
End Compressor.

(** ** Result types ([src/types/index.ts], [src/PluginData.ts]) *)

Record IMigrationResult := {
  migrated : list string;
  failed : list string;
  skipped : list string;
}.

(** The object that [optimizeStorage] returns. *)
Record OptimizeResult := {
  bytesSaved : Z;
  keysOptimized : Z;
}.

(** ** PluginData ([src/PluginData.ts]) *)

(** The state of a promise when it is joined by [Promise.all]: fulfilled,
    or rejected, the rejection reaching the join [ticks] microtask turns
    after a rejection that is already there. *)
Inductive Settled :=
| Fulfilled
| Rejected (e : Error) (ticks : nat).

(** The rejection [Promise.all] reports: the first to arrive, which is the
    one with the fewest ticks and, among equals, the lowest index. *)
Fixpoint first_rejection (ps : list Settled) : option (Error * nat) :=
  match ps with
  | [] => None
  | Fulfilled :: rest => first_rejection rest
  | Rejected e t :: rest =>
      match first_rejection rest with
      | Some (e', t') => if (t' <? t)%nat then Some (e', t') else Some (e, t)
      | None => Some (e, t)
      end
  end.

(** [await Promise.all(ps)]. *)
Definition Promise_all (ps : list Settled) : M unit :=
  match first_rejection ps with
  | Some (e, _) => throw e
  | None => ret tt
  end.

(** [new Promise(resolve => { m; resolve(); })]: the executor runs at
    once, and a throw inside it rejects the promise. *)
Definition new_Promise (m : M unit) : M Settled :=
  fun w =>
    match m w with
    | (Ok _, w') => (Ok Fulfilled, w')
    | (Throw e, w') => (Ok (Rejected e 0), w')
    end.

(** A call of [async () => { ...; return p; }] with no [await] inside: the
    body runs at once; a throw rejects the result at once, while the
    state of a returned promise is adopted two turns later. *)
Definition async_call (body : M Settled) : M Settled :=
  fun w =>
    match body w with
    | (Ok Fulfilled, w') => (Ok Fulfilled, w')
    | (Ok (Rejected e t), w') => (Ok (Rejected e (t + 2)), w')
    | (Throw e, w') => (Ok (Rejected e 0), w')
    end.

Module PluginData.
Section PluginData.
Context `{Platform}.

Definition metaKey (key : string) : string := "__fpdu_meta_" +:+ key.

(** [!key || key.startsWith('__fpdu_')]. *)
Definition invalid_key (key : string) : bool :=
  String.eqb key "" || String.prefix "__fpdu_" key.

(** [typeof value === 'string' ? value : JSON.stringify(value)]: the
    error that the expression throws, if it throws, and the text that
    it yields otherwise. *)
Definition serialize_error (value : Json) : option Error :=
  match value with
  | JStr _ => None
  | _ => if has_bigint value then Some TypeError else None
  end.

Definition serialize (value : Json) : string :=
  match value with
  | JStr s => s
  | _ => JSON_stringify value
  end.

(** [try { return JSON.parse(text) } catch { return text }]. *)
Definition decode (text : string) : Json :=
  match JSON_parse text with
  | Some v => v
  | None => JStr text
  end.

(** [JSON.parse(text)], which throws on text that is not JSON. *)
Definition parse (text : string) : M Json :=
  match JSON_parse text with
  | Some v => ret v
  | None => throw (JsError "SyntaxError")
  end.

(** The object literal of [storeSingle]. *)
Definition single_metadata (originalData : string) : Json :=
  JObj [("compressed", JBool true);
        ("checksum", JStr (IntegrityValidator.calculateChecksum originalData));
        ("size", JNum (Blob_size originalData))].

(** The object literal of [storeChunked]. *)
Definition chunked_metadata (totalChunks : nat) (original : string) : Json :=
  JObj [("compressed", JBool true);
        ("chunked", JBool true);
        ("totalChunks", JNum (Z.of_nat totalChunks));
        ("checksum", JStr (IntegrityValidator.calculateChecksum original));
        ("size", JNum (Blob_size original))].

(** [GlobalQuotaManager.recordUsage(this.node.id, key, totalUsage)]. *)
Definition recordUsage (key : string) (totalUsage : Z) : M unit :=
  nodeId <- node_id ;;
  quota_update (GlobalQuotaManager.recordUsage nodeId key totalUsage).

Definition removeUsage (key : string) : M unit :=
  nodeId <- node_id ;;
  quota_update (GlobalQuotaManager.removeUsage nodeId key).

Definition getKeyUsage (key : string) : M Z :=
  nodeId <- node_id ;;
  quota_read (GlobalQuotaManager.getKeyUsage nodeId key).

Definition storeSingle (key compressed originalData : string) : M unit :=
  let metadata := single_metadata originalData in
  let metadataStr := JSON_stringify metadata in
  let metadataKey := metaKey key in
  check (GlobalQuotaManager.validateEntrySize key compressed) ;;
  check (GlobalQuotaManager.validateEntrySize metadataKey metadataStr) ;;
  node_set key compressed ;;
  node_set metadataKey metadataStr ;;
  let totalUsage := len compressed + len metadataKey + len metadataStr in
  recordUsage key totalUsage.

(** The [forEach] of [storeChunked], from chunk [index] on. *)
Fixpoint store_chunks (key : string) (chunks : list string)
         (index : nat) (totalUsage : Z) : M Z :=
  match chunks with
  | [] => ret totalUsage
  | chunk :: rest =>
      let chunkKey := ChunkManager.calculateChunkKey key index in
      check (ChunkManager.validateChunkEntry chunkKey chunk) ;;
      node_set chunkKey chunk ;;
      store_chunks key rest (S index) (totalUsage + (len chunkKey + len chunk))
  end.

(** The metadata write and the ledger update that end both chunked
    stores. *)
Definition store_chunked_metadata (key : string) (chunks : list string)
           (original : string) (totalUsage : Z) : M unit :=
  let metadata := chunked_metadata (List.length chunks) original in
  let metadataStr := JSON_stringify metadata in
  let metadataKey := metaKey key in
  check (GlobalQuotaManager.validateEntrySize metadataKey metadataStr) ;;
  node_set metadataKey metadataStr ;;
  let totalUsage := totalUsage + (len metadataKey + len metadataStr) in
  recordUsage key totalUsage.

Definition storeChunked (key compressed original : string) : M unit :=
  let chunks := ChunkManager.chunks (ChunkManager.chunk compressed) in
  totalUsage <- store_chunks key chunks 0 0 ;;
  store_chunked_metadata key chunks original totalUsage.

(** The [catch] of the write path. *)
Definition write_handler (error : Error) : M unit :=
  match error with
  | QuotaExceededError _ _ | EntryTooLargeError _ _ => throw error
  | _ => throw (CompressionError Compress)
  end.

(** What [write_handler] throws for a given error of the [try] block. *)
Definition rethrown (error : Error) : Error :=
  match error with
  | QuotaExceededError _ _ | EntryTooLargeError _ _ => error
  | _ => CompressionError Compress
  end.

(** The quota check and the release of the old usage, shared by both
    forms of the write path. *)
Definition reserve (key compressed : string) : M unit :=
  let estimatedSize := len compressed + 200 in
  canStore <- quota_read (GlobalQuotaManager.canStore estimatedSize) ;;
  (if negb canStore
   then remaining <- quota_read GlobalQuotaManager.getRemainingQuota ;;
        throw (QuotaExceededError estimatedSize remaining)
   else ret tt) ;;
  oldUsage <- getKeyUsage key ;;
  if oldUsage >? 0 then removeUsage key else ret tt.

(** The [try] block of [setPluginData]. *)
Definition write_path (key data : string) : M unit :=
  compressed <- Compressor.compress data ;;
  reserve key compressed ;;
  let maxChunkSize := ChunkManager.getSafeChunkSize key in
  if len compressed >? maxChunkSize
  then storeChunked key compressed data
  else storeSingle key compressed data.

(** The serialization comes after the key check and before the [try]
    block: what it throws leaves the method as it is. *)
Definition setPluginData (key : string) (value : Json) : M unit :=
  if invalid_key key then throw (InvalidKeyError key)
  else
    match serialize_error value with
    | Some error => throw error
    | None =>
        let data := serialize value in
        let size := Blob_size data in
        if size >? 5 * 1024 * 1024 then throw (DataTooLargeError size)
        else try_catch (write_path key data) write_handler
    end.

(** The loop of [retrieveChunked]: chunks [i .. i + n - 1]. *)
Fixpoint read_chunks (key : string) (n i : nat) : M (list string) :=
  match n with
  | O => ret []
  | S n' =>
      let chunkKey := ChunkManager.calculateChunkKey key i in
      chunk <- node_get chunkKey ;;
      if String.eqb chunk "" then throw (DataCorruptedError key)
      else
        chunks <- read_chunks key n' (S i) ;;
        ret (chunk :: chunks)
  end.

(** Checksum validation and decoding, the tail of both read paths. *)
Definition validate_and_decode (key decompressed : string) (metadata : Json) : M Json :=
  checksum <- lift (js_get metadata "checksum") ;;
  if negb (IntegrityValidator.validate decompressed checksum)
  then throw (DataCorruptedError key)
  else ret (decode decompressed).

Definition retrieveChunked (key : string) (metadata : Json) : M Json :=
  totalChunks <- lift (js_get metadata "totalChunks") ;;
  chunks <- read_chunks key (loop_bound totalChunks) 0 ;;
  let compressed := join chunks in
  decompressed <- Compressor.decompress compressed ;;
  validate_and_decode key decompressed metadata.

(** The [catch] of the read path. *)
Definition read_handler (key : string) (error : Error) : M Json :=
  match error with
  | DataCorruptedError _ => throw error
  | _ => throw (DataCorruptedError key)
  end.

Definition getPluginData (key : string) : M Json :=
  metadataStr <- node_get (metaKey key) ;;
  if String.eqb metadataStr ""
  then
    value <- node_get key ;;
    ret (JStr value)
  else
    try_catch
      (metadata <- parse metadataStr ;;
       chunked <- lift (js_get metadata "chunked") ;;
       if truthy chunked
       then retrieveChunked key metadata
       else
         compressed <- node_get key ;;
         decompressed <- Compressor.decompress compressed ;;
         validate_and_decode key decompressed metadata)
      (read_handler key).

(** [this.node.getPluginDataKeys().filter(key => !key.startsWith('__fpdu_'))]. *)
Definition getPluginDataKeys (w : World) : gset string :=
  filter (fun key => String.prefix "__fpdu_" key = false)
         (MockNode.getPluginDataKeys (node w)).

(** ** The suspending form of the write path *)

Definition storeSingleAsync (key compressed originalData : string) : M unit :=
  let metadata := single_metadata originalData in
  let metadataStr := JSON_stringify metadata in
  let metadataKey := metaKey key in
  check (GlobalQuotaManager.validateEntrySize key compressed) ;;
  check (GlobalQuotaManager.validateEntrySize metadataKey metadataStr) ;;
  p1 <- new_Promise (node_set key compressed) ;;
  p2 <- new_Promise (node_set metadataKey metadataStr) ;;
  Promise_all [p1; p2] ;;
  let totalUsage := len compressed + len metadataKey + len metadataStr in
  recordUsage key totalUsage.

(** The [map] of [storeChunkedAsync], from chunk [index] on: every
    callback runs, whatever became of the earlier ones. *)
Fixpoint store_chunks_async (key : string) (chunks : list string)
         (index : nat) : M (list Settled) :=
  match chunks with
  | [] => ret []
  | chunk :: rest =>
      let chunkKey := ChunkManager.calculateChunkKey key index in
      p <- async_call
             (check (ChunkManager.validateChunkEntry chunkKey chunk) ;;
              new_Promise (node_set chunkKey chunk)) ;;
      ps <- store_chunks_async key rest (S index) ;;
      ret (p :: ps)
  end.

(** The second [forEach] of [storeChunkedAsync]. *)
Fixpoint chunks_usage (key : string) (chunks : list string)
         (index : nat) (totalUsage : Z) : Z :=
  match chunks with
  | [] => totalUsage
  | chunk :: rest =>
      let chunkKey := ChunkManager.calculateChunkKey key index in
      chunks_usage key rest (S index) (totalUsage + (len chunkKey + len chunk))
  end.

Definition storeChunkedAsync (key compressed original : string) : M unit :=
  let chunks := ChunkManager.chunks (ChunkManager.chunk compressed) in
  chunkPromises <- store_chunks_async key chunks 0 ;;
  Promise_all chunkPromises ;;
  let totalUsage := chunks_usage key chunks 0 0 in
  store_chunked_metadata key chunks original totalUsage.

(** The [try] block of [setPluginDataAsync]. *)
Definition write_path_async (key data : string) : M unit :=
  compressed <- Compressor.compressAsync data ;;
  reserve key compressed ;;
  let maxChunkSize := ChunkManager.getSafeChunkSize key in
  if len compressed >? maxChunkSize
  then storeChunkedAsync key compressed data
  else storeSingleAsync key compressed data.

Definition setPluginDataAsync (key : string) (value : Json) : M unit :=
  if invalid_key key then throw (InvalidKeyError key)
  else
    match serialize_error value with
    | Some error => throw error
    | None =>
        let data := serialize value in
        let size := Blob_size data in
        if size >? 5 * 1024 * 1024 then throw (DataTooLargeError size)
        else try_catch (write_path_async key data) write_handler
    end.

(** ** Deletion *)

(** The loop of [deletePluginData]: chunks [i .. i + n - 1]. *)
Fixpoint erase_chunks (key : string) (n i : nat) : M unit :=
  match n with
  | O => ret tt
  | S n' =>
      let chunkKey := ChunkManager.calculateChunkKey key i in
      node_set chunkKey "" ;;
      erase_chunks key n' (S i)
  end.

(** The [try] statement of [deletePluginData], with its empty [catch]. *)
Definition erase_managed (key metadataStr : string) : M unit :=
  try_catch
    (metadata <- parse metadataStr ;;
     chunked <- lift (js_get metadata "chunked") ;;
     (if truthy chunked
      then
        totalChunks <- lift (js_get metadata "totalChunks") ;;
        erase_chunks key (loop_bound totalChunks) 0
      else ret tt) ;;
     node_set (metaKey key) "")
    (fun _ => ret tt).

Definition deletePluginData (key : string) : M unit :=
  metadataStr <- node_get (metaKey key) ;;
  (if negb (String.eqb metadataStr "")
   then erase_managed key metadataStr
   else ret tt) ;;
  node_set key "" ;;
  removeUsage key.

(** ** The suspending form of the read path *)

Definition retrieveChunkedAsync (key : string) (metadata : Json) : M Json :=
  totalChunks <- lift (js_get metadata "totalChunks") ;;
  chunks <- read_chunks key (loop_bound totalChunks) 0 ;;
  let compressed := join chunks in
  decompressed <- Compressor.decompressAsync compressed ;;
  validate_and_decode key decompressed metadata.

Definition getPluginDataAsync (key : string) : M Json :=
  metadataStr <- node_get (metaKey key) ;;
  if String.eqb metadataStr ""
  then
    value <- node_get key ;;
    ret (JStr value)
  else
    try_catch
      (metadata <- parse metadataStr ;;
       chunked <- lift (js_get metadata "chunked") ;;
       if truthy chunked
       then retrieveChunkedAsync key metadata
       else
         compressed <- node_get key ;;
         decompressed <- Compressor.decompressAsync compressed ;;
         validate_and_decode key decompressed metadata)
      (read_handler key).

(** ** The suspending form of deletion *)

(** The loop of [deletePluginDataAsync] that builds [deletePromises]:
    every executor runs, whatever became of the earlier ones. *)
Fixpoint erase_chunks_async (key : string) (n i : nat) : M (list Settled) :=
  match n with
  | O => ret []
  | S n' =>
      let chunkKey := ChunkManager.calculateChunkKey key i in
      p <- new_Promise (node_set chunkKey "") ;;
      ps <- erase_chunks_async key n' (S i) ;;
      ret (p :: ps)
  end.

Definition erase_managed_async (key metadataStr : string) : M unit :=
  try_catch
    (metadata <- parse metadataStr ;;
     chunked <- lift (js_get metadata "chunked") ;;
     (if truthy chunked
      then
        totalChunks <- lift (js_get metadata "totalChunks") ;;
        deletePromises <- erase_chunks_async key (loop_bound totalChunks) 0 ;;
        Promise_all deletePromises
      else ret tt) ;;
     node_set (metaKey key) "")
    (fun _ => ret tt).

Definition deletePluginDataAsync (key : string) : M unit :=
  metadataStr <- node_get (metaKey key) ;;
  (if negb (String.eqb metadataStr "")
   then erase_managed_async key metadataStr
   else ret tt) ;;
  node_set key "" ;;
  removeUsage key.

(** ** Memory management

    [getPluginDataKeys()] returns an array, in the order in which the
    node's map was filled.  That order is not tracked here, so the
    methods that loop over the array take it as an argument, [listed]:
    any list that holds the keys of [getPluginDataKeys], each once. *)

(** The loop of [cleanupNode] over the array [keys]. *)
Fixpoint delete_keys (keys : list string) : M unit :=
  match keys with
  | [] => ret tt
  | key :: rest => deletePluginData key ;; delete_keys rest
  end.

Definition cleanupNode (listed : list string) : M unit :=
  delete_keys listed ;;
  nodeId <- node_id ;;
  quota_update (GlobalQuotaManager.cleanupNode nodeId).

(** One turn of the loop of [optimizeStorage] and of
    [optimizeStorageAsync]: the [try] statement, its [continue], and the
    two counters.  [read] and [store] are the calls of the read path and
    of the write path, which are all that the two methods differ in. *)
Definition optimize_key (read : string -> M Json) (store : string -> Json -> M unit)
           (key : string) (acc : OptimizeResult) : M OptimizeResult :=
  try_catch
    (oldUsage <- getKeyUsage key ;;
     if oldUsage =? 0 then ret acc
     else
       data <- read key ;;
       store key data ;;
       newUsage <- getKeyUsage key ;;
       if newUsage <? oldUsage
       then ret {| bytesSaved := bytesSaved acc + (oldUsage - newUsage);
                   keysOptimized := keysOptimized acc + 1 |}
       else ret acc)
    (fun _ => ret acc).

Fixpoint optimize_keys (read : string -> M Json) (store : string -> Json -> M unit)
         (keys : list string) (acc : OptimizeResult) : M OptimizeResult :=
  match keys with
  | [] => ret acc
  | key :: rest =>
      acc' <- optimize_key read store key acc ;;
      optimize_keys read store rest acc'
  end.

Definition optimizeStorage (listed : list string) : M OptimizeResult :=
  optimize_keys getPluginData setPluginData listed
                {| bytesSaved := 0; keysOptimized := 0 |}.

Definition optimizeStorageAsync (listed : list string) : M OptimizeResult :=
  optimize_keys getPluginDataAsync setPluginDataAsync listed
                {| bytesSaved := 0; keysOptimized := 0 |}.

(** One turn of the loop of [migrateFromNative] and of
    [migrateFromNativeAsync]: the [try] statement and the list that the
    key is pushed on.  [store] is the call of the write path. *)
Definition migrate_key (store : string -> Json -> M unit)
           (key : string) (result : IMigrationResult) : M IMigrationResult :=
  let skip := {| migrated := migrated result; failed := failed result;
                 skipped := skipped result ++ [key] |} in
  try_catch
    (metadataStr <- node_get (metaKey key) ;;
     if negb (String.eqb metadataStr "") then ret skip
     else
       value <- node_get key ;;
       if String.eqb value "" then ret skip
       else
         store key (JStr value) ;;
         ret {| migrated := migrated result ++ [key]; failed := failed result;
                skipped := skipped result |})
    (fun _ => ret {| migrated := migrated result; failed := failed result ++ [key];
                     skipped := skipped result |}).

Fixpoint migrate_keys (store : string -> Json -> M unit)
         (targetKeys : list string) (result : IMigrationResult) : M IMigrationResult :=
  match targetKeys with
  | [] => ret result
  | key :: rest =>
      result' <- migrate_key store key result ;;
      migrate_keys store rest result'
  end.

(** [migrateFromNative(keys?)]: [keys || listed], an array being truthy
    even when it is empty. *)
Definition migrateFromNative (keys : option (list string)) (listed : list string)
  : M IMigrationResult :=
  let targetKeys :=
    match keys with
    | Some keys => keys
    | None => listed
    end in
  migrate_keys setPluginData targetKeys {| migrated := []; failed := []; skipped := [] |}.

Definition migrateFromNativeAsync (keys : option (list string)) (listed : list string)
  : M IMigrationResult :=
  let targetKeys :=
    match keys with
    | Some keys => keys
    | None => listed
    end in
  migrate_keys setPluginDataAsync targetKeys
               {| migrated := []; failed := []; skipped := [] |}.

End PluginData.
End PluginData.

(** ** A reference platform

    An executable instance of [Platform], used to run the library on
    concrete inputs: a JSON codec for the values of [Json], the UTF-8
    size of a text of 8-bit code units, and a transport that stands in
    for gzip and base64 (a fixed header followed by the text). *)

Module Reference.

Definition dquote : ascii := "034"%char.

Definition hex_digit (n : nat) : ascii :=
  if (n <? 10)%nat then ascii_of_nat (48 + n) else ascii_of_nat (87 + n).

(** *** [JSON.stringify] *)

Definition escape (c : ascii) : string :=
  let n := nat_of_ascii c in
  if (n =? 34)%nat then String "\" (String dquote "")
  else if (n =? 92)%nat then "\\"
  else if (n =? 8)%nat then "\b"
  else if (n =? 12)%nat then "\f"
  else if (n =? 10)%nat then "\n"
  else if (n =? 13)%nat then "\r"
  else if (n =? 9)%nat then "\t"
  else if (n <? 32)%nat
       then "\u00" +:+ String (hex_digit (n / 16)) (String (hex_digit (n mod 16)) "")
  else String c "".

Fixpoint escape_string (s : string) : string :=
  match s with
  | EmptyString => ""
  | String c rest => escape c +:+ escape_string rest
  end.

Definition quote (s : string) : string :=
  String dquote (escape_string s +:+ String dquote "").

Fixpoint commas (l : list string) : string :=
  match l with
  | [] => ""
  | [x] => x
  | x :: rest => x +:+ "," +:+ commas rest
  end.

Fixpoint stringify (v : Json) : string :=
  match v with
  | JNull => "null"
  | JBool true => "true"
  | JBool false => "false"
  | JNum n => NilZero.string_of_int (Z.to_int n)
  | JStr s => quote s
  | JArr items => "[" +:+ commas (map stringify items) +:+ "]"
  | JObj fields =>
      "{" +:+ commas (map (fun kv => quote (fst kv) +:+ ":" +:+ stringify (snd kv)) fields)
          +:+ "}"
  | JBigInt n => NilZero.string_of_int (Z.to_int n) +:+ "n"
  end.

(** *** [JSON.parse] *)

Definition is_ws (c : ascii) : bool :=
  let n := nat_of_ascii c in
  ((n =? 32) || (n =? 9) || (n =? 10) || (n =? 13))%nat.

Fixpoint skip_ws (s : string) : string :=
  match s with
  | String c rest => if is_ws c then skip_ws rest else s
  | EmptyString => s
  end.

Definition is_digit (c : ascii) : bool :=
  let n := nat_of_ascii c in ((48 <=? n) && (n <=? 57))%nat.

(** The leading digits of [s], read as a number, how many there were,
    and what follows them. *)
Fixpoint take_digits (s : string) (value : Z) (count : nat) : Z * nat * string :=
  match s with
  | String c rest =>
      if is_digit c
      then take_digits rest (10 * value + (Z.of_nat (nat_of_ascii c) - 48)) (S count)
      else (value, count, s)
  | EmptyString => (value, count, s)
  end.

(** An integer literal: no leading zero, no fraction, no exponent. *)
Definition parse_digits (s : string) : option (Z * string) :=
  let '(value, count, rest) := take_digits s 0 0 in
  let leading_zero :=
    match s with
    | String c _ => (nat_of_ascii c =? 48)%nat && (1 <? count)%nat
    | EmptyString => false
    end in
  let continues :=
    match rest with
    | String c _ =>
        let n := nat_of_ascii c in ((n =? 46) || (n =? 101) || (n =? 69))%nat
    | EmptyString => false
    end in
  if (count =? 0)%nat || leading_zero || continues then None
  else Some (value, rest).

Definition parse_number (s : string) : option (Z * string) :=
  match s with
  | String "-" rest =>
      match parse_digits rest with
      | Some (value, rest') => Some (- value, rest')
      | None => None
      end
  | _ => parse_digits s
  end.

Definition hex_value (c : ascii) : option nat :=
  let n := nat_of_ascii c in
  if ((48 <=? n) && (n <=? 57))%nat then Some (n - 48)%nat
  else if ((97 <=? n) && (n <=? 102))%nat then Some (n - 87)%nat
  else if ((65 <=? n) && (n <=? 70))%nat then Some (n - 55)%nat
  else None.

(** The character an escape letter stands for. *)
Definition unescape (c : ascii) : option ascii :=
  let n := nat_of_ascii c in
  if (n =? 34)%nat then Some dquote
  else if (n =? 92)%nat then Some "\"%char
  else if (n =? 47)%nat then Some "/"%char
  else if (n =? 98)%nat then Some (ascii_of_nat 8)
  else if (n =? 102)%nat then Some (ascii_of_nat 12)
  else if (n =? 110)%nat then Some (ascii_of_nat 10)
  else if (n =? 114)%nat then Some (ascii_of_nat 13)
  else if (n =? 116)%nat then Some (ascii_of_nat 9)
  else None.

(** The body of a string literal, after its opening quote. *)
Fixpoint parse_chars (s : string) : option (string * string) :=
  match s with
  | EmptyString => None
  | String c rest =>
      if Ascii.eqb c dquote then Some ("", rest)
      else if Ascii.eqb c "\"%char then
        match rest with
        | String "u" (String h1 (String h2 (String h3 (String h4 rest')))) =>
            match hex_value h1, hex_value h2, hex_value h3, hex_value h4 with
            | Some 0%nat, Some 0%nat, Some d3, Some d4 =>
                match parse_chars rest' with
                | Some (text, rest'') =>
                    Some (String (ascii_of_nat (16 * d3 + d4)) text, rest'')
                | None => None
                end
            | _, _, _, _ => None
            end
        | String e rest' =>
            match unescape e, parse_chars rest' with
            | Some c', Some (text, rest'') => Some (String c' text, rest'')
            | _, _ => None
            end
        | EmptyString => None
        end
      else if (nat_of_ascii c <? 32)%nat then None
      else
        match parse_chars rest with
        | Some (text, rest') => Some (String c text, rest')
        | None => None
        end
  end.

(** [keyword word v s]: the value [v] when [s] starts with [word]. *)
Definition keyword (word : string) (v : Json) (s : string) : option (Json * string) :=
  if String.prefix word s
  then Some (v, substring (String.length word) (String.length s - String.length word) s)
  else None.

(** One or more elements separated by commas, up to [close]. *)
Fixpoint parse_seq {A} (element : string -> option (A * string)) (close : ascii)
         (fuel : nat) (s : string) : option (list A * string) :=
  match fuel with
  | O => None
  | S fuel' =>
      match element s with
      | Some (a, rest) =>
          match skip_ws rest with
          | String c rest' =>
              if Ascii.eqb c "," then
                match parse_seq element close fuel' rest' with
                | Some (l, rest'') => Some (a :: l, rest'')
                | None => None
                end
              else if Ascii.eqb c close then Some ([a], rest')
              else None
          | EmptyString => None
          end
      | None => None
      end
  end.

(** A member of an object: a string literal, a colon, a value. *)
Definition parse_member (value : string -> option (Json * string)) (s : string)
  : option (string * Json * string) :=
  match skip_ws s with
  | String c rest =>
      if Ascii.eqb c dquote then
        match parse_chars rest with
        | Some (k, rest1) =>
            match skip_ws rest1 with
            | String ":" rest2 =>
                match value rest2 with
                | Some (v, rest3) => Some (k, v, rest3)
                | None => None
                end
            | _ => None
            end
        | None => None
        end
      else None
  | EmptyString => None
  end.

Fixpoint parse_value (fuel : nat) (s : string) : option (Json * string) :=
  match fuel with
  | O => None
  | S fuel' =>
      match skip_ws s with
      | EmptyString => None
      | String c rest =>
          if Ascii.eqb c "n" then keyword "null" JNull (String c rest)
          else if Ascii.eqb c "t" then keyword "true" (JBool true) (String c rest)
          else if Ascii.eqb c "f" then keyword "false" (JBool false) (String c rest)
          else if Ascii.eqb c dquote then
            match parse_chars rest with
            | Some (text, rest') => Some (JStr text, rest')
            | None => None
            end
          else if Ascii.eqb c "[" then
            match skip_ws rest with
            | String "]" rest' => Some (JArr [], rest')
            | _ =>
                match parse_seq (parse_value fuel') "]" fuel' rest with
                | Some (items, rest') => Some (JArr items, rest')
                | None => None
                end
            end
          else if Ascii.eqb c "{" then
            match skip_ws rest with
            | String "}" rest' => Some (JObj [], rest')
            | _ =>
                match parse_seq (parse_member (parse_value fuel')) "}" fuel' rest with
                | Some (fields, rest') => Some (JObj fields, rest')
                | None => None
                end
            end
          else
            match parse_number (String c rest) with
            | Some (n, rest') => Some (JNum n, rest')
            | None => None
            end
      end
  end.

(** [JSON.parse(s)]: one value, and nothing but white space after it.
    Neither the nesting nor the number of elements of a text exceeds
    its length. *)
Definition parse (s : string) : option Json :=
  match parse_value (S (String.length s)) s with
  | Some (v, rest) => if String.eqb (skip_ws rest) "" then Some v else None
  | None => None
  end.

(** *** The rest of the platform *)

(** [Number(v)] on [null], booleans, numbers and strings of decimal
    digits; [NaN] elsewhere. *)
Definition to_number (v : Json) : option Z :=
  match v with
  | JNull => Some 0
  | JBool b => Some (if b then 1 else 0)
  | JNum n => Some n
  | JStr s =>
      match take_digits s 0 0 with
      | (value, _, EmptyString) => Some value
      | _ => None
      end
  | JArr _ | JObj _ => None
  | JBigInt n => Some n
  end.

(** The length of the UTF-8 encoding: one byte below U+0080, two from
    there to U+00FF. *)
Fixpoint utf8_size (s : string) : Z :=
  match s with
  | EmptyString => 0
  | String c rest => (if (nat_of_ascii c <? 128)%nat then 1 else 2) + utf8_size rest
  end.

Definition header : string := "H4sI".

Definition pack (data : string) : option string := Some (header +:+ data).

Definition unpack (packed : string) : option string :=
  if String.prefix header packed
  then Some (substring (String.length header)
                       (String.length packed - String.length header) packed)
  else None.

Definition platform : Platform :=
  {| JSON_stringify := stringify;
     JSON_parse := parse;
     ToNumber := to_number;
     Blob_size := utf8_size;
     gzipSync_base64 := pack;
     gunzipSync_text := unpack;
     gzip_base64 := pack;
     gunzip_text := unpack |}.

End Reference.

(** ** Scenarios

    Worlds, keys and values on which the library is run below, all on the
    reference platform. *)

Module Scenario.

#[local] Existing Instance Reference.platform.

(** A new node, and an empty ledger. *)
Definition fresh : World :=
  {| node := MockNode.createMockNode "node-1"; usage := ∅ |}.

(** A write that goes to the node directly, outside the library. *)
Definition native_set (key value : string) (w : World) : World :=
  snd (node_set key value w).

(** The world after a store. *)
Definition stored (key : string) (value : Json) (w : World) : World :=
  snd (PluginData.setPluginData key value w).

(** A structured value. *)
Definition object : Json :=
  JObj [("name", JStr "test"); ("value", JNum 42);
        ("nested", JObj [("data", JBool true)])].

(** A key one code unit longer than a record may be. *)
Definition long_key : string := repeat_char "k" 102401.

(** A value one byte over the cap. *)
Definition oversize : Json := JStr (repeat_char "x" 5242881).

(** A value whose packed text needs two chunks under the key [huge]. *)
Definition huge : Json := JStr (repeat_char "x" 110000).

(** A value whose packed text needs thirteen chunks, more than the
    node takes. *)
Definition thirteen_chunks : Json := JStr (repeat_char "x" 1131516).

(** Two owners that have used up the shared quota between them, seen
    from a third node. *)
Definition exhausted : World :=
  {| node := MockNode.createMockNode "node-3";
     usage := {[ "node-1" := {[ "a" := 2621440 ]};
                 "node-2" := {[ "b" := 2621440 ]} ]} |}.

(** A managed key whose metadata record has been overwritten with text
    that is not JSON. *)
Definition corrupted : World :=
  native_set "__fpdu_meta_doc" "{invalid json" (stored "doc" (JStr "test data") fresh).


(** A node that already holds two native records of 90000 code units,
    a key of 15345 code units, and a value whose packed text fills
    eleven chunks: under this key the chunk records with a one-digit
    index fit a record exactly, and those with a two-digit index
    exceed it by one. *)
Definition crowded : World :=
  native_set "legacy2" (repeat_char "z" 90000)
    (native_set "legacy1" (repeat_char "y" 90000) fresh).

Definition wide_key : string := repeat_char "k" 15345.

Definition eleven_chunks : Json := JStr (repeat_char "x" 957436).



(** A node whose usage counter stands at its limit, and a ledger that
    holds one entry for it. *)
Definition full : World :=
  {| node := {| MockNode.id := "node-1"; MockNode.storage := ∅;
                MockNode.nodeUsage := 1024 * 1024 |};
     usage := {[ "node-1" := {[ "k" := 100 ]} ]} |}.

(** A node with one record that was written outside the library. *)
Definition legacy : World := native_set "title" "hello world" fresh.

End Scenario.

(** ** Vocabulary of the properties *)

(** The chunk records of [key] with index below [n], as the node holds
    them, in index order. *)
Definition chunk_records (key : string) (n : nat) (w : World) : list string :=
  map (fun i => MockNode.getPluginData (ChunkManager.calculateChunkKey key i) (node w))
      (seq 0 n).

(** A record that is missing reads as the empty string. *)
Definition missing (record : string) : bool := String.eqb record "".

(** What the read path yields once the compressed text is at hand:
    decompression, the checksum test against the [checksum] field of the
    metadata, and decoding. *)
Definition finish `{Platform} (key compressed : string) (fields : list (string * Json))
  : outcome Json :=
  match gunzipSync_text compressed with
  | None => Throw (DataCorruptedError key)
  | Some text =>
      if IntegrityValidator.validate text (assoc_last "checksum" fields)
      then Ok (PluginData.decode text) else Throw (DataCorruptedError key)
  end.

(** The keys that the loop of [deletePluginData] erases for chunks
    [i .. i + n - 1], and whether it runs to its end: it stops at the
    first chunk key that the node refuses for its length. *)
Fixpoint erased_chunks (key : string) (n i : nat) : list string * bool :=
  match n with
  | O => ([], true)
  | S n' =>
      let chunkKey := ChunkManager.calculateChunkKey key i in
      if len chunkKey >? 100 * 1024 then ([], false)
      else let '(erased, completed) := erased_chunks key n' (S i) in
           (chunkKey :: erased, completed)
  end.

(** The keys that [erase_managed] erases on a node within its usage
    limit, given the text of the metadata record. *)
Definition erase_plan `{Platform} (key metadataStr : string) : list string :=
  let with_metadata (erased : list string) :=
    if len (PluginData.metaKey key) >? 100 * 1024 then erased
    else (erased ++ [PluginData.metaKey key])%list in
  match JSON_parse metadataStr with
  | None | Some JNull => []
  | Some (JObj fields) =>
      if truthy (assoc_last "chunked" fields)
      then
        let '(erased, completed) :=
          erased_chunks key (loop_bound (assoc_last "totalChunks" fields)) 0 in
        if completed then with_metadata erased else erased
      else with_metadata []
  | Some _ => with_metadata []
  end.

(** No row of the ledger is empty: [removeUsage] drops a row with its
    last key, and [recordUsage] never leaves one empty. *)
Definition ledger_wf (u : GlobalQuotaManager.Usage) : Prop :=
  forall nodeId nodeUsage, u !! nodeId = Some nodeUsage -> nodeUsage <> ∅.

(** The node's usage counter is within the limit that the node
    enforces after every write. *)
Definition within_limit (n : MockNode.t) : Prop :=
  MockNode.nodeUsage n <= 1024 * 1024.

(** [n'] is [n] with the records under [keys] erased and nothing else
    changed but the usage counter, which has not grown. *)
Definition erases (keys : list string) (n n' : MockNode.t) : Prop :=
  (forall k, MockNode.storage n' !! k =
             if decide (k ∈ keys) then None else MockNode.storage n !! k) /\
  MockNode.nodeUsage n' <= MockNode.nodeUsage n /\
  MockNode.id n' = MockNode.id n.

(** The keys that [deletePluginData] erases on a node within its usage
    limit, for a key that the node accepts. *)
Definition deleted_keys `{Platform} (key : string) (n : MockNode.t) : list string :=
  let metadataStr := MockNode.getPluginData (PluginData.metaKey key) n in
  ((if String.eqb metadataStr "" then [] else erase_plan key metadataStr) ++ [key])%list.

(** The metadata object that the write path stores for a payload whose
    compressed text is [compressed]. *)
Definition written_metadata `{Platform} (key compressed data : string) : Json :=
  if len compressed >? ChunkManager.getSafeChunkSize key
  then PluginData.chunked_metadata
         (List.length (ChunkManager.chunks (ChunkManager.chunk compressed))) data
  else PluginData.single_metadata data.

(** Two runs agree: both succeed and leave the same world, or both fail
    with errors related by [R]. *)
Definition agree (R : Error -> Error -> Prop) (a b : outcome unit * World) : Prop :=
  match a, b with
  | (Ok _, w1), (Ok _, w2) => w1 = w2
  | (Throw e1, _), (Throw e2, _) => R e1 e2
  | _, _ => False
  end.

(** In the chunk loop over [chunks], numbered from [i] on and started
    in the world [w]: the chunks before position [p] pass their
    validation and are written, the chunk at position [p] passes its
    validation and its put is refused by the node with [e1], and the
    chunk at a later position [q] fails its validation with [e2]. *)
Definition put_refused_then_invalid (key : string) (chunks : list string) (i : nat)
           (w : World) (e1 e2 : Error) : Prop :=
  exists p q cp cq t wp wp',
    (p < q)%nat /\ chunks !! p = Some cp /\ chunks !! q = Some cq /\
    PluginData.store_chunks key (take p chunks) i 0 w = (Ok t, wp) /\
    ChunkManager.validateChunkEntry (ChunkManager.calculateChunkKey key (i + p)) cp
      = None /\
    node_set (ChunkManager.calculateChunkKey key (i + p)) cp wp = (Throw e1, wp') /\
    kind e1 = KOther /\
    ChunkManager.validateChunkEntry (ChunkManager.calculateChunkKey key (i + q)) cq
      = Some e2.

(** The error [e2] of a chunk loop of the suspending form against the
    error [e1] of the loop of the direct form: the same, or the
    [EntryTooLargeError] of a later chunk that overtook the refusal of a
    put at the join. *)
Definition overtaken (key : string) (chunks : list string) (w : World)
           (e1 e2 : Error) : Prop :=
  e2 = e1 \/ put_refused_then_invalid key chunks 0 w e1 e2.

(** The one way in which the two forms of the write path end in
    different errors on the same key, value and world: the key and the
    value pass the checks before the [try], the write is chunked, the
    put of a chunk is refused by the node, which the direct form reports
    as [CompressionError('compress')], and a later chunk fails its
    validation, whose [EntryTooLargeError] the suspending form
    reports. *)
Definition diverge `{Platform} (key : string) (value : Json) (w : World)
           (e1 e2 : Error) : Prop :=
  e1 = CompressionError Compress /\ kind e2 = KEntryTooLarge /\
  PluginData.invalid_key key = false /\
  PluginData.serialize_error value = None /\
  Blob_size (PluginData.serialize value) <= 5 * 1024 * 1024 /\
  exists compressed w1 e0,
    gzipSync_base64 (PluginData.serialize value) = Some compressed /\
    ChunkManager.getSafeChunkSize key < len compressed /\
    PluginData.reserve key compressed w = (Ok tt, w1) /\
    put_refused_then_invalid key
      (ChunkManager.chunks (ChunkManager.chunk compressed)) 0 w1 e0 e2.

(** ** Vocabulary of the further properties *)

(** The total of one row of the ledger. *)
Definition row_total (row : gmap string Z) : Z :=
  map_fold (fun _ bytes total => total + bytes) 0 row.

(** The ledger entry of [key] under [nodeId], if there is one. *)
Definition entry (nodeId key : string) (u : GlobalQuotaManager.Usage) : option Z :=
  u !! nodeId ≫= (fun row => row !! key).

(** The records that the library derives from a logical key: its
    metadata record and its chunk records. *)
Definition derived (key k : string) : Prop :=
  k = PluginData.metaKey key \/
  exists index, k = ChunkManager.calculateChunkKey key index.

(** The records that belong to a logical key: its bare record and the
    derived ones. *)
Definition physical (key k : string) : Prop := k = key \/ derived key k.

(** [w'] differs from [w] at most in the records under the keys in
    [P] and in the ledger entry of [key] under this node. *)
Definition touches (P : string -> Prop) (key : string) (w w' : World) : Prop :=
  MockNode.id (node w') = MockNode.id (node w) /\
  (forall k, ~ P k ->
     MockNode.storage (node w') !! k = MockNode.storage (node w) !! k) /\
  (forall nodeId k, nodeId <> MockNode.id (node w) \/ k <> key ->
     entry nodeId k (usage w') = entry nodeId k (usage w)).

(** A computation that, however it ends, touches nothing else. *)
Definition confined {A} (P : string -> Prop) (key : string) (m : M A) : Prop :=
  forall w r w', m w = (r, w') -> touches P key w w'.

(** The polynomial in 31 that the checksum loop evaluates over the code
    units of [data], without any wrap-around. *)
Fixpoint horner (data : string) (hash : Z) : Z :=
  match data with
  | EmptyString => hash
  | String c rest => horner rest (31 * hash + IntegrityValidator.charCodeAt c)
  end.

(** The bytes that the write path records in the ledger for a payload
    whose compressed text is [compressed]: the compressed text with the
    chunk keys that carry it, if any, and the metadata record with its
    key. *)
Definition footprint `{Platform} (key compressed data : string) : Z :=
  let metadataStr := JSON_stringify (written_metadata key compressed data) in
  if len compressed >? ChunkManager.getSafeChunkSize key
  then PluginData.chunks_usage key (ChunkManager.chunks (ChunkManager.chunk compressed)) 0 0
       + (len (PluginData.metaKey key) + len metadataStr)
  else len compressed + len (PluginData.metaKey key) + len metadataStr.

(** [listed] is an array that [getPluginDataKeys()] can return on [w]:
    the listed keys, each once, in some order. *)
Definition lists (listed : list string) (w : World) : Prop :=
  listed ≡ₚ elements (PluginData.getPluginDataKeys w).

(** * Properties *)

(** ** Strings as lists of code units *)

Abbreviation chars := list_ascii_of_string.

Section StringLists.

Lemma chars_length s : List.length (chars s) = String.length s.
Proof. induction s; simpl; congruence. Qed.

Lemma chars_inj s t : chars s = chars t -> s = t.
Proof.
  intros E. rewrite <- (string_of_list_ascii_of_string s),
    <- (string_of_list_ascii_of_string t). now rewrite E.
Qed.

Lemma chars_append s t : chars (s +:+ t) = (chars s ++ chars t)%list.
Proof. induction s as [|c s IH]; simpl; [reflexivity|]. now rewrite IH. Qed.

Lemma chars_substring s : forall n m,
  chars (substring n m s) = take m (drop n (chars s)).
Proof.
  induction s as [|c s IH]; intros n m.
  - destruct n, m; reflexivity.
  - destruct n as [|n].
    + destruct m as [|m]; simpl; [reflexivity|]. now rewrite IH.
    + simpl. apply IH.
Qed.

Lemma chars_join l : chars (join l) = concat (map chars l).
Proof.
  unfold join. induction l as [|x l IH]; [reflexivity|].
  destruct l as [|y l].
  - simpl. now rewrite app_nil_r.
  - change (String.concat "" (x :: y :: l))
      with (x +:+ "" +:+ String.concat "" (y :: l)).
    rewrite chars_append. change ("" +:+ ?s) with s.
    rewrite IH. reflexivity.
Qed.

Lemma append_length s t :
  String.length (s +:+ t) = (String.length s + String.length t)%nat.
Proof. rewrite <- !chars_length, chars_append. apply length_app. Qed.

Lemma len_append s t : len (s +:+ t) = len s + len t.
Proof. unfold len. rewrite append_length. lia. Qed.

Lemma len_nonneg s : 0 <= len s.
Proof. unfold len. lia. Qed.

Lemma substring_length s n m :
  String.length (substring n m s) = (m `min` (String.length s - n))%nat.
Proof.
  rewrite <- !chars_length, chars_substring, length_take, length_drop.
  reflexivity.
Qed.

Lemma append_inv_l p s t : p +:+ s = p +:+ t -> s = t.
Proof. induction p; simpl; intros E; [assumption|]. injection E. auto. Qed.

Lemma eqb_empty_false s : String.eqb s "" = false <-> s <> "".
Proof. apply String.eqb_neq. Qed.

End StringLists.

(** ** The checksum *)

Lemma ToInt32_mod z :
  IntegrityValidator.ToInt32 z = (z + 2 ^ 31) mod 2 ^ 32 - 2 ^ 31.
Proof.
  unfold IntegrityValidator.ToInt32.
  change 4294967295 with (Z.ones 32). rewrite Z.land_ones by lia.
  change (2 ^ 32) with 4294967296. change (2 ^ 31) with 2147483648.
  pose proof (Z.mod_pos_bound z 4294967296 eq_refl) as Hz.
  destruct (Z.ltb_spec (z mod 4294967296) 2147483648) as [Hlt | Hge].
  - symmetry. rewrite <- (Z.mod_unique_pos (z + 2147483648) 4294967296
      (z / 4294967296) (z mod 4294967296 + 2147483648)); [lia | lia |].
    rewrite (Z.div_mod z 4294967296) at 1 by lia. lia.
  - symmetry. rewrite <- (Z.mod_unique_pos (z + 2147483648) 4294967296
      (z / 4294967296 + 1) (z mod 4294967296 - 2147483648)); [lia | lia |].
    rewrite (Z.div_mod z 4294967296) at 1 by lia. lia.
Qed.

Lemma ToInt32_range z :
  - 2 ^ 31 <= IntegrityValidator.ToInt32 z < 2 ^ 31.
Proof.
  rewrite ToInt32_mod. pose proof (Z.mod_pos_bound (z + 2 ^ 31) (2 ^ 32) eq_refl).
  change (2 ^ 32) with (2 * 2 ^ 31) in *. lia.
Qed.

(** ** The chunk layout planner *)

Section Chunking.
Import ChunkManager.

Variable size : nat.
Hypothesis size_pos : (0 < size)%nat.

Lemma chunk_loop_nonempty fuel data i :
  chunk_loop size fuel data i <> [] -> (i < String.length data)%nat.
Proof.
  destruct fuel as [|fuel]; simpl; [congruence|].
  destruct (Nat.ltb_spec i (String.length data)); [auto | congruence].
Qed.

Lemma chunk_loop_concat fuel : forall data i,
  (String.length data - i <= fuel)%nat ->
  concat (map chars (chunk_loop size fuel data i)) = drop i (chars data).
Proof.
  induction fuel as [|fuel IH]; intros data i Hfuel; simpl.
  - symmetry. apply drop_ge. rewrite chars_length. lia.
  - destruct (Nat.ltb_spec i (String.length data)) as [Hlt|Hge]; simpl.
    + rewrite IH by lia. unfold slice.
      replace (i + size - i)%nat with size by lia.
      rewrite chars_substring, <- drop_drop. apply take_drop.
    + symmetry. apply drop_ge. rewrite chars_length. lia.
Qed.

Lemma chunk_loop_bounds fuel : forall data i,
  Forall (fun c => (0 < String.length c <= size)%nat) (chunk_loop size fuel data i).
Proof.
  induction fuel as [|fuel IH]; intros data i; simpl; [constructor|].
  destruct (Nat.ltb_spec i (String.length data)) as [Hlt|Hge]; [|constructor].
  constructor; [|apply IH].
  unfold slice. rewrite substring_length. lia.
Qed.

Lemma chunk_loop_full fuel : forall data i j c,
  chunk_loop size fuel data i !! j = Some c ->
  (S j < List.length (chunk_loop size fuel data i))%nat ->
  String.length c = size.
Proof.
  induction fuel as [|fuel IH]; intros data i j c; simpl; [discriminate|].
  destruct (Nat.ltb_spec i (String.length data)) as [Hlt|Hge]; [|discriminate].
  destruct j as [|j]; simpl.
  - intros [= <-] Hlen.
    assert (Hne : chunk_loop size fuel data (i + size) <> []).
    { intros E. rewrite E in Hlen. simpl in Hlen. lia. }
    apply chunk_loop_nonempty in Hne.
    unfold slice. rewrite substring_length. lia.
  - intros Hj Hlen. apply (IH data (i + size)%nat j c Hj). lia.
Qed.

End Chunking.

Lemma CHUNK_SIZE_pos : (0 < ChunkManager.CHUNK_SIZE)%nat.
Proof. unfold ChunkManager.CHUNK_SIZE. lia. Qed.

Lemma chunk_join data :
  join (ChunkManager.chunks (ChunkManager.chunk data)) = data.
Proof.
  apply chars_inj. rewrite chars_join. simpl.
  rewrite (chunk_loop_concat _ CHUNK_SIZE_pos) by lia. apply drop_0.
Qed.

Lemma chunk_pieces_nonempty data :
  Forall (fun c => c <> "") (ChunkManager.chunks (ChunkManager.chunk data)).
Proof.
  eapply Forall_impl; [apply (chunk_loop_bounds _ CHUNK_SIZE_pos)|].
  intros c [Hc _] ->. simpl in Hc. lia.
Qed.

(** C8. [chunk] splits a payload into ordered pieces whose concatenation
    is the payload; no piece is longer than [CHUNK_SIZE], every piece but
    the last is exactly [CHUNK_SIZE] long, and the empty payload gives
    the empty list.  [chunk] is a function of its argument alone. *)
Theorem chunk_spec (payload : string) :
  let pieces := ChunkManager.chunks (ChunkManager.chunk payload) in
  join pieces = payload /\
  Forall (fun c => (String.length c <= ChunkManager.CHUNK_SIZE)%nat) pieces /\
  (forall j c, pieces !! j = Some c -> (S j < List.length pieces)%nat ->
               String.length c = ChunkManager.CHUNK_SIZE) /\
  (payload = "" -> pieces = []) /\
  ChunkManager.totalSize (ChunkManager.chunk payload) = len payload.
Proof.
  intros pieces. repeat split.
  - apply chunk_join.
  - eapply Forall_impl; [apply (chunk_loop_bounds _ CHUNK_SIZE_pos)|].
    simpl. intros c Hc. lia.
  - intros j c. apply (chunk_loop_full _ CHUNK_SIZE_pos).
  - intros ->. reflexivity.
Qed.

(** ** The write path: checks and errors *)

Section WritePath.
Context `{Platform}.
Import PluginData.

Lemma write_handler_rethrown error w :
  write_handler error w = (Throw (rethrown error), w).
Proof. destruct error; reflexivity. Qed.

Lemma rethrown_kind error :
  kind (rethrown error) = KQuotaExceeded \/
  kind (rethrown error) = KEntryTooLarge \/
  rethrown error = CompressionError Compress.
Proof. destruct error; simpl; auto. Qed.

Lemma serialize_error_TypeError value error :
  serialize_error value = Some error -> error = TypeError.
Proof.
  unfold serialize_error. destruct value; try discriminate;
    destruct (has_bigint _); congruence.
Qed.

(** Under a valid key, what the serialization throws leaves both forms
    as it is, before anything is written. *)
Lemma setPluginData_unserializable key value error w :
  invalid_key key = false ->
  serialize_error value = Some error ->
  setPluginData key value w = (Throw error, w) /\
  setPluginDataAsync key value w = (Throw error, w).
Proof.
  intros Hkey Hvalue. unfold setPluginData, setPluginDataAsync.
  rewrite Hkey, Hvalue. split; reflexivity.
Qed.

(** Both forms, past the key check, the serialization and the size
    check, are their [try] block under [write_handler]. *)
Lemma setPluginData_checked key value w :
  invalid_key key = false ->
  serialize_error value = None ->
  Blob_size (serialize value) <= 5 * 1024 * 1024 ->
  setPluginData key value w =
    try_catch (write_path key (serialize value)) write_handler w /\
  setPluginDataAsync key value w =
    try_catch (write_path_async key (serialize value)) write_handler w.
Proof.
  intros Hkey Hvalue Hsize. unfold setPluginData, setPluginDataAsync.
  rewrite Hkey, Hvalue. cbv zeta.
  destruct (Z.gtb_spec (Blob_size (serialize value)) (5 * 1024 * 1024)); [lia|].
  split; reflexivity.
Qed.

Lemma try_catch_write_handler (m : M unit) w r w' :
  try_catch m write_handler w = (r, w') ->
  (r = Ok tt /\ m w = (Ok tt, w')) \/
  (exists e0, m w = (Throw e0, w') /\ r = Throw (rethrown e0)).
Proof.
  unfold try_catch. destruct (m w) as [[[]|e0] w0].
  - intros [= <- <-]. left. auto.
  - rewrite write_handler_rethrown. intros [= <- <-]. right. eauto.
Qed.

End WritePath.

(** C3. A store under an empty key, or under a key that starts with the
    reserved prefix, raises [InvalidKeyError] whatever the value is, and
    leaves the backing store and the ledger as they were. *)
Theorem invalid_key_rejected `{Platform} (key : string) (value : Json) (w : World) :
  key = "" \/ String.prefix "__fpdu_" key = true ->
  PluginData.setPluginData key value w = (Throw (InvalidKeyError key), w).
Proof.
  intros Hkey. unfold PluginData.setPluginData.
  assert (PluginData.invalid_key key = true) as ->; [|reflexivity].
  unfold PluginData.invalid_key. destruct Hkey as [-> | ->]; [reflexivity|].
  apply orb_true_r.
Qed.

(** C4. Under a valid key, a value that serializes to a text of more
    than 5 * 1024 * 1024 bytes raises [DataTooLargeError] carrying that
    size, on every platform and so whatever compression would have done,
    with the world untouched; a value within the cap never raises
    [DataTooLargeError]. *)
Theorem size_cap `{Platform} (key : string) (value : Json) (w : World) :
  PluginData.invalid_key key = false ->
  let size := Blob_size (PluginData.serialize value) in
  (PluginData.serialize_error value = None ->
   5 * 1024 * 1024 < size ->
   PluginData.setPluginData key value w = (Throw (DataTooLargeError size), w)) /\
  (size <= 5 * 1024 * 1024 ->
   forall e w', PluginData.setPluginData key value w = (Throw e, w') ->
                kind e <> KDataTooLarge).
Proof.
  intros Hkey size. split.
  - intros Hvalue Hsize. unfold PluginData.setPluginData.
    rewrite Hkey, Hvalue. cbv zeta.
    fold size. destruct (Z.gtb_spec size (5 * 1024 * 1024)); [reflexivity | lia].
  - intros Hsize e w' Hset.
    destruct (PluginData.serialize_error value) as [error|] eqn:Hvalue.
    + destruct (setPluginData_unserializable key value error w Hkey Hvalue) as [E _].
      rewrite E in Hset. injection Hset as <- _.
      apply serialize_error_TypeError in Hvalue as ->. discriminate.
    + destruct (setPluginData_checked key value w Hkey Hvalue Hsize) as [E _].
      rewrite E in Hset. apply try_catch_write_handler in Hset.
      destruct Hset as [[? _] | (e0 & _ & [= ->])]; [discriminate|].
      destruct (rethrown_kind e0) as [-> | [-> | ->]]; discriminate.
Qed.

(** C5. Under a valid key, for a value that serializes within the size
    cap, when the ledger
    cannot afford the compressed length plus 200 bytes, the store raises
    [QuotaExceededError] with that estimate and with the ledger's
    remaining quota, and neither the backing store nor the ledger has
    changed. *)
Theorem quota_exceeded `{Platform} (key : string) (value : Json) (w : World)
        (compressed : string) :
  PluginData.invalid_key key = false ->
  PluginData.serialize_error value = None ->
  Blob_size (PluginData.serialize value) <= 5 * 1024 * 1024 ->
  gzipSync_base64 (PluginData.serialize value) = Some compressed ->
  GlobalQuotaManager.canStore (len compressed + 200) (usage w) = false ->
  PluginData.setPluginData key value w =
    (Throw (QuotaExceededError (len compressed + 200)
                               (GlobalQuotaManager.getRemainingQuota (usage w))), w).
Proof.
  intros Hkey Hvalue Hsize Hzip Hquota.
  destruct (setPluginData_checked key value w Hkey Hvalue Hsize) as [-> _].
  unfold try_catch, PluginData.write_path, Compressor.compress, bind.
  rewrite Hzip. unfold ret, PluginData.reserve, bind, quota_read.
  rewrite Hquota. reflexivity.
Qed.

(** C10. An error that escapes either form of the write path on a
    value that serializes is an [InvalidKeyError], a
    [DataTooLargeError], a [QuotaExceededError], an
    [EntryTooLargeError] or [CompressionError('compress')]; past the key
    check, the serialization and the size check it is the error of the
    [try] block when that is a [QuotaExceededError] or an
    [EntryTooLargeError], and [CompressionError('compress')] in place of
    any other.  On a value that [JSON.stringify] refuses, the error is
    the [InvalidKeyError] of the key check or, under a valid key, the
    [TypeError] of the serialization itself, which comes before the
    [try] block and before any write. *)
Theorem write_errors `{Platform} (key : string) (value : Json) (w w' : World)
        (e : Error) :
  PluginData.setPluginData key value w = (Throw e, w') \/
  PluginData.setPluginDataAsync key value w = (Throw e, w') ->
  (PluginData.serialize_error value = None ->
   kind e = KInvalidKey \/ kind e = KDataTooLarge \/ kind e = KQuotaExceeded \/
   kind e = KEntryTooLarge \/ e = CompressionError Compress) /\
  (PluginData.serialize_error value <> None ->
   (PluginData.invalid_key key = true /\ e = InvalidKeyError key /\ w' = w) \/
   (PluginData.invalid_key key = false /\ e = TypeError /\ w' = w)) /\
  (PluginData.invalid_key key = false ->
   PluginData.serialize_error value = None ->
   Blob_size (PluginData.serialize value) <= 5 * 1024 * 1024 ->
   exists e0,
     (PluginData.write_path key (PluginData.serialize value) w = (Throw e0, w') \/
      PluginData.write_path_async key (PluginData.serialize value) w = (Throw e0, w')) /\
     e = PluginData.rethrown e0).
Proof.
  intros Hset.
  assert (Hchecked :
    PluginData.invalid_key key = false ->
    PluginData.serialize_error value = None ->
    Blob_size (PluginData.serialize value) <= 5 * 1024 * 1024 ->
    exists e0,
      (PluginData.write_path key (PluginData.serialize value) w = (Throw e0, w') \/
       PluginData.write_path_async key (PluginData.serialize value) w = (Throw e0, w')) /\
      e = PluginData.rethrown e0).
  { intros Hkey Hvalue Hsize.
    destruct (setPluginData_checked key value w Hkey Hvalue Hsize) as [Es Ea].
    rewrite Es, Ea in Hset.
    destruct Hset as [Hset | Hset]; apply try_catch_write_handler in Hset;
      destruct Hset as [[? _] | (e0 & Hm & [= ->])]; try discriminate; eauto. }
  assert (Hinvalid :
    PluginData.invalid_key key = true -> e = InvalidKeyError key /\ w' = w).
  { intros Hkey.
    unfold PluginData.setPluginData, PluginData.setPluginDataAsync in Hset.
    rewrite Hkey in Hset. destruct Hset as [[= <- <-] | [= <- <-]]; now split. }
  split; [|split; [|exact Hchecked]].
  - intros Hvalue.
    destruct (PluginData.invalid_key key) eqn:Hkey.
    { left. destruct (Hinvalid eq_refl) as [-> _]. reflexivity. }
    destruct (Z.gtb_spec (Blob_size (PluginData.serialize value)) (5 * 1024 * 1024))
      as [Hbig | Hsmall].
    { right; left.
      unfold PluginData.setPluginData, PluginData.setPluginDataAsync in Hset.
      rewrite Hkey, Hvalue in Hset. cbv zeta in Hset.
      destruct (Z.gtb_spec (Blob_size (PluginData.serialize value)) (5 * 1024 * 1024));
        [|lia].
      destruct Hset as [[= <- _] | [= <- _]]; reflexivity. }
    destruct (Hchecked eq_refl Hvalue Hsmall) as (e0 & _ & ->).
    destruct (rethrown_kind e0) as [E | [E | E]]; auto.
  - intros Hvalue.
    destruct (PluginData.serialize_error value) as [error|] eqn:Herror; [|congruence].
    destruct (PluginData.invalid_key key) eqn:Hkey.
    { left. destruct (Hinvalid eq_refl) as [-> ->]. auto. }
    right. split; [reflexivity|].
    destruct (setPluginData_unserializable key value error w Hkey Herror)
      as [Es Ea].
    rewrite Es, Ea in Hset.
    apply serialize_error_TypeError in Herror as ->.
    destruct Hset as [[= <- <-] | [= <- <-]]; now split.
Qed.

(** ** The backing store *)

Section Node.

Lemma node_get_eq key w :
  node_get key w = (Ok (MockNode.getPluginData key (node w)), w).
Proof. reflexivity. Qed.

Lemma MockNode_set_id key value n :
  MockNode.id (fst (MockNode.setPluginData key value n)) = MockNode.id n.
Proof.
  unfold MockNode.setPluginData.
  repeat (case_match; simpl); reflexivity.
Qed.

Lemma MockNode_get_set_same key value n n' :
  MockNode.setPluginData key value n = (n', None) ->
  MockNode.getPluginData key n' = value.
Proof.
  unfold MockNode.setPluginData.
  destruct (_ >? _); [discriminate|].
  destruct (String.eqb_spec value "") as [-> | Hne]; simpl;
    destruct (_ >? _); intros [= <-]; unfold MockNode.getPluginData; simpl.
  - now rewrite lookup_delete_eq.
  - now rewrite lookup_insert_eq.
Qed.

Lemma MockNode_get_set_other key value n key' :
  key' <> key ->
  MockNode.getPluginData key' (fst (MockNode.setPluginData key value n)) =
  MockNode.getPluginData key' n.
Proof.
  intros Hne. unfold MockNode.setPluginData.
  destruct (_ >? _); [reflexivity|].
  destruct (String.eqb value ""); simpl;
    destruct (_ >? _); unfold MockNode.getPluginData; simpl.
  all: try now rewrite lookup_delete_ne by congruence.
  all: now rewrite lookup_insert_ne by congruence.
Qed.

Lemma node_set_usage key value w :
  usage (snd (node_set key value w)) = usage w.
Proof.
  unfold node_set. destruct (MockNode.setPluginData key value (node w)) as [n' [e|]];
    reflexivity.
Qed.

Lemma node_set_node key value w :
  node (snd (node_set key value w)) = fst (MockNode.setPluginData key value (node w)).
Proof.
  unfold node_set. destruct (MockNode.setPluginData key value (node w)) as [n' [e|]];
    reflexivity.
Qed.

Lemma node_set_ok key value w w' :
  node_set key value w = (Ok tt, w') ->
  MockNode.setPluginData key value (node w) = (node w', None) /\ usage w' = usage w.
Proof.
  unfold node_set. destruct (MockNode.setPluginData key value (node w)) as [n' [e|]];
    intros [= <-]; auto.
Qed.

End Node.

(** ** The read path *)

Section ReadPath.
Context `{Platform}.
Import PluginData.

Lemma read_chunks_spec key n : forall i w,
  read_chunks key n i w =
    (let records :=
       map (fun j => MockNode.getPluginData (ChunkManager.calculateChunkKey key j) (node w))
           (seq i n) in
     if existsb missing records then Throw (DataCorruptedError key) else Ok records,
     w).
Proof.
  induction n as [|n IH]; intros i w; [reflexivity|].
  cbn [read_chunks seq map existsb]. unfold bind at 1. rewrite node_get_eq.
  unfold missing at 1.
  destruct (String.eqb _ ""); [reflexivity|].
  unfold bind. rewrite IH. cbv zeta. simpl orb.
  destruct (existsb missing _); reflexivity.
Qed.

Lemma validate_and_decode_spec key text fields w :
  validate_and_decode key text (JObj fields) w =
    (if IntegrityValidator.validate text (assoc_last "checksum" fields)
     then Ok (decode text) else Throw (DataCorruptedError key), w).
Proof.
  unfold validate_and_decode, bind, lift, js_get, ret.
  destruct (IntegrityValidator.validate _ _); reflexivity.
Qed.

Lemma getPluginData_managed key w :
  let metadataStr := MockNode.getPluginData (metaKey key) (node w) in
  metadataStr <> "" ->
  getPluginData key w =
    (match JSON_parse metadataStr with
     | Some (JObj fields) =>
         if truthy (assoc_last "chunked" fields)
         then
           let records :=
             chunk_records key (loop_bound (assoc_last "totalChunks" fields)) w in
           if existsb missing records then Throw (DataCorruptedError key)
           else finish key (join records) fields
         else finish key (MockNode.getPluginData key (node w)) fields
     | _ => Throw (DataCorruptedError key)
     end, w).
Proof.
  intros metadataStr Hmeta. unfold getPluginData, bind at 1.
  rewrite node_get_eq. fold metadataStr.
  apply eqb_empty_false in Hmeta. rewrite Hmeta.
  unfold try_catch, bind at 1, parse.
  destruct (JSON_parse metadataStr) as [metadata|]; [|reflexivity].
  destruct metadata as [| b | n | s | items | fields | n]; try reflexivity.
  1-4, 6: cbv beta iota zeta delta
         [ret bind lift js_get truthy node_get Compressor.decompress throw
          validate_and_decode IntegrityValidator.validate];
       (destruct (gunzipSync_text _); reflexivity).
  cbv beta iota zeta delta [ret bind lift js_get].
  destruct (truthy (assoc_last "chunked" fields)).
  - cbv beta iota zeta delta [retrieveChunked ret bind lift js_get].
    rewrite read_chunks_spec. cbv zeta.
    change (map _ (seq 0 ?n)) with (chunk_records key n w).
    destruct (existsb missing _); [reflexivity|].
    cbv beta iota zeta delta [Compressor.decompress finish ret throw].
    destruct (gunzipSync_text _); [|reflexivity].
    rewrite validate_and_decode_spec.
    destruct (IntegrityValidator.validate _ _); reflexivity.
  - cbv beta iota zeta delta [node_get Compressor.decompress finish ret throw].
    destruct (gunzipSync_text _); [|reflexivity].
    rewrite validate_and_decode_spec.
    destruct (IntegrityValidator.validate _ _); reflexivity.
Qed.

End ReadPath.

(** ** Deletion *)

Section Deletion.
Context `{Platform}.
Import PluginData.

Lemma erases_nil n : erases [] n n.
Proof.
  split; [|split; [lia | reflexivity]].
  intros k. destruct (decide (k ∈ [])) as [Hin|]; [|reflexivity].
  inversion Hin.
Qed.

Lemma erases_trans l1 l2 n1 n2 n3 :
  erases l1 n1 n2 -> erases l2 n2 n3 -> erases (l1 ++ l2) n1 n3.
Proof.
  intros (S1 & U1 & I1) (S2 & U2 & I2). split; [|split; [lia | congruence]].
  intros k. rewrite S2, S1.
  destruct (decide (k ∈ l2)), (decide (k ∈ l1)), (decide (k ∈ (l1 ++ l2)%list)) as [|Hout];
    try reflexivity; exfalso; try apply Hout; rewrite ?elem_of_app in *; tauto.
Qed.

Lemma erases_within keys n n' : erases keys n n' -> within_limit n -> within_limit n'.
Proof. intros (_ & U & _). unfold within_limit. lia. Qed.

Lemma node_erase_refused key w :
  100 * 1024 < len key -> exists e, node_set key "" w = (Throw e, w).
Proof.
  intros Hbig. unfold node_set, MockNode.setPluginData.
  change (len "") with 0.
  destruct (Z.gtb_spec (len key + 0) (100 * 1024)); [|lia].
  destruct w. eexists. reflexivity.
Qed.

Lemma node_erase_ok key w :
  len key <= 100 * 1024 -> within_limit (node w) ->
  exists w', node_set key "" w = (Ok tt, w') /\
             erases [key] (node w) (node w') /\ usage w' = usage w.
Proof.
  intros Hsmall Hlimit. unfold node_set, MockNode.setPluginData.
  change (len "") with 0.
  destruct (Z.gtb_spec (len key + 0) (100 * 1024)); [lia|].
  change (String.eqb "" "") with true. cbv iota. cbn [MockNode.nodeUsage].
  pose proof (len_nonneg key). pose proof (len_nonneg (MockNode.getPluginData key (node w))).
  unfold within_limit in Hlimit.
  destruct (Z.gtb_spec (MockNode.nodeUsage (node w) -
              (len key + len (MockNode.getPluginData key (node w)))) (1024 * 1024));
    [lia|].
  eexists. split; [reflexivity|].
  split; [split; [|split; [simpl; lia | reflexivity]] | reflexivity].
  cbn [node MockNode.storage].
  intros k. destruct (decide (k ∈ [key])) as [Hin|Hout].
  - apply list_elem_of_singleton in Hin as ->. apply lookup_delete_eq.
  - apply lookup_delete_ne. intros ->. apply Hout. now apply list_elem_of_singleton.
Qed.

Lemma erase_chunks_spec key n : forall i w,
  within_limit (node w) ->
  exists r w',
    erase_chunks key n i w = (r, w') /\
    erases (fst (erased_chunks key n i)) (node w) (node w') /\
    usage w' = usage w /\
    (if snd (erased_chunks key n i) then r = Ok tt else exists e, r = Throw e).
Proof.
  induction n as [|n IH]; intros i w Hlimit.
  - exists (Ok tt), w. split; [reflexivity|]. split; [apply erases_nil|].
    split; reflexivity.
  - cbn [erase_chunks erased_chunks].
    destruct (Z.gtb_spec (len (ChunkManager.calculateChunkKey key i)) (100 * 1024))
      as [Hbig | Hsmall].
    + destruct (node_erase_refused _ w Hbig) as (e & He).
      exists (Throw e), w. unfold bind. rewrite He.
      split; [reflexivity|]. split; [apply erases_nil|]. split; [reflexivity|].
      simpl. eauto.
    + destruct (node_erase_ok _ w Hsmall Hlimit) as (w1 & E1 & R1 & U1).
      destruct (IH (S i) w1 (erases_within _ _ _ R1 Hlimit)) as (r & w2 & E2 & R2 & U2 & C2).
      exists r, w2. unfold bind. rewrite E1, E2.
      destruct (erased_chunks key n (S i)) as [erased completed]. simpl in *.
      split; [reflexivity|]. split; [|split; [congruence | exact C2]].
      apply (erases_trans [_] erased _ _ _ R1 R2).
Qed.

Lemma erase_metadata_caught key w :
  within_limit (node w) ->
  exists w',
    try_catch (node_set (metaKey key) "") (fun _ => ret tt) w = (Ok tt, w') /\
    erases (if len (metaKey key) >? 100 * 1024 then [] else [metaKey key])
           (node w) (node w') /\
    usage w' = usage w.
Proof.
  intros Hlimit. unfold try_catch.
  destruct (Z.gtb_spec (len (metaKey key)) (100 * 1024)) as [Hbig | Hsmall].
  - destruct (node_erase_refused _ w Hbig) as (e & ->).
    exists w. split; [reflexivity|]. split; [apply erases_nil | reflexivity].
  - destruct (node_erase_ok _ w Hsmall Hlimit) as (w' & -> & R & U).
    exists w'. auto.
Qed.

Lemma erase_managed_spec key metadataStr w :
  within_limit (node w) ->
  exists w',
    erase_managed key metadataStr w = (Ok tt, w') /\
    erases (erase_plan key metadataStr) (node w) (node w') /\
    usage w' = usage w.
Proof.
  intros Hlimit.
  assert (Hnone : exists w', (Ok tt, w) = (Ok tt, w') /\ erases [] (node w) (node w') /\
                             usage w' = usage w).
  { exists w. split; [reflexivity|]. split; [apply erases_nil | reflexivity]. }
  assert (Hflat : exists w',
    try_catch (node_set (metaKey key) "") (fun _ => ret tt) w = (Ok tt, w') /\
    erases (if len (metaKey key) >? 100 * 1024 then [] else ([] ++ [metaKey key])%list)
           (node w) (node w') /\ usage w' = usage w).
  { apply erase_metadata_caught, Hlimit. }
  unfold erase_plan, erase_managed.
  cbv beta iota zeta delta [try_catch bind parse ret throw lift js_get] in *.
  destruct (JSON_parse metadataStr) as [metadata|]; [|exact Hnone].
  destruct metadata as [| b | n | s | items | fields | n];
    try exact Hnone; try exact Hflat.
  destruct (truthy (assoc_last "chunked" fields)); [|exact Hflat].
  destruct (erase_chunks_spec key (loop_bound (assoc_last "totalChunks" fields)) 0 w Hlimit)
    as (r & w1 & -> & R1 & U1 & C1).
  destruct (erased_chunks key _ 0) as [erased completed]. simpl in R1, C1.
  destruct completed.
  - subst r.
    destruct (erase_metadata_caught key w1 (erases_within _ _ _ R1 Hlimit))
      as (w2 & E2 & R2 & U2).
    unfold try_catch in E2. exists w2. split; [exact E2|]. split; [|congruence].
    destruct (len (metaKey key) >? 100 * 1024).
    + rewrite <- (app_nil_r erased). eapply erases_trans; eauto.
    + eapply erases_trans; eauto.
  - destruct C1 as (e & ->). exists w1. auto.
Qed.

Lemma deletePluginData_spec key w :
  within_limit (node w) -> len key <= 100 * 1024 ->
  exists w',
    deletePluginData key w = (Ok tt, w') /\
    erases (deleted_keys key (node w)) (node w) (node w') /\
    usage w' = GlobalQuotaManager.removeUsage (MockNode.id (node w)) key (usage w).
Proof.
  intros Hlimit Hkey. unfold deletePluginData, deleted_keys, bind at 1.
  rewrite node_get_eq.
  set (metadataStr := MockNode.getPluginData (metaKey key) (node w)).
  assert (Hfirst : exists w1,
    (if negb (String.eqb metadataStr "") then erase_managed key metadataStr else ret tt) w
      = (Ok tt, w1) /\
    erases (if String.eqb metadataStr "" then [] else erase_plan key metadataStr)
           (node w) (node w1) /\ usage w1 = usage w).
  { destruct (String.eqb metadataStr ""); simpl.
    - exists w. split; [reflexivity|]. split; [apply erases_nil | reflexivity].
    - apply erase_managed_spec, Hlimit. }
  destruct Hfirst as (w1 & E1 & R1 & U1).
  destruct (node_erase_ok key w1 Hkey (erases_within _ _ _ R1 Hlimit))
    as (w2 & E2 & R2 & U2).
  unfold bind. rewrite E1, E2.
  eexists. split; [reflexivity|].
  cbv beta iota zeta delta [removeUsage bind node_id quota_update]. cbn [node usage].
  split; [eapply erases_trans; eauto|].
  destruct R1 as (_ & _ & I1), R2 as (_ & _ & I2). congruence.
Qed.

End Deletion.

(** ** The ledger *)

Section Ledger.
Import GlobalQuotaManager.

Lemma removeUsage_idempotent nodeId key (u : Usage) :
  removeUsage nodeId key (removeUsage nodeId key u) = removeUsage nodeId key u.
Proof.
  unfold removeUsage at 2 3. destruct (u !! nodeId) as [row|] eqn:Hrow.
  - destruct (decide (size (delete key row) = 0%nat)) as [Hempty | Hfull].
    + unfold removeUsage. now rewrite lookup_delete_eq.
    + unfold removeUsage. rewrite lookup_insert_eq.
      rewrite (delete_id (delete key row)) by apply lookup_delete_eq.
      destruct (decide (size (delete key row) = 0%nat)); [contradiction|].
      apply insert_insert_eq.
  - unfold removeUsage. now rewrite Hrow.
Qed.

Lemma removeUsage_untracked nodeId key (u : Usage) :
  ledger_wf u ->
  (forall row, u !! nodeId = Some row -> row !! key = None) ->
  removeUsage nodeId key u = u.
Proof.
  intros Hwf Hrow. unfold removeUsage.
  destruct (u !! nodeId) as [row|] eqn:E; [|reflexivity].
  rewrite (delete_id row) by auto.
  destruct (decide (size row = 0%nat)) as [Hempty | _].
  - apply map_size_empty_iff in Hempty. now apply Hwf in E.
  - now apply insert_id.
Qed.

Lemma ledger_wf_empty : ledger_wf ∅.
Proof. intros nodeId row. now rewrite lookup_empty. Qed.

Lemma ledger_wf_recordUsage nodeId key bytes (u : Usage) :
  ledger_wf u -> ledger_wf (recordUsage nodeId key bytes u).
Proof.
  intros Hwf n row. unfold recordUsage.
  destruct (decide (nodeId = n)) as [<- | Hne].
  - rewrite lookup_insert_eq. intros [= <-]. apply insert_non_empty.
  - rewrite lookup_insert_ne by assumption. apply Hwf.
Qed.

Lemma ledger_wf_removeUsage nodeId key (u : Usage) :
  ledger_wf u -> ledger_wf (removeUsage nodeId key u).
Proof.
  intros Hwf n row. unfold removeUsage.
  destruct (u !! nodeId) as [r|] eqn:E; [|apply Hwf].
  destruct (decide (size (delete key r) = 0%nat)) as [Hempty | Hfull].
  - destruct (decide (nodeId = n)) as [<- | Hne].
    + now rewrite lookup_delete_eq.
    + rewrite lookup_delete_ne by assumption. apply Hwf.
  - destruct (decide (nodeId = n)) as [<- | Hne].
    + rewrite lookup_insert_eq. intros [= <-].
      now apply map_size_non_empty_iff.
    + rewrite lookup_insert_ne by assumption. apply Hwf.
Qed.

End Ledger.

(** ** Deleting twice *)

Section DeleteTwice.
Context `{Platform}.
Import PluginData.

Lemma metaKey_neq key : metaKey key <> key.
Proof.
  intros E. apply (f_equal String.length) in E.
  unfold metaKey in E. rewrite append_length in E. simpl in E. lia.
Qed.

Lemma erases_same keys n n' :
  erases keys n n' ->
  (forall k, k ∈ keys -> MockNode.storage n !! k = None) ->
  MockNode.storage n' = MockNode.storage n.
Proof.
  intros (S & _ & _) Hgone. apply map_eq. intros k. rewrite S.
  destruct (decide (k ∈ keys)); [symmetry; auto | reflexivity].
Qed.

Lemma erases_gone keys n n' k :
  erases keys n n' -> k ∈ keys -> MockNode.storage n' !! k = None.
Proof.
  intros (S & _ & _) Hin. rewrite S. now destruct (decide (k ∈ keys)).
Qed.

(** After a deletion, the keys that a second deletion would erase are
    gone already. *)
Lemma deleted_keys_gone key n n' :
  erases (deleted_keys key n) n n' ->
  forall k, k ∈ deleted_keys key n' -> MockNode.storage n' !! k = None.
Proof.
  intros R k Hk.
  assert (Hkey : key ∈ deleted_keys key n).
  { unfold deleted_keys. apply elem_of_app. right. now apply list_elem_of_singleton. }
  unfold deleted_keys in Hk. apply elem_of_app in Hk as [Hk | Hk].
  - destruct (String.eqb_spec (MockNode.getPluginData (metaKey key) n') "")
      as [E | Hmeta]; [inversion Hk|].
    (* the metadata record survived, so it is the one of the first run *)
    assert (Hsame : MockNode.getPluginData (metaKey key) n' =
                    MockNode.getPluginData (metaKey key) n).
    { unfold MockNode.getPluginData in *. destruct R as (S & _ & _).
      rewrite S in *. destruct (decide (metaKey key ∈ deleted_keys key n));
        [contradiction | reflexivity]. }
    rewrite Hsame in Hk, Hmeta. apply (erases_gone _ _ _ _ R).
    unfold deleted_keys. apply elem_of_app. left.
    apply String.eqb_neq in Hmeta. now rewrite Hmeta.
  - apply list_elem_of_singleton in Hk as ->. now apply (erases_gone _ _ _ _ R).
Qed.

End DeleteTwice.

(** C7, as the code has it.  On a node within its usage limit and for a
    key that the node accepts (at most 100 * 1024 code units),
    [deletePluginData] does not raise; a second deletion leaves the
    stored records, the ledger and [getPluginDataKeys()] as the first one
    left them; and deleting a key that was never stored changes neither
    the stored records nor the ledger. *)
Theorem delete_idempotent `{Platform} (key : string) (w : World) :
  len key <= 100 * 1024 ->
  within_limit (node w) ->
  exists w1 w2,
    PluginData.deletePluginData key w = (Ok tt, w1) /\
    PluginData.deletePluginData key w1 = (Ok tt, w2) /\
    MockNode.storage (node w2) = MockNode.storage (node w1) /\
    usage w2 = usage w1 /\
    PluginData.getPluginDataKeys w2 = PluginData.getPluginDataKeys w1 /\
    (MockNode.storage (node w) !! key = None ->
     MockNode.storage (node w) !! PluginData.metaKey key = None ->
     ledger_wf (usage w) ->
     (forall row, usage w !! MockNode.id (node w) = Some row -> row !! key = None) ->
     MockNode.storage (node w1) = MockNode.storage (node w) /\ usage w1 = usage w).
Proof.
  intros Hkey Hlimit.
  destruct (deletePluginData_spec key w Hlimit Hkey) as (w1 & E1 & R1 & U1).
  destruct (deletePluginData_spec key w1 (erases_within _ _ _ R1 Hlimit) Hkey)
    as (w2 & E2 & R2 & U2).
  assert (Hstorage : MockNode.storage (node w2) = MockNode.storage (node w1)).
  { apply (erases_same _ _ _ R2), (deleted_keys_gone _ _ _ R1). }
  exists w1, w2.
  split; [exact E1|]. split; [exact E2|]. split; [exact Hstorage|].
  split; [|split].
  - rewrite U2, U1. destruct R1 as (_ & _ & ->). apply removeUsage_idempotent.
  - unfold PluginData.getPluginDataKeys, MockNode.getPluginDataKeys. now rewrite Hstorage.
  - intros Hbare Hmeta Hwf Hrow. split.
    + apply (erases_same _ _ _ R1). intros k.
      unfold deleted_keys, MockNode.getPluginData. rewrite Hmeta. simpl.
      intros Hk. apply list_elem_of_singleton in Hk as ->. assumption.
    + rewrite U1. now apply removeUsage_untracked.
Qed.

(** ** Inversion of computations *)

Section Inversion.

Lemma bind_ok_inv {A B} (m : M A) (f : A -> M B) w b w' :
  bind m f w = (Ok b, w') ->
  exists a w1, m w = (Ok a, w1) /\ f a w1 = (Ok b, w').
Proof.
  unfold bind. destruct (m w) as [[a|e] w1]; [eauto | discriminate].
Qed.

Lemma check_ok_inv r w w' : check r w = (Ok tt, w') -> r = None /\ w' = w.
Proof. destruct r; simpl; [discriminate|]. now intros [= <-]. Qed.

Lemma try_catch_ok_inv (m : M unit) h w w' :
  (forall e w1 w2, h e w1 <> (Ok tt, w2)) ->
  try_catch m h w = (Ok tt, w') -> m w = (Ok tt, w').
Proof.
  intros Hh. unfold try_catch. destruct (m w) as [[[]|e] w1]; [auto|].
  intros E. now apply Hh in E.
Qed.

End Inversion.

(** ** The physical keys of a logical key *)

Section Keys.
Import ChunkManager PluginData.

Lemma Number_toString_inj i j : Number_toString i = Number_toString j -> i = j.
Proof.
  unfold Number_toString. intros E.
  apply (f_equal NilEmpty.uint_of_string) in E. rewrite !NilEmpty.usu in E.
  injection E as E. apply (f_equal Nat.of_uint) in E.
  now rewrite !Unsigned.of_to in E.
Qed.

Lemma chunkKey_inj key i j :
  calculateChunkKey key i = calculateChunkKey key j -> i = j.
Proof.
  unfold calculateChunkKey. intros E.
  do 3 apply append_inv_l in E. now apply Number_toString_inj.
Qed.

Lemma metaKey_neq_chunkKey key i : metaKey key <> calculateChunkKey key i.
Proof. unfold metaKey, calculateChunkKey. simpl. discriminate. Qed.

End Keys.

(** ** Store, then read *)

Section RoundTrip.
Context `{Platform}.
Import PluginData.

Lemma node_set_ok_get key value w w' :
  node_set key value w = (Ok tt, w') ->
  MockNode.getPluginData key (node w') = value /\
  (forall k, k <> key ->
             MockNode.getPluginData k (node w') = MockNode.getPluginData k (node w)) /\
  usage w' = usage w.
Proof.
  intros E. pose proof (node_set_node key value w) as Hn.
  rewrite E in Hn. simpl in Hn.
  apply node_set_ok in E as [E U]. split; [|split; [|exact U]].
  - eapply MockNode_get_set_same, E.
  - intros k Hk. rewrite Hn. now apply MockNode_get_set_other.
Qed.

Lemma recordUsage_node key total w w' :
  recordUsage key total w = (Ok tt, w') -> node w' = node w.
Proof. now intros [= <-]. Qed.

Lemma reserve_node key compressed w w' :
  reserve key compressed w = (Ok tt, w') -> node w' = node w.
Proof.
  cbv beta iota zeta delta
    [reserve bind quota_read ret throw getKeyUsage removeUsage node_id quota_update].
  destruct (negb _); [discriminate|].
  destruct (_ >? 0); now intros [= <-].
Qed.

Lemma storeSingle_ok key compressed data w w' :
  storeSingle key compressed data w = (Ok tt, w') ->
  MockNode.getPluginData key (node w') = compressed /\
  MockNode.getPluginData (metaKey key) (node w') = JSON_stringify (single_metadata data).
Proof.
  unfold storeSingle. intros E.
  apply bind_ok_inv in E as ([] & w1 & E1 & E). apply check_ok_inv in E1 as [_ ->].
  apply bind_ok_inv in E as ([] & w1 & E1 & E). apply check_ok_inv in E1 as [_ ->].
  apply bind_ok_inv in E as ([] & w1 & E1 & E).
  apply bind_ok_inv in E as ([] & w2 & E2 & E).
  apply recordUsage_node in E. rewrite E.
  apply node_set_ok_get in E1 as (G1 & _ & _).
  apply node_set_ok_get in E2 as (G2 & O2 & _).
  split; [|exact G2]. rewrite O2; [exact G1|]. intros Heq. now apply (metaKey_neq key).
Qed.

Lemma store_chunks_ok key chunks : forall i total w t w',
  store_chunks key chunks i total w = (Ok t, w') ->
  (forall j c, chunks !! j = Some c ->
     MockNode.getPluginData (ChunkManager.calculateChunkKey key (i + j)) (node w') = c) /\
  (forall k, (forall j, (i <= j)%nat -> k <> ChunkManager.calculateChunkKey key j) ->
     MockNode.getPluginData k (node w') = MockNode.getPluginData k (node w)).
Proof.
  induction chunks as [|chunk rest IH]; intros i total w t w' E.
  - injection E as _ <-. split; [intros j c Hj; inversion Hj | reflexivity].
  - cbn [store_chunks] in E.
    apply bind_ok_inv in E as ([] & w1 & E1 & E). apply check_ok_inv in E1 as [_ ->].
    apply bind_ok_inv in E as ([] & w1 & E1 & E).
    apply node_set_ok_get in E1 as (G1 & O1 & _).
    apply IH in E as (Grest & Orest). split.
    + intros [|j] c Hj.
      * injection Hj as <-. rewrite Nat.add_0_r, Orest; [exact G1|].
        intros j Hle Heq. apply chunkKey_inj in Heq. lia.
      * replace (i + S j)%nat with (S i + j)%nat by lia. now apply Grest.
    + intros k Hk. rewrite Orest, O1; [reflexivity | |].
      * apply Hk. lia.
      * intros j Hle. apply Hk. lia.
Qed.

Lemma storeChunked_ok key compressed data w w' :
  storeChunked key compressed data w = (Ok tt, w') ->
  let chunks := ChunkManager.chunks (ChunkManager.chunk compressed) in
  chunk_records key (List.length chunks) w' = chunks /\
  MockNode.getPluginData (metaKey key) (node w') =
    JSON_stringify (chunked_metadata (List.length chunks) data).
Proof.
  intros E. cbv zeta. unfold storeChunked in E.
  set (chunks := ChunkManager.chunks (ChunkManager.chunk compressed)) in *.
  apply bind_ok_inv in E as (total & w1 & E1 & E).
  apply store_chunks_ok in E1 as [Gchunks _].
  unfold store_chunked_metadata in E.
  apply bind_ok_inv in E as ([] & w2 & E2 & E). apply check_ok_inv in E2 as [_ ->].
  apply bind_ok_inv in E as ([] & w2 & E2 & E).
  apply recordUsage_node in E. unfold chunk_records. rewrite E.
  apply node_set_ok_get in E2 as (G2 & O2 & _).
  split; [|exact G2].
  apply list_eq. intros j. rewrite list_lookup_fmap.
  destruct (chunks !! j) as [c|] eqn:Hj.
  - rewrite lookup_seq_lt by (apply lookup_lt_Some in Hj; exact Hj).
    simpl. f_equal. rewrite O2.
    + now apply (Gchunks j c).
    + intros Heq. symmetry in Heq. now apply metaKey_neq_chunkKey in Heq.
  - rewrite lookup_seq_ge; [reflexivity|]. now apply lookup_ge_None.
Qed.

(** A successful store leaves the compressed text, whole or in chunks,
    and its metadata where the read path looks for them. *)
Lemma setPluginData_ok key value w w' :
  setPluginData key value w = (Ok tt, w') ->
  let data := serialize value in
  exists compressed,
    gzipSync_base64 data = Some compressed /\
    MockNode.getPluginData (metaKey key) (node w') =
      JSON_stringify (written_metadata key compressed data) /\
    if len compressed >? ChunkManager.getSafeChunkSize key
    then let chunks := ChunkManager.chunks (ChunkManager.chunk compressed) in
         chunk_records key (List.length chunks) w' = chunks
    else MockNode.getPluginData key (node w') = compressed.
Proof.
  intros E. cbv zeta. unfold setPluginData in E.
  set (data := serialize value) in *.
  destruct (invalid_key key); [discriminate|].
  destruct (serialize_error value); [discriminate|]. cbv zeta in E.
  destruct (Blob_size data >? 5 * 1024 * 1024); [discriminate|].
  apply try_catch_ok_inv in E.
  2:{ intros e w1 w2. rewrite write_handler_rethrown. discriminate. }
  unfold write_path in E.
  apply bind_ok_inv in E as (compressed & w1 & E1 & E).
  unfold Compressor.compress in E1.
  destruct (gzipSync_base64 data) as [c|] eqn:Hzip; [|discriminate].
  injection E1 as -> ->.
  apply bind_ok_inv in E as ([] & w2 & _ & E).
  exists compressed. split; [reflexivity|]. unfold written_metadata.
  destruct (len compressed >? ChunkManager.getSafeChunkSize key).
  - apply storeChunked_ok in E as [G1 G2]. auto.
  - apply storeSingle_ok in E as [G1 G2]. auto.
Qed.

End RoundTrip.

Section RoundTripTheorem.
Context `{Platform}.
Import PluginData.

Lemma existsb_missing_false chunks :
  Forall (fun c => c <> "") chunks -> existsb missing chunks = false.
Proof.
  induction 1 as [|c chunks Hc _ IH]; [reflexivity|].
  simpl. rewrite IH. unfold missing. apply String.eqb_neq in Hc. now rewrite Hc.
Qed.

Lemma finish_written key compressed data fields :
  gunzipSync_text compressed = Some data ->
  assoc_last "checksum" fields = Some (JStr (IntegrityValidator.calculateChecksum data)) ->
  finish key compressed fields = Ok (decode data).
Proof.
  intros Hzip Hsum. unfold finish. rewrite Hzip, Hsum.
  unfold IntegrityValidator.validate. now rewrite String.eqb_refl.
Qed.

Lemma read_after_store key value w w' :
  setPluginData key value w = (Ok tt, w') ->
  let data := serialize value in
  (forall c, gzipSync_base64 data = Some c -> gunzipSync_text c = Some data) ->
  JSON_parse "" = None ->
  (forall c, gzipSync_base64 data = Some c ->
     JSON_parse (JSON_stringify (written_metadata key c data)) =
     Some (written_metadata key c data)) ->
  getPluginData key w' = (Ok (decode data), w').
Proof.
  intros Hset data Hzip Hempty Hmeta.
  apply setPluginData_ok in Hset as (c & Hc & Gmeta & Gdata). fold data in Hc, Gmeta.
  specialize (Hzip c Hc). specialize (Hmeta c Hc).
  rewrite getPluginData_managed.
  2:{ rewrite Gmeta. intros E. rewrite E in Hmeta. congruence. }
  rewrite Gmeta, Hmeta. unfold written_metadata in *.
  destruct (len c >? ChunkManager.getSafeChunkSize key).
  - cbv zeta in Gdata. unfold chunked_metadata.
    change (truthy (assoc_last "chunked" _)) with true. cbv iota.
    change (assoc_last "totalChunks" _)
      with (Some (JNum (Z.of_nat
              (List.length (ChunkManager.chunks (ChunkManager.chunk c)))))).
    unfold loop_bound. rewrite Nat2Z.id, Gdata.
    rewrite existsb_missing_false by apply chunk_pieces_nonempty.
    rewrite chunk_join. f_equal. now apply finish_written.
  - unfold single_metadata.
    change (truthy (assoc_last "chunked" _)) with false. cbv iota.
    rewrite Gdata. f_equal. now apply finish_written.
Qed.

End RoundTripTheorem.

(** C1, as the code has it.  After a successful [setPluginData(K, V)],
    [getPluginData(K)] returns the stored text decoded: [JSON.parse] of
    it when it parses, the text itself otherwise - whether the
    compressed text went into one record or into chunks - provided that
    decompression inverts compression on that text and that
    [JSON.parse] inverts [JSON.stringify] on the metadata written.
    The result is [V] when [V] is a string that is not JSON text, and when
    [V] is not a string and the JSON codec round-trips it. *)
Theorem store_then_read `{Platform} (key : string) (value : Json) (w w' : World) :
  PluginData.setPluginData key value w = (Ok tt, w') ->
  let data := PluginData.serialize value in
  (forall c, gzipSync_base64 data = Some c -> gunzipSync_text c = Some data) ->
  JSON_parse "" = None ->
  (forall c, gzipSync_base64 data = Some c ->
     JSON_parse (JSON_stringify (written_metadata key c data)) =
     Some (written_metadata key c data)) ->
  PluginData.getPluginData key w' = (Ok (PluginData.decode data), w') /\
  (forall s, value = JStr s -> JSON_parse s = None -> PluginData.decode data = value) /\
  ((forall s, value <> JStr s) -> JSON_parse (JSON_stringify value) = Some value ->
   PluginData.decode data = value).
Proof.
  intros Hset data Hzip Hempty Hmeta. split; [|split].
  - exact (read_after_store key value w w' Hset Hzip Hempty Hmeta).
  - intros s -> Hs. unfold data, PluginData.decode. simpl. now rewrite Hs.
  - intros Hns Hrt. unfold data, PluginData.decode.
    destruct value; try (simpl; now rewrite Hrt). now destruct (Hns s).
Qed.

(** ** The two forms of the write path *)

Section SyncAsync.
Context `{Platform}.
Import PluginData.

Lemma node_set_throw_kind key value w e w' :
  node_set key value w = (Throw e, w') -> kind e = KOther.
Proof.
  unfold node_set, MockNode.setPluginData.
  repeat case_match; intros [= <- _]; simplify_eq; reflexivity.
Qed.

Lemma validateChunkEntry_kind key chunk e :
  ChunkManager.validateChunkEntry key chunk = Some e -> kind e = KEntryTooLarge.
Proof.
  unfold ChunkManager.validateChunkEntry. case_match; intros [= <-]; reflexivity.
Qed.

Lemma first_rejection_in ps e t :
  first_rejection ps = Some (e, t) -> In (Rejected e t) ps.
Proof.
  induction ps as [|[|e0 t0] ps IH]; simpl; [discriminate | auto |].
  destruct (first_rejection ps) as [[e' t']|].
  - destruct (t' <? t0)%nat; intros [= <- <-]; auto.
  - intros [= <- <-]. auto.
Qed.

Lemma agree_refl (m : M unit) w : agree eq (m w) (m w).
Proof. unfold agree. destruct (m w) as [[|] ?]; reflexivity. Qed.

Lemma agree_weaken (R R' : Error -> Error -> Prop) a b :
  (forall e1 e2, R e1 e2 -> R' e1 e2) -> agree R a b -> agree R' a b.
Proof. unfold agree. destruct a as [[|] ?], b as [[|] ?]; auto. Qed.

Lemma storeSingle_async key compressed data w :
  agree eq (storeSingle key compressed data w)
           (storeSingleAsync key compressed data w).
Proof.
  unfold storeSingle, storeSingleAsync.
  destruct (GlobalQuotaManager.validateEntrySize key compressed) as [e|];
    [reflexivity|].
  destruct (GlobalQuotaManager.validateEntrySize (metaKey key) _) as [e|];
    [reflexivity|].
  cbv beta iota zeta delta [check bind ret new_Promise].
  destruct (node_set key compressed w) as [[[]|e1] w1].
  - destruct (node_set (metaKey key) _ w1) as [[[]|e2] w2]; reflexivity.
  - destruct (node_set (metaKey key) _ w1) as [[[]|e2] w2]; reflexivity.
Qed.

Lemma first_rejection_lookup ps e t :
  first_rejection ps = Some (e, t) -> exists q, ps !! q = Some (Rejected e t).
Proof.
  intros Hfirst. apply first_rejection_in, list_elem_of_In in Hfirst.
  now apply list_elem_of_lookup_1 in Hfirst.
Qed.

(** The running total of the direct loop has no part in what it
    writes. *)
Lemma store_chunks_total key chunks : forall i total total' w t w',
  store_chunks key chunks i total w = (Ok t, w') ->
  exists t', store_chunks key chunks i total' w = (Ok t', w').
Proof.
  induction chunks as [|chunk rest IH]; intros i total total' w t w' E.
  - injection E as _ <-. now exists total'.
  - cbn [store_chunks] in *. unfold bind in *.
    destruct (check _ w) as [[[]|e] w1]; [|discriminate].
    destruct (node_set _ chunk w1) as [[[]|e] w2]; [|discriminate].
    exact (IH _ _ _ _ _ _ E).
Qed.

(** The chunk loops of the two forms, side by side: the promises of the
    suspending form are fulfilled, rejected at once by the size
    validation of their chunk, or rejected two turns later by the node;
    and the rejection that reaches the join is the error of the direct
    loop, unless the validation of a later chunk overtakes the refusal
    of a put. *)
Lemma store_chunks_async_spec key chunks : forall i total w,
  exists ps wa,
    store_chunks_async key chunks i w = (Ok ps, wa) /\
    (forall q e t, ps !! q = Some (Rejected e t) ->
       (t = 0%nat /\ exists cq, chunks !! q = Some cq /\
          ChunkManager.validateChunkEntry (ChunkManager.calculateChunkKey key (i + q)) cq
            = Some e) \/
       (t = 2%nat /\ kind e = KOther)) /\
    match store_chunks key chunks i total w with
    | (Ok t, ws) =>
        ws = wa /\ first_rejection ps = None /\ t = chunks_usage key chunks i total
    | (Throw e, _) =>
        exists e' t', first_rejection ps = Some (e', t') /\
          (e' = e \/ put_refused_then_invalid key chunks i w e e')
    end.
Proof.
  induction chunks as [|chunk rest IH]; intros i total w.
  - exists [], w. repeat split. intros q e t Hq. inversion Hq.
  - cbn [store_chunks store_chunks_async chunks_usage].
    set (chunkKey := ChunkManager.calculateChunkKey key i).
    assert (Htail : forall ps : list Settled,
      (forall q e t, ps !! q = Some (Rejected e t) ->
         (t = 0%nat /\ exists cq, rest !! q = Some cq /\
            ChunkManager.validateChunkEntry
              (ChunkManager.calculateChunkKey key (S i + q)) cq = Some e) \/
         (t = 2%nat /\ kind e = KOther)) ->
      forall q e t, ps !! q = Some (Rejected e t) ->
         (t = 0%nat /\ exists cq, (chunk :: rest) !! S q = Some cq /\
            ChunkManager.validateChunkEntry
              (ChunkManager.calculateChunkKey key (i + S q)) cq = Some e) \/
         (t = 2%nat /\ kind e = KOther)).
    { intros ps Hps q e t Hq. replace (i + S q)%nat with (S i + q)%nat by lia.
      exact (Hps q e t Hq). }
    destruct (ChunkManager.validateChunkEntry chunkKey chunk) as [e|] eqn:Hv.
    + (* the size validation throws: an immediate rejection *)
      destruct (IH (S i) total w) as (ps & wa & Ea & Hps & _).
      exists (Rejected e 0 :: ps), wa.
      cbv beta iota zeta delta [check bind ret throw async_call].
      rewrite Ea. split; [reflexivity|]. split.
      * intros [|q] e0 t0 Hq; [|exact (Htail ps Hps q e0 t0 Hq)].
        injection Hq as <- <-. left. split; [reflexivity|].
        exists chunk. split; [reflexivity|]. now rewrite Nat.add_0_r.
      * exists e, 0%nat. split; [|now left].
        simpl. destruct (first_rejection ps) as [[e' t']|]; reflexivity.
    + cbv beta iota zeta delta [check bind ret throw async_call new_Promise].
      destruct (node_set chunkKey chunk w) as [[[]|e] w1] eqn:Hset.
      * (* the write succeeds *)
        destruct (IH (S i) (total + (len chunkKey + len chunk)) w1)
          as (ps & wa & Ea & Hps & Hrel).
        exists (Fulfilled :: ps), wa. rewrite Ea.
        split; [reflexivity|]. split.
        { intros [|q] e0 t0 Hq; [discriminate|exact (Htail ps Hps q e0 t0 Hq)]. }
        destruct (store_chunks key rest (S i) _ w1) as [[t|e] ws]; [exact Hrel|].
        destruct Hrel as (e' & t' & Hfirst & Hrel).
        exists e', t'. split; [exact Hfirst|].
        destruct Hrel as [->|Hrel]; [now left|right].
        destruct Hrel as (p & q & cp & cq & t & wp & wp' &
                          Hpq & Hp & Hq & Hprefix & Hvp & Hput & Hkind & Hvq).
        destruct (store_chunks_total key (take p rest) (S i) 0
                    (0 + (len chunkKey + len chunk)) w1 t wp Hprefix)
          as [t1 Hprefix1].
        exists (S p), (S q), cp, cq, t1, wp, wp'.
        replace (i + S p)%nat with (S i + p)%nat by lia.
        replace (i + S q)%nat with (S i + q)%nat by lia.
        split; [lia|]. split; [exact Hp|]. split; [exact Hq|].
        split; [|auto].
        cbn [take store_chunks]. fold chunkKey. rewrite Hv.
        cbv beta iota zeta delta [check bind ret]. rewrite Hset. exact Hprefix1.
      * (* the write throws: a rejection adopted two turns later *)
        destruct (IH (S i) total w1) as (ps & wa & Ea & Hps & _).
        exists (Rejected e 2 :: ps), wa. rewrite Ea.
        pose proof (node_set_throw_kind _ _ _ _ _ Hset) as Hk.
        split; [reflexivity|]. split.
        { intros [|q] e0 t0 Hq; [|exact (Htail ps Hps q e0 t0 Hq)].
          injection Hq as <- <-. right. auto. }
        simpl. destruct (first_rejection ps) as [[e' t']|] eqn:Hfirst.
        -- destruct (Nat.ltb_spec t' 2).
           ++ exists e', t'. split; [reflexivity|]. right.
              apply first_rejection_lookup in Hfirst as [q Hq].
              destruct (Hps q e' t' Hq) as [[_ (cq & Hcq & Hvq)] | [? _]]; [|lia].
              exists 0%nat, (S q), chunk, cq, 0, w, w1.
              replace (i + S q)%nat with (S i + q)%nat by lia.
              rewrite Nat.add_0_r. fold chunkKey.
              split; [lia|]. split; [reflexivity|]. split; [exact Hcq|].
              split; [reflexivity|]. auto.
           ++ exists e, 2%nat. split; [reflexivity | now left].
        -- exists e, 2%nat. split; [reflexivity | now left].
Qed.

Lemma storeChunked_async key compressed data w :
  agree (overtaken key (ChunkManager.chunks (ChunkManager.chunk compressed)) w)
        (storeChunked key compressed data w)
        (storeChunkedAsync key compressed data w).
Proof.
  unfold storeChunked, storeChunkedAsync, overtaken. cbv zeta.
  generalize (ChunkManager.chunks (ChunkManager.chunk compressed)). intros chunks.
  destruct (store_chunks_async_spec key chunks 0 0 w) as (ps & wa & Ea & _ & Hrel).
  cbv beta iota delta [bind]. rewrite Ea.
  destruct (store_chunks key chunks 0 0 w) as [[t|e] ws].
  - destruct Hrel as (-> & Hnone & ->).
    unfold Promise_all. rewrite Hnone. cbv beta iota delta [ret].
    apply (agree_weaken eq); [intros ? ? ->; now left | apply agree_refl].
  - destruct Hrel as (e' & t' & Hsome & Hov).
    unfold Promise_all. rewrite Hsome. exact Hov.
Qed.

(** The [try] blocks of the two forms end alike, but for the overtaking
    in a chunked write. *)
Lemma write_path_async_spec key data w :
  gzip_base64 data = gzipSync_base64 data ->
  agree (fun e1 e2 =>
           e2 = e1 \/
           exists compressed w1,
             gzipSync_base64 data = Some compressed /\
             ChunkManager.getSafeChunkSize key < len compressed /\
             reserve key compressed w = (Ok tt, w1) /\
             put_refused_then_invalid key
               (ChunkManager.chunks (ChunkManager.chunk compressed)) 0 w1 e1 e2)
        (write_path key data w) (write_path_async key data w).
Proof.
  intros Hzip. unfold write_path, write_path_async,
    Compressor.compress, Compressor.compressAsync. rewrite Hzip.
  destruct (gzipSync_base64 data) as [compressed|] eqn:Hc; [|now left].
  cbv beta iota zeta delta [bind ret].
  destruct (reserve key compressed w) as [[[]|e] w1] eqn:Hreserve; [|now left].
  destruct (Z.gtb_spec (len compressed) (ChunkManager.getSafeChunkSize key))
    as [Hlong|Hshort].
  - eapply agree_weaken; [|apply storeChunked_async].
    intros e1 e2 [->|Hrel]; [now left|right].
    exists compressed, w1. split; [reflexivity|]. split; [lia|].
    split; [exact Hreserve|]. exact Hrel.
  - apply (agree_weaken eq); [intros ? ? ->; now left | apply storeSingle_async].
Qed.

End SyncAsync.

(** C9, as the code has it.  When the callback form of gzip yields what
    the direct form yields, [setPluginData] and [setPluginDataAsync] run
    on the same key, value and world either both succeed, and leave the
    same backing store and the same ledger, or both fail.  They then
    fail with the same error, with one exception: in a chunked write in
    which the node refuses the put of a chunk and a later chunk fails
    its size validation, the direct form raises
    [CompressionError('compress')] for the refusal, and the suspending
    form raises the [EntryTooLargeError] of the later chunk. *)
Theorem sync_async `{Platform} (key : string) (value : Json) (w : World) :
  gzip_base64 (PluginData.serialize value) = gzipSync_base64 (PluginData.serialize value) ->
  agree (fun e1 e2 => e2 = e1 \/ diverge key value w e1 e2)
        (PluginData.setPluginData key value w)
        (PluginData.setPluginDataAsync key value w).
Proof.
  intros Hzip. unfold PluginData.setPluginData, PluginData.setPluginDataAsync.
  destruct (PluginData.invalid_key key) eqn:Hkey; [now left|].
  destruct (PluginData.serialize_error value) eqn:Hvalue; [now left|]. cbv zeta.
  destruct (Z.gtb_spec (Blob_size (PluginData.serialize value)) (5 * 1024 * 1024))
    as [Hbig|Hsize]; [now left|].
  pose proof (write_path_async_spec key (PluginData.serialize value) w Hzip) as Hrel.
  unfold try_catch, agree in *.
  destruct (PluginData.write_path key _ w) as [[[]|e1] w1],
           (PluginData.write_path_async key _ w) as [[[]|e2] w2];
    try assumption; try contradiction.
  rewrite !write_handler_rethrown.
  destruct Hrel as [-> | (compressed & w0 & Hc & Hlong & Hreserve & Hrel)];
    [now left|].
  right.
  pose proof Hrel as (p & q & cp & cq & t & wp & wp' &
                      _ & _ & _ & _ & _ & _ & Hother & Hvq).
  apply validateChunkEntry_kind in Hvq.
  assert (E1 : PluginData.rethrown e1 = CompressionError Compress)
    by (destruct e1; try discriminate Hother; reflexivity).
  assert (E2 : PluginData.rethrown e2 = e2)
    by (destruct e2; try discriminate Hvq; reflexivity).
  rewrite E1, E2. split; [reflexivity|]. split; [exact Hvq|].
  split; [exact Hkey|]. split; [exact Hvalue|]. split; [exact Hsize|].
  exists compressed, w0, e1. auto.
Qed.


Section OnTheReferencePlatform.

#[local] Existing Instance Reference.platform.
Import Scenario.

(** *** Unparsable metadata survives a deletion *)

(** C2, at a key whose metadata record is not JSON: [deletePluginData]
    succeeds, erases the bare record and the ledger entry, and leaves
    the metadata record in place, so that the key still reads as
    corrupted afterwards. *)
Theorem delete_keeps_unparsable_metadata :
  let w' := snd (PluginData.deletePluginData "doc" corrupted) in
  MockNode.getPluginData "__fpdu_meta_doc" (node corrupted) = "{invalid json" /\
  fst (PluginData.deletePluginData "doc" corrupted) = Ok tt /\
  MockNode.getPluginData "__fpdu_meta_doc" (node w') = "{invalid json" /\
  MockNode.getPluginData "doc" (node w') = "" /\
  GlobalQuotaManager.getKeyUsage "node-1" "doc" (usage w') = 0 /\
  fst (PluginData.getPluginData "doc" w') = Throw (DataCorruptedError "doc").
Proof. vm_compute. repeat split. Qed.

(** *** Facts of the reference platform *)

Lemma unpack_pack data c :
  Reference.pack data = Some c -> Reference.unpack c = Some data.
Proof.
  intros [= <-]. unfold Reference.unpack, Reference.header.
  assert (String.prefix "H4sI" ("H4sI" +:+ data) = true) as ->.
  { apply prefix_correct, chars_inj.
    rewrite chars_substring, chars_append. reflexivity. }
  f_equal. apply chars_inj.
  rewrite chars_substring, chars_append, append_length.
  change (drop (String.length "H4sI") (chars "H4sI" ++ chars data)%list)
    with (chars data).
  apply take_ge. rewrite chars_length. simpl. lia.
Qed.

Lemma utf8_size_repeat_char c n :
  (nat_of_ascii c < 128)%nat ->
  Reference.utf8_size (repeat_char c n) = Z.of_N n.
Proof.
  intros Hc. unfold repeat_char. induction n as [|n IH] using N.peano_ind.
  - reflexivity.
  - rewrite N.iter_succ. cbn [Reference.utf8_size]. rewrite IH.
    apply Nat.ltb_lt in Hc. rewrite Hc. lia.
Qed.

Lemma oversize_size :
  Blob_size (PluginData.serialize oversize) = 5242881.
Proof.
  change (Blob_size (PluginData.serialize oversize))
    with (Reference.utf8_size (repeat_char "x" 5242881)).
  rewrite utf8_size_repeat_char; [reflexivity|].
  change (nat_of_ascii "x") with 120%nat. lia.
Qed.

(** *** The theorems at work *)

(** The outcome and the world of a run whose outcome is known. *)
Lemma run_eq {A} (m : M A) (w : World) (r : outcome A) :
  fst (m w) = r -> m w = (r, snd (m w)).
Proof. intros <-. apply surjective_pairing. Qed.

Lemma invalid_key_rejected_witness :
  ("" = "" \/ String.prefix "__fpdu_" "" = true) /\
  PluginData.setPluginData "" (JStr "data") fresh = (Throw (InvalidKeyError ""), fresh).
Proof.
  split; [left; reflexivity|].
  apply (invalid_key_rejected "" (JStr "data") fresh). left. reflexivity.
Defined.

Example reserved_key_rejected :
  PluginData.setPluginData "__fpdu_test" (JStr "data") fresh =
    (Throw (InvalidKeyError "__fpdu_test"), fresh).
Proof. apply invalid_key_rejected. right. vm_compute. reflexivity. Qed.

Lemma key_x_valid : PluginData.invalid_key "x" = false.
Proof. vm_compute. reflexivity. Qed.

Lemma size_cap_witness :
  PluginData.invalid_key "x" = false /\
  PluginData.setPluginData "x" oversize fresh =
    (Throw (DataTooLargeError 5242881), fresh).
Proof.
  split; [exact key_x_valid|].
  destruct (size_cap "x" oversize fresh key_x_valid) as [Hbig _].
  rewrite oversize_size in Hbig. apply Hbig; [reflexivity|lia].
Defined.

Lemma quota_exceeded_witness :
  PluginData.invalid_key "third" = false /\
  Blob_size (PluginData.serialize (JStr "data")) <= 5 * 1024 * 1024 /\
  gzipSync_base64 (PluginData.serialize (JStr "data")) = Some "H4sIdata" /\
  GlobalQuotaManager.canStore (len "H4sIdata" + 200) (usage exhausted) = false /\
  GlobalQuotaManager.getRemainingQuota (usage exhausted) = 0 /\
  PluginData.setPluginData "third" (JStr "data") exhausted =
    (Throw (QuotaExceededError (len "H4sIdata" + 200)
              (GlobalQuotaManager.getRemainingQuota (usage exhausted))), exhausted).
Proof.
  assert (Hkey : PluginData.invalid_key "third" = false) by (vm_compute; reflexivity).
  assert (Hsize : Blob_size (PluginData.serialize (JStr "data")) <= 5 * 1024 * 1024)
    by (vm_compute; discriminate).
  assert (Hzip : gzipSync_base64 (PluginData.serialize (JStr "data")) = Some "H4sIdata")
    by reflexivity.
  assert (Hquota : GlobalQuotaManager.canStore (len "H4sIdata" + 200) (usage exhausted)
                   = false) by (vm_compute; reflexivity).
  repeat (split; [assumption|]).
  split; [vm_compute; reflexivity|].
  exact (quota_exceeded "third" (JStr "data") exhausted "H4sIdata"
           Hkey eq_refl Hsize Hzip Hquota).
Defined.



Lemma delete_idempotent_witness :
  len "doc" <= 100 * 1024 /\
  within_limit (node (stored "doc" (JStr "test data") fresh)) /\
  exists w1 w2,
    PluginData.deletePluginData "doc" (stored "doc" (JStr "test data") fresh)
      = (Ok tt, w1) /\
    PluginData.deletePluginData "doc" w1 = (Ok tt, w2) /\
    MockNode.storage (node w2) = MockNode.storage (node w1) /\
    usage w2 = usage w1.
Proof.
  assert (Hkey : len "doc" <= 100 * 1024) by (vm_compute; discriminate).
  assert (Hlimit : within_limit (node (stored "doc" (JStr "test data") fresh)))
    by (vm_compute; discriminate).
  split; [exact Hkey|]. split; [exact Hlimit|].
  destruct (delete_idempotent "doc" _ Hkey Hlimit)
    as (w1 & w2 & E1 & E2 & Hs & Hu & _).
  exists w1, w2. auto.
Defined.

Lemma sync_async_witness :
  gzip_base64 (PluginData.serialize object) = gzipSync_base64 (PluginData.serialize object) /\
  agree (fun e1 e2 => e2 = e1 \/ diverge "settings" object fresh e1 e2)
        (PluginData.setPluginData "settings" object fresh)
        (PluginData.setPluginDataAsync "settings" object fresh).
Proof.
  split; [reflexivity|]. apply sync_async. reflexivity.
Defined.

(** *** Where the claims fail *)

(** C1 as stated fails on a string that is JSON text: stored as the
    string ["42"], read back as the number [42]. *)
Lemma numeric_text_read_as_number :
  fst (PluginData.setPluginData "k" (JStr "42") fresh) = Ok tt /\
  fst (PluginData.getPluginData "k" (stored "k" (JStr "42") fresh)) = Ok (JNum 42) /\
  fst (PluginData.getPluginData "k" (stored "k" (JStr "42") fresh)) <> Ok (JStr "42").
Proof. vm_compute. repeat split. discriminate. Qed.

(** C7 as stated fails on a key that is longer than a record may be:
    the node refuses the erase of the bare record, and
    [deletePluginData] raises. *)
Lemma delete_raises_on_long_key :
  fst (PluginData.deletePluginData long_key fresh) =
    Throw (JsError "Plugin data entry exceeds 100KB limit: 102401 bytes").
Proof. vm_compute. reflexivity. Qed.

(** C9 as stated fails when a chunk write is refused by the node and
    a later chunk fails its size validation.  On [crowded] the node
    runs over its usage limit at the chunk of index 9, which the direct
    form reports as [CompressionError]; the suspending form goes on to
    the chunk of index 10, whose validation rejects at once and so
    reaches the join first: it reports [EntryTooLargeError].  The two
    forms of gzip are the same function here. *)
Lemma forms_disagree_on_error_kind :
  fst (PluginData.setPluginData wide_key eleven_chunks crowded)
    = Throw (CompressionError Compress) /\
  fst (PluginData.setPluginDataAsync wide_key eleven_chunks crowded)
    = Throw (EntryTooLargeError 102401 102400) /\
  kind (CompressionError Compress) <> kind (EntryTooLargeError 102401 102400).
Proof. vm_compute. repeat split. discriminate. Qed.

(** C10 as stated fails for a value that [JSON.stringify] refuses.  The
    call stands before the [try] of both forms, so the [TypeError] it
    raises for a BigInt, at the top of the value or inside an object,
    reaches the caller as it is: it is none of the five classes, and
    nothing has been written. *)
Lemma bigint_escapes_as_type_error :
  PluginData.setPluginData "count" (JBigInt 10) fresh = (Throw TypeError, fresh) /\
  PluginData.setPluginDataAsync "count" (JObj [("total", JBigInt 10)]) fresh
    = (Throw TypeError, fresh) /\
  kind TypeError <> KInvalidKey /\ kind TypeError <> KDataTooLarge /\
  kind TypeError <> KQuotaExceeded /\ kind TypeError <> KEntryTooLarge /\
  kind TypeError <> KCompression.
Proof. repeat split; try discriminate; vm_compute; reflexivity. Qed.

(** *** Round trips *)

Example roundtrip_plain_string :
  fst (PluginData.getPluginData "test" (stored "test" (JStr "hello world") fresh))
    = Ok (JStr "hello world").
Proof. vm_compute. reflexivity. Qed.

Example roundtrip_empty_string :
  fst (PluginData.setPluginData "test" (JStr "") fresh) = Ok tt /\
  fst (PluginData.getPluginData "test" (stored "test" (JStr "") fresh)) = Ok (JStr "").
Proof. vm_compute. split; reflexivity. Qed.

Example roundtrip_object :
  fst (PluginData.getPluginData "settings" (stored "settings" object fresh)) = Ok object.
Proof. vm_compute. reflexivity. Qed.

(** The value [huge] goes into two chunks. *)
Lemma huge_stored :
  fst (PluginData.setPluginData "huge" huge fresh) = Ok tt /\
  Reference.parse
    (MockNode.getPluginData "__fpdu_meta_huge" (node (stored "huge" huge fresh))) =
  Some (JObj [("compressed", JBool true); ("chunked", JBool true);
              ("totalChunks", JNum 2); ("checksum", JStr "osvugw");
              ("size", JNum 110000)]).
Proof. vm_compute. split; reflexivity. Qed.

Lemma huge_metadata c :
  gzipSync_base64 (PluginData.serialize huge) = Some c ->
  JSON_parse (JSON_stringify (written_metadata "huge" c (PluginData.serialize huge))) =
  Some (written_metadata "huge" c (PluginData.serialize huge)).
Proof.
  intros Hc.
  change (Some (Reference.header +:+ PluginData.serialize huge) = Some c) in Hc.
  apply (f_equal (fun o => match o with Some x => x | None => c end)) in Hc.
  cbv beta iota in Hc. subst c. vm_compute. reflexivity.
Qed.

Lemma huge_not_json : JSON_parse (repeat_char "x" 110000) = None.
Proof. vm_compute. reflexivity. Qed.

Lemma store_then_read_witness :
  PluginData.setPluginData "huge" huge fresh = (Ok tt, stored "huge" huge fresh) /\
  PluginData.getPluginData "huge" (stored "huge" huge fresh)
    = (Ok huge, stored "huge" huge fresh).
Proof.
  assert (Hset : PluginData.setPluginData "huge" huge fresh
                 = (Ok tt, stored "huge" huge fresh))
    by exact (run_eq (PluginData.setPluginData "huge" huge) fresh (Ok tt)
                     (proj1 huge_stored)).
  split; [exact Hset|].
  destruct (store_then_read "huge" huge fresh _ Hset
              (unpack_pack _) eq_refl huge_metadata) as (Hread & Hstring & _).
  rewrite Hread, (Hstring (repeat_char "x" 110000) eq_refl huge_not_json).
  reflexivity.
Defined.

(** *** A write that the node refuses *)

(** Storing [thirteen_chunks] on a new node fills it: the write of the
    last chunk is refused, and [setPluginData] reports the refusal as
    [CompressionError]. *)
Lemma thirteen_chunks_refused :
  fst (PluginData.setPluginData "k" thirteen_chunks fresh)
    = Throw (CompressionError Compress) /\
  fst (PluginData.write_path "k" (PluginData.serialize thirteen_chunks) fresh)
    = Throw (JsError "Mock node quota exceeded").
Proof.
  assert (Hpath :
    fst (PluginData.write_path "k" (PluginData.serialize thirteen_chunks) fresh)
      = Throw (JsError "Mock node quota exceeded")) by (vm_compute; reflexivity).
  split; [|exact Hpath].
  assert (Hkey : PluginData.invalid_key "k" = false) by (vm_compute; reflexivity).
  assert (Hsize : Blob_size (PluginData.serialize thirteen_chunks) <= 5 * 1024 * 1024).
  { change (Blob_size (PluginData.serialize thirteen_chunks))
      with (Reference.utf8_size (repeat_char "x" 1131516)).
    rewrite utf8_size_repeat_char; [lia|].
    change (nat_of_ascii "x") with 120%nat. lia. }
  destruct (setPluginData_checked "k" thirteen_chunks fresh Hkey eq_refl Hsize)
    as [-> _].
  unfold try_catch.
  destruct (PluginData.write_path "k" (PluginData.serialize thirteen_chunks) fresh)
    as [[[]|e] w1]; cbn [fst] in Hpath; [discriminate|].
  injection Hpath as ->. reflexivity.
Qed.

Lemma write_errors_witness :
  (PluginData.setPluginData "k" thirteen_chunks fresh
     = (Throw (CompressionError Compress), stored "k" thirteen_chunks fresh) \/
   PluginData.setPluginDataAsync "k" thirteen_chunks fresh
     = (Throw (CompressionError Compress), stored "k" thirteen_chunks fresh)) /\
  (kind (CompressionError Compress) = KInvalidKey \/
   kind (CompressionError Compress) = KDataTooLarge \/
   kind (CompressionError Compress) = KQuotaExceeded \/
   kind (CompressionError Compress) = KEntryTooLarge \/
   CompressionError Compress = CompressionError Compress).
Proof.
  assert (Hset : PluginData.setPluginData "k" thirteen_chunks fresh
                 = (Throw (CompressionError Compress), stored "k" thirteen_chunks fresh))
    by exact (run_eq (PluginData.setPluginData "k" thirteen_chunks) fresh
                     (Throw (CompressionError Compress))
                     (proj1 thirteen_chunks_refused)).
  split; [left; exact Hset|].
  exact (proj1 (write_errors "k" thirteen_chunks fresh _ _ (or_introl Hset)) eq_refl).
Defined.

End OnTheReferencePlatform.

(** * Further properties *)

(** ** The ledger: lookups and totals *)

Section LedgerAccounting.
Import GlobalQuotaManager.

Lemma row_fold_shift (row : gmap string Z) (a : Z) :
  map_fold (fun _ bytes total => total + bytes) a row = a + row_total row.
Proof.
  unfold row_total.
  induction row as [|k b row Hk Hfold IH] using map_first_key_ind.
  - rewrite !map_fold_empty. lia.
  - rewrite !map_fold_insert_first_key by assumption. rewrite IH. lia.
Qed.

Lemma row_total_insert_fresh (row : gmap string Z) k b :
  row !! k = None -> row_total (<[k := b]> row) = row_total row + b.
Proof.
  intros Hk. unfold row_total.
  rewrite map_fold_insert_L; [reflexivity| |exact Hk].
  intros. lia.
Qed.

Lemma row_total_delete (row : gmap string Z) k :
  row_total (delete k row) = row_total row - default 0 (row !! k).
Proof.
  destruct (row !! k) as [b|] eqn:Hk; simpl.
  - rewrite <- (insert_delete_id row k b Hk) at 2.
    rewrite row_total_insert_fresh by apply lookup_delete_eq. lia.
  - rewrite delete_id by exact Hk. lia.
Qed.

Lemma row_total_insert (row : gmap string Z) k b :
  row_total (<[k := b]> row) = row_total row - default 0 (row !! k) + b.
Proof.
  rewrite <- insert_delete_eq.
  rewrite row_total_insert_fresh by apply lookup_delete_eq.
  rewrite row_total_delete. lia.
Qed.

Lemma row_total_empty : row_total ∅ = 0.
Proof. reflexivity. Qed.

Lemma total_insert_fresh (u : Usage) nodeId row :
  u !! nodeId = None ->
  getCurrentUsage (<[nodeId := row]> u) = getCurrentUsage u + row_total row.
Proof.
  intros Hn. unfold getCurrentUsage.
  rewrite map_fold_insert_L; [apply row_fold_shift| |exact Hn].
  intros. rewrite !row_fold_shift. lia.
Qed.

Lemma total_delete (u : Usage) nodeId :
  getCurrentUsage (delete nodeId u) =
  getCurrentUsage u - default 0 (row_total <$> u !! nodeId).
Proof.
  destruct (u !! nodeId) as [row|] eqn:Hn; simpl.
  - rewrite <- (insert_delete_id u nodeId row Hn) at 2.
    rewrite total_insert_fresh by apply lookup_delete_eq. lia.
  - rewrite delete_id by exact Hn. lia.
Qed.

Lemma total_insert (u : Usage) nodeId row :
  getCurrentUsage (<[nodeId := row]> u) =
  getCurrentUsage u - default 0 (row_total <$> u !! nodeId) + row_total row.
Proof.
  rewrite <- insert_delete_eq.
  rewrite total_insert_fresh by apply lookup_delete_eq.
  rewrite total_delete. lia.
Qed.

Lemma getNodeUsage_row nodeId (u : Usage) :
  getNodeUsage nodeId u = default 0 (row_total <$> u !! nodeId).
Proof. unfold getNodeUsage. now destruct (u !! nodeId). Qed.

Lemma getKeyUsage_entry nodeId key (u : Usage) :
  getKeyUsage nodeId key u = default 0 (entry nodeId key u).
Proof. unfold getKeyUsage, entry. now destruct (u !! nodeId). Qed.

Lemma entry_recordUsage nodeId key bytes (u : Usage) nodeId' key' :
  entry nodeId' key' (recordUsage nodeId key bytes u) =
  if decide (nodeId' = nodeId /\ key' = key) then Some bytes else entry nodeId' key' u.
Proof.
  unfold entry, recordUsage.
  destruct (decide (nodeId' = nodeId)) as [->|Hn].
  - rewrite lookup_insert_eq. simpl.
    destruct (decide (key' = key)) as [->|Hk].
    + rewrite lookup_insert_eq. now rewrite decide_True.
    + rewrite lookup_insert_ne by congruence.
      rewrite decide_False by tauto.
      now destruct (u !! nodeId).
  - rewrite lookup_insert_ne by congruence. now rewrite decide_False by tauto.
Qed.

Lemma entry_removeUsage nodeId key (u : Usage) nodeId' key' :
  entry nodeId' key' (removeUsage nodeId key u) =
  if decide (nodeId' = nodeId /\ key' = key) then None else entry nodeId' key' u.
Proof.
  unfold entry, removeUsage.
  destruct (u !! nodeId) as [row|] eqn:Hrow.
  - destruct (decide (size (delete key row) = 0%nat)) as [Hsize|Hsize].
    + apply map_size_empty_iff in Hsize.
      destruct (decide (nodeId' = nodeId)) as [->|Hn].
      * rewrite lookup_delete_eq, Hrow. simpl.
        destruct (decide (key' = key)) as [->|Hk].
        -- now rewrite decide_True.
        -- rewrite decide_False by tauto.
           rewrite <- (lookup_delete_ne row key key') by congruence.
           now rewrite Hsize.
      * rewrite lookup_delete_ne by congruence. now rewrite decide_False by tauto.
    + destruct (decide (nodeId' = nodeId)) as [->|Hn].
      * rewrite lookup_insert_eq, Hrow. simpl.
        destruct (decide (key' = key)) as [->|Hk].
        -- rewrite decide_True by tauto. apply lookup_delete_eq.
        -- rewrite decide_False by tauto. apply lookup_delete_ne. congruence.
      * rewrite lookup_insert_ne by congruence. now rewrite decide_False by tauto.
  - destruct (decide (nodeId' = nodeId /\ key' = key)) as [[-> ->]|]; [|reflexivity].
    now rewrite Hrow.
Qed.

Lemma entry_cleanupNode nodeId (u : Usage) nodeId' key' :
  entry nodeId' key' (cleanupNode nodeId u) =
  if decide (nodeId' = nodeId) then None else entry nodeId' key' u.
Proof.
  unfold entry, cleanupNode.
  destruct (decide (nodeId' = nodeId)) as [->|Hn].
  - now rewrite lookup_delete_eq.
  - now rewrite lookup_delete_ne by congruence.
Qed.

Lemma total_recordUsage nodeId key bytes (u : Usage) :
  getCurrentUsage (recordUsage nodeId key bytes u) =
  getCurrentUsage u - getKeyUsage nodeId key u + bytes.
Proof.
  unfold recordUsage, getKeyUsage. rewrite total_insert, row_total_insert.
  destruct (u !! nodeId) as [row|]; simpl; [lia|].
  rewrite lookup_empty, row_total_empty. simpl. lia.
Qed.

Lemma total_removeUsage nodeId key (u : Usage) :
  getCurrentUsage (removeUsage nodeId key u) =
  getCurrentUsage u - getKeyUsage nodeId key u.
Proof.
  unfold removeUsage, getKeyUsage.
  destruct (u !! nodeId) as [row|] eqn:Hrow; [|lia].
  destruct (decide (size (delete key row) = 0%nat)) as [Hsize|Hsize].
  - apply map_size_empty_iff in Hsize.
    rewrite total_delete, Hrow. simpl.
    pose proof (row_total_delete row key) as Hd.
    rewrite Hsize, row_total_empty in Hd. lia.
  - rewrite total_insert, Hrow, row_total_delete. simpl. lia.
Qed.

End LedgerAccounting.

(** X1. What the ledger answers for any entry after [recordUsage],
    [updateUsage], [removeUsage] and [cleanupNode]: the entry written is
    read back, the entry removed reads as [0], a cleaned node reads as
    [0] at every key, and every other entry is as before. *)
Theorem ledger_lookup (nodeId key : string) (bytes oldBytes : Z)
        (u : GlobalQuotaManager.Usage) (nodeId' key' : string) :
  GlobalQuotaManager.getKeyUsage nodeId' key'
      (GlobalQuotaManager.recordUsage nodeId key bytes u) =
    (if decide (nodeId' = nodeId /\ key' = key) then bytes
     else GlobalQuotaManager.getKeyUsage nodeId' key' u) /\
  GlobalQuotaManager.getKeyUsage nodeId' key'
      (GlobalQuotaManager.updateUsage nodeId key oldBytes bytes u) =
    (if decide (nodeId' = nodeId /\ key' = key) then bytes
     else GlobalQuotaManager.getKeyUsage nodeId' key' u) /\
  GlobalQuotaManager.getKeyUsage nodeId' key'
      (GlobalQuotaManager.removeUsage nodeId key u) =
    (if decide (nodeId' = nodeId /\ key' = key) then 0
     else GlobalQuotaManager.getKeyUsage nodeId' key' u) /\
  GlobalQuotaManager.getKeyUsage nodeId' key'
      (GlobalQuotaManager.cleanupNode nodeId u) =
    (if decide (nodeId' = nodeId) then 0
     else GlobalQuotaManager.getKeyUsage nodeId' key' u).
Proof.
  unfold GlobalQuotaManager.updateUsage.
  rewrite !getKeyUsage_entry, entry_recordUsage, entry_removeUsage, entry_cleanupNode.
  repeat split; now destruct (decide _).
Qed.

(** X2. The total that [getCurrentUsage] reports follows every update
    of the ledger: recording an entry replaces what the key held before,
    removing an entry gives its bytes back, cleaning a node gives back the
    node's total, and a reset leaves nothing. *)
Theorem ledger_total (nodeId key : string) (bytes oldBytes : Z)
        (u : GlobalQuotaManager.Usage) :
  GlobalQuotaManager.getCurrentUsage (GlobalQuotaManager.recordUsage nodeId key bytes u) =
    GlobalQuotaManager.getCurrentUsage u
      - GlobalQuotaManager.getKeyUsage nodeId key u + bytes /\
  GlobalQuotaManager.getCurrentUsage
      (GlobalQuotaManager.updateUsage nodeId key oldBytes bytes u) =
    GlobalQuotaManager.getCurrentUsage u
      - GlobalQuotaManager.getKeyUsage nodeId key u + bytes /\
  GlobalQuotaManager.getCurrentUsage (GlobalQuotaManager.removeUsage nodeId key u) =
    GlobalQuotaManager.getCurrentUsage u - GlobalQuotaManager.getKeyUsage nodeId key u /\
  GlobalQuotaManager.getCurrentUsage (GlobalQuotaManager.cleanupNode nodeId u) =
    GlobalQuotaManager.getCurrentUsage u - GlobalQuotaManager.getNodeUsage nodeId u /\
  GlobalQuotaManager.getCurrentUsage (GlobalQuotaManager.reset u) = 0.
Proof.
  unfold GlobalQuotaManager.updateUsage.
  rewrite total_recordUsage, total_removeUsage, getNodeUsage_row.
  unfold GlobalQuotaManager.cleanupNode. rewrite total_delete.
  repeat split; reflexivity.
Qed.

(** X3. The total of one node, as [getNodeUsage] reports it, follows
    the updates of that node's entries and is untouched by the updates
    of other nodes; and [canStore] agrees with [getRemainingQuota]: a
    size can be stored exactly when it is no more than what remains. *)
Theorem ledger_node_total (nodeId key : string) (bytes : Z)
        (u : GlobalQuotaManager.Usage) (nodeId' : string) (sizeBytes : Z) :
  GlobalQuotaManager.getNodeUsage nodeId'
      (GlobalQuotaManager.recordUsage nodeId key bytes u) =
    (if decide (nodeId' = nodeId)
     then GlobalQuotaManager.getNodeUsage nodeId u
            - GlobalQuotaManager.getKeyUsage nodeId key u + bytes
     else GlobalQuotaManager.getNodeUsage nodeId' u) /\
  GlobalQuotaManager.getNodeUsage nodeId'
      (GlobalQuotaManager.removeUsage nodeId key u) =
    (if decide (nodeId' = nodeId)
     then GlobalQuotaManager.getNodeUsage nodeId u
            - GlobalQuotaManager.getKeyUsage nodeId key u
     else GlobalQuotaManager.getNodeUsage nodeId' u) /\
  GlobalQuotaManager.getNodeUsage nodeId'
      (GlobalQuotaManager.cleanupNode nodeId u) =
    (if decide (nodeId' = nodeId) then 0
     else GlobalQuotaManager.getNodeUsage nodeId' u) /\
  (GlobalQuotaManager.canStore sizeBytes u = true <->
   sizeBytes <= GlobalQuotaManager.getRemainingQuota u).
Proof.
  rewrite !getNodeUsage_row.
  unfold GlobalQuotaManager.recordUsage, GlobalQuotaManager.removeUsage,
    GlobalQuotaManager.cleanupNode, GlobalQuotaManager.getKeyUsage,
    GlobalQuotaManager.canStore, GlobalQuotaManager.getRemainingQuota.
  split; [|split; [|split]].
  - destruct (decide (nodeId' = nodeId)) as [->|Hne].
    + rewrite lookup_insert_eq. simpl. rewrite row_total_insert.
      destruct (u !! nodeId); simpl; [reflexivity|].
      now rewrite lookup_empty, row_total_empty.
    + now rewrite lookup_insert_ne by congruence.
  - destruct (u !! nodeId) as [row|] eqn:Hrow.
    + destruct (decide (size (delete key row) = 0%nat)) as [Hsize|Hsize].
      * apply map_size_empty_iff in Hsize.
        pose proof (row_total_delete row key) as Hd.
        rewrite Hsize, row_total_empty in Hd.
        destruct (decide (nodeId' = nodeId)) as [->|Hne].
        -- rewrite lookup_delete_eq. simpl. lia.
        -- now rewrite lookup_delete_ne by congruence.
      * destruct (decide (nodeId' = nodeId)) as [->|Hne].
        -- rewrite lookup_insert_eq. simpl. apply row_total_delete.
        -- now rewrite lookup_insert_ne by congruence.
    + destruct (decide (nodeId' = nodeId)) as [->|Hne]; [|reflexivity].
      rewrite Hrow. simpl. lia.
  - destruct (decide (nodeId' = nodeId)) as [->|Hne].
    + now rewrite lookup_delete_eq.
    + now rewrite lookup_delete_ne by congruence.
  - rewrite Z.leb_le. lia.
Qed.

(** X4. No update leaves an empty row in the ledger: a ledger without
    empty rows stays so under [recordUsage], [updateUsage],
    [removeUsage] and [cleanupNode], and [reset] gives one. *)
Theorem ledger_rows_nonempty (nodeId key : string) (bytes oldBytes : Z)
        (u : GlobalQuotaManager.Usage) :
  ledger_wf u ->
  ledger_wf (GlobalQuotaManager.recordUsage nodeId key bytes u) /\
  ledger_wf (GlobalQuotaManager.updateUsage nodeId key oldBytes bytes u) /\
  ledger_wf (GlobalQuotaManager.removeUsage nodeId key u) /\
  ledger_wf (GlobalQuotaManager.cleanupNode nodeId u) /\
  ledger_wf (GlobalQuotaManager.reset u).
Proof.
  intros Hwf. split; [|split; [|split; [|split]]].
  - now apply ledger_wf_recordUsage.
  - now apply ledger_wf_recordUsage.
  - now apply ledger_wf_removeUsage.
  - intros n row Hrow. unfold GlobalQuotaManager.cleanupNode in Hrow.
    apply lookup_delete_Some in Hrow as [_ Hrow]. exact (Hwf n row Hrow).
  - apply ledger_wf_empty.
Qed.

(** ** The key space *)

Section KeySpace.
Import ChunkManager PluginData.

Lemma separator_split (u : ascii) : forall a b x y : list ascii,
  u ∉ x -> u ∉ y -> (a ++ u :: x = b ++ u :: y)%list -> a = b /\ x = y.
Proof.
  induction a as [|c a IH]; intros [|c' b] x y Hx Hy E; simpl in E.
  - injection E as E. now split.
  - injection E as <- E. exfalso. apply Hx. rewrite E. apply elem_of_app. right. now left.
  - injection E as -> E. exfalso. apply Hy. rewrite <- E. apply elem_of_app. right. now left.
  - injection E as <- E. destruct (IH b x y Hx Hy E) as [-> ->]. now split.
Qed.

Lemma digits_no_separator d : "_"%char ∉ chars (NilEmpty.string_of_uint d).
Proof.
  induction d; simpl; rewrite ?elem_of_cons; try (intros [E|E]; [discriminate|auto]).
  apply not_elem_of_nil.
Qed.

Lemma chunkKey_chars key index :
  chars (calculateChunkKey key index) =
  (chars "__fpdu_chunk_" ++ chars key ++ "_"%char :: chars (Number_toString index))%list.
Proof. unfold calculateChunkKey. now rewrite !chars_append. Qed.

Lemma chunkKey_inj2 key key' i j :
  calculateChunkKey key i = calculateChunkKey key' j -> key = key' /\ i = j.
Proof.
  intros E. apply (f_equal chars) in E. rewrite !chunkKey_chars in E.
  apply app_inv_head in E.
  apply separator_split in E; try apply digits_no_separator.
  destruct E as [E1 E2]. apply chars_inj in E1, E2.
  split; [assumption|now apply Number_toString_inj].
Qed.

Lemma reserved_prefix p key :
  String.prefix "__fpdu_" ("__fpdu_" +:+ p +:+ key) = true.
Proof.
  apply prefix_correct. apply chars_inj.
  rewrite chars_substring, chars_append. reflexivity.
Qed.

Lemma metaKey_reserved key : invalid_key (metaKey key) = true.
Proof.
  unfold invalid_key. rewrite (reserved_prefix "meta_" key : String.prefix _ (metaKey key) = true).
  apply orb_true_r.
Qed.

Lemma chunkKey_reserved key index : invalid_key (calculateChunkKey key index) = true.
Proof.
  unfold invalid_key.
  rewrite (reserved_prefix "chunk_" (key +:+ "_" +:+ Number_toString index)
           : String.prefix _ (calculateChunkKey key index) = true).
  apply orb_true_r.
Qed.

Lemma metaKey_inj key key' : metaKey key = metaKey key' -> key = key'.
Proof. apply append_inv_l. Qed.

Lemma metaKey_chunkKey key key' index : metaKey key <> calculateChunkKey key' index.
Proof. unfold metaKey, calculateChunkKey. simpl. discriminate. Qed.

Lemma physical_disjoint key key' k :
  invalid_key key = false -> invalid_key key' = false ->
  physical key k -> physical key' k -> key = key'.
Proof.
  intros Hkey Hkey' [->|[->|[i ->]]] [E|[E|[j E]]]; try assumption.
  - rewrite E, metaKey_reserved in Hkey. discriminate.
  - rewrite E, chunkKey_reserved in Hkey. discriminate.
  - rewrite <- E, metaKey_reserved in Hkey'. discriminate.
  - now apply metaKey_inj.
  - now apply metaKey_chunkKey in E.
  - rewrite <- E, chunkKey_reserved in Hkey'. discriminate.
  - symmetry in E. now apply metaKey_chunkKey in E.
  - now apply chunkKey_inj2 in E.
Qed.

End KeySpace.

(** X5. [calculateChunkKey] names a chunk unambiguously: two chunk keys
    are equal only for the same base key and the same index, whatever
    underscores and digits the base keys hold. *)
Theorem chunk_key_unambiguous (baseKey baseKey' : string) (index index' : nat) :
  ChunkManager.calculateChunkKey baseKey index =
  ChunkManager.calculateChunkKey baseKey' index' <->
  baseKey = baseKey' /\ index = index'.
Proof.
  split; [apply chunkKey_inj2|]. now intros [-> ->].
Qed.

(** X6. The records of two different keys that the write path accepts
    never coincide: the bare record, the metadata record and the chunk
    records of one key are all different from those of the other. *)
Theorem records_of_distinct_keys (key key' k : string) :
  PluginData.invalid_key key = false ->
  PluginData.invalid_key key' = false ->
  key <> key' ->
  physical key k -> ~ physical key' k.
Proof.
  intros Hkey Hkey' Hne Hk Hk'. apply Hne. now apply (physical_disjoint key key' k).
Qed.

(** ** What an operation on one key leaves alone *)

Section Confinement.
Context `{Platform}.
Import PluginData.

Variable P : string -> Prop.

Lemma touches_refl key w : touches P key w w.
Proof. repeat split. Qed.

Lemma touches_trans key w1 w2 w3 :
  touches P key w1 w2 -> touches P key w2 w3 -> touches P key w1 w3.
Proof.
  intros (Hid1 & Hs1 & Hu1) (Hid2 & Hs2 & Hu2). split; [congruence|]. split.
  - intros k Hk. now rewrite Hs2, Hs1.
  - intros n k Hk. rewrite Hu2, Hu1; [reflexivity|assumption|].
    now rewrite Hid1.
Qed.

Lemma confined_ret {A} key (a : A) : confined P key (ret a).
Proof. intros w r w' [= _ <-]. apply touches_refl. Qed.

Lemma confined_throw {A} key e : confined P key (@throw A e).
Proof. intros w r w' [= _ <-]. apply touches_refl. Qed.

Lemma confined_bind {A B} key (m : M A) (f : A -> M B) :
  confined P key m -> (forall a, confined P key (f a)) -> confined P key (bind m f).
Proof.
  intros Hm Hf w r w'. unfold bind.
  destruct (m w) as [[a|e] w1] eqn:E; intros E'.
  - eapply touches_trans; [exact (Hm _ _ _ E)|exact (Hf _ _ _ _ E')].
  - injection E' as _ <-. exact (Hm _ _ _ E).
Qed.

Lemma confined_try_catch {A} key (m : M A) (h : Error -> M A) :
  confined P key m -> (forall e, confined P key (h e)) -> confined P key (try_catch m h).
Proof.
  intros Hm Hh w r w'. unfold try_catch.
  destruct (m w) as [[a|e] w1] eqn:E; intros E'.
  - injection E' as _ <-. exact (Hm _ _ _ E).
  - eapply touches_trans; [exact (Hm _ _ _ E)|exact (Hh _ _ _ _ E')].
Qed.

Lemma confined_check key r : confined P key (check r).
Proof. destruct r; [apply confined_throw|apply confined_ret]. Qed.

Lemma confined_lift {A} key (r : Error + A) : confined P key (lift r).
Proof. destruct r; [apply confined_throw|apply confined_ret]. Qed.

Lemma confined_node_get key k : confined P key (node_get k).
Proof. intros w r w' [= _ <-]. apply touches_refl. Qed.

Lemma confined_node_id key : confined P key node_id.
Proof. intros w r w' [= _ <-]. apply touches_refl. Qed.

Lemma confined_quota_read {A} key (f : GlobalQuotaManager.Usage -> A) :
  confined P key (quota_read f).
Proof. intros w r w' [= _ <-]. apply touches_refl. Qed.

Lemma MockNode_set_storage key value n k :
  k <> key ->
  MockNode.storage (fst (MockNode.setPluginData key value n)) !! k =
  MockNode.storage n !! k.
Proof.
  intros Hk. unfold MockNode.setPluginData.
  destruct (_ >? _); [reflexivity|].
  destruct (String.eqb value "");
    (destruct (_ >? _); simpl;
     [try (now rewrite lookup_delete_ne by congruence);
      now rewrite lookup_insert_ne by congruence..]).
Qed.

Lemma confined_node_set key k value : P k -> confined P key (node_set k value).
Proof.
  intros Hk w r w' E.
  assert (Hw : w' = snd (node_set k value w)) by now rewrite E.
  subst w'. split; [|split].
  - rewrite node_set_node. apply MockNode_set_id.
  - intros k' Hk'. rewrite node_set_node. apply MockNode_set_storage.
    intros ->. auto.
  - intros n k' _. now rewrite node_set_usage.
Qed.

Lemma confined_recordUsage key total : confined P key (recordUsage key total).
Proof.
  intros w r w' [= _ <-]. split; [reflexivity|]. split; [reflexivity|].
  intros n k Hk. simpl. rewrite entry_recordUsage.
  rewrite decide_False; [reflexivity|]. intros [-> ->]. destruct Hk; congruence.
Qed.

Lemma confined_removeUsage key : confined P key (removeUsage key).
Proof.
  intros w r w' [= _ <-]. split; [reflexivity|]. split; [reflexivity|].
  intros n k Hk. simpl. rewrite entry_removeUsage.
  rewrite decide_False; [reflexivity|]. intros [-> ->]. destruct Hk; congruence.
Qed.

Lemma confined_getKeyUsage key k : confined P key (getKeyUsage k).
Proof. intros w r w' [= _ <-]. apply touches_refl. Qed.

Lemma confined_new_Promise key (m : M unit) :
  confined P key m -> confined P key (new_Promise m).
Proof.
  intros Hm w r w'. unfold new_Promise.
  destruct (m w) as [[a|e] w1] eqn:E; intros [= _ <-]; exact (Hm _ _ _ E).
Qed.

Lemma confined_async_call key (m : M Settled) :
  confined P key m -> confined P key (async_call m).
Proof.
  intros Hm w r w'. unfold async_call.
  destruct (m w) as [[[|e t]|e] w1] eqn:E; intros [= _ <-]; exact (Hm _ _ _ E).
Qed.

Lemma confined_Promise_all key ps : confined P key (Promise_all ps).
Proof.
  unfold Promise_all. destruct (first_rejection ps) as [[e t]|];
    [apply confined_throw|apply confined_ret].
Qed.

Lemma confined_weaken {A} (Q : string -> Prop) key (m : M A) :
  (forall k, P k -> Q k) -> confined P key m -> confined Q key m.
Proof.
  intros HPQ Hm w r w' E. destruct (Hm w r w' E) as (Hid & Hstorage & Husage).
  split; [exact Hid|]. split; [|exact Husage].
  intros k Hk. apply Hstorage. auto.
Qed.

Lemma derived_meta key : derived key (metaKey key).
Proof. now left. Qed.

Lemma derived_chunk key index : derived key (ChunkManager.calculateChunkKey key index).
Proof. right. now exists index. Qed.

Lemma physical_bare key : physical key key.
Proof. now left. Qed.

Lemma physical_derived key k : derived key k -> physical key k.
Proof. now right. Qed.

Lemma physical_meta key : physical key (metaKey key).
Proof. apply physical_derived, derived_meta. Qed.

Lemma physical_chunk key index : physical key (ChunkManager.calculateChunkKey key index).
Proof. apply physical_derived, derived_chunk. Qed.

End Confinement.

Create HintDb confined.

#[local] Hint Resolve confined_ret confined_throw confined_check confined_lift
  confined_node_get confined_node_id confined_quota_read confined_recordUsage
  confined_removeUsage confined_getKeyUsage confined_Promise_all
  derived_meta derived_chunk physical_bare physical_meta physical_chunk : confined.

Ltac confine :=
  repeat first
    [ progress eauto with confined
    | apply confined_bind; [|intros ?]
    | apply confined_try_catch; [|intros ?]
    | apply confined_node_set
    | apply confined_new_Promise
    | apply confined_async_call
    | match goal with
      | |- confined _ _ (if ?b then _ else _) => destruct b
      | |- confined _ _ (match ?x with _ => _ end) => destruct x
      end ].

Section ConfinedOperations.
Context `{Platform}.
Import PluginData.

Lemma confined_compress key data : confined (physical key) key (Compressor.compress data).
Proof. unfold Compressor.compress. confine. Qed.
#[local] Hint Resolve confined_compress : confined.

Lemma confined_compressAsync key data : confined (physical key) key (Compressor.compressAsync data).
Proof. unfold Compressor.compressAsync. confine. Qed.
#[local] Hint Resolve confined_compressAsync : confined.

Lemma confined_reserve key compressed : confined (physical key) key (reserve key compressed).
Proof. unfold reserve. confine. Qed.
#[local] Hint Resolve confined_reserve : confined.

Lemma confined_storeSingle key compressed data :
  confined (physical key) key (storeSingle key compressed data).
Proof. unfold storeSingle. confine. Qed.
#[local] Hint Resolve confined_storeSingle : confined.

Lemma confined_store_chunks key chunks : forall index total,
  confined (physical key) key (store_chunks key chunks index total).
Proof. induction chunks as [|c chunks IH]; intros index total; simpl; confine. Qed.
#[local] Hint Resolve confined_store_chunks : confined.

Lemma confined_store_chunked_metadata key chunks data total :
  confined (physical key) key (store_chunked_metadata key chunks data total).
Proof. unfold store_chunked_metadata. confine. Qed.
#[local] Hint Resolve confined_store_chunked_metadata : confined.

Lemma confined_storeChunked key compressed data :
  confined (physical key) key (storeChunked key compressed data).
Proof.
  unfold storeChunked. confine.
Qed.
#[local] Hint Resolve confined_storeChunked : confined.

Lemma confined_write_handler key e : confined (physical key) key (write_handler e).
Proof. unfold write_handler. destruct e; confine. Qed.
#[local] Hint Resolve confined_write_handler : confined.

Lemma confined_setPluginData key value : confined (physical key) key (setPluginData key value).
Proof.
  unfold setPluginData, write_path. confine.
Qed.
#[local] Hint Resolve confined_setPluginData : confined.

Lemma confined_storeSingleAsync key compressed data :
  confined (physical key) key (storeSingleAsync key compressed data).
Proof. unfold storeSingleAsync. confine. Qed.
#[local] Hint Resolve confined_storeSingleAsync : confined.

Lemma confined_store_chunks_async key chunks : forall index,
  confined (physical key) key (store_chunks_async key chunks index).
Proof. induction chunks as [|c chunks IH]; intros index; simpl; confine. Qed.
#[local] Hint Resolve confined_store_chunks_async : confined.

Lemma confined_storeChunkedAsync key compressed data :
  confined (physical key) key (storeChunkedAsync key compressed data).
Proof.
  unfold storeChunkedAsync. confine.
Qed.
#[local] Hint Resolve confined_storeChunkedAsync : confined.

Lemma confined_setPluginDataAsync key value :
  confined (physical key) key (setPluginDataAsync key value).
Proof.
  unfold setPluginDataAsync, write_path_async. confine.
Qed.
#[local] Hint Resolve confined_setPluginDataAsync : confined.

Lemma confined_parse key text : confined (physical key) key (parse text).
Proof. unfold parse. confine. Qed.
#[local] Hint Resolve confined_parse : confined.

Lemma confined_erase_chunks key n : forall i, confined (physical key) key (erase_chunks key n i).
Proof. induction n as [|n IH]; intros i; simpl; confine. Qed.
#[local] Hint Resolve confined_erase_chunks : confined.

Lemma confined_erase_managed key metadataStr :
  confined (physical key) key (erase_managed key metadataStr).
Proof.
  unfold erase_managed. confine.
Qed.
#[local] Hint Resolve confined_erase_managed : confined.

Lemma confined_deletePluginData key : confined (physical key) key (deletePluginData key).
Proof. unfold deletePluginData. confine. Qed.
#[local] Hint Resolve confined_deletePluginData : confined.

Lemma confined_erase_chunks_async key n : forall i,
  confined (physical key) key (erase_chunks_async key n i).
Proof. induction n as [|n IH]; intros i; simpl; confine. Qed.
#[local] Hint Resolve confined_erase_chunks_async : confined.

Lemma confined_erase_managed_async key metadataStr :
  confined (physical key) key (erase_managed_async key metadataStr).
Proof.
  unfold erase_managed_async. confine.
Qed.
#[local] Hint Resolve confined_erase_managed_async : confined.

Lemma confined_deletePluginDataAsync key : confined (physical key) key (deletePluginDataAsync key).
Proof. unfold deletePluginDataAsync. confine. Qed.
#[local] Hint Resolve confined_deletePluginDataAsync : confined.

End ConfinedOperations.

Section Frames.
Context `{Platform}.
Import PluginData.

Lemma getPluginData_unmanaged key w :
  MockNode.getPluginData (metaKey key) (node w) = "" ->
  getPluginData key w = (Ok (JStr (MockNode.getPluginData key (node w))), w).
Proof.
  intros E. unfold getPluginData, bind. rewrite node_get_eq, E. reflexivity.
Qed.

(** The read path looks at nothing but the records of its key. *)
Lemma getPluginData_depends key w1 w2 :
  (forall k, physical key k ->
     MockNode.getPluginData k (node w1) = MockNode.getPluginData k (node w2)) ->
  fst (getPluginData key w1) = fst (getPluginData key w2).
Proof.
  intros Hsame.
  pose proof (Hsame _ (physical_meta key)) as Hmeta.
  pose proof (Hsame _ (physical_bare key)) as Hbare.
  destruct (String.eqb_spec (MockNode.getPluginData (metaKey key) (node w1)) "")
    as [E|E].
  - rewrite (getPluginData_unmanaged key w1 E).
    rewrite Hmeta in E. rewrite (getPluginData_unmanaged key w2 E).
    simpl. now rewrite Hbare.
  - rewrite (getPluginData_managed key w1 E).
    rewrite Hmeta in E. rewrite (getPluginData_managed key w2 E).
    simpl. rewrite Hmeta, Hbare.
    assert (Hrecords : forall n, chunk_records key n w1 = chunk_records key n w2).
    { intros n. unfold chunk_records. apply map_ext. intros i.
      apply Hsame, physical_chunk. }
    destruct (JSON_parse _) as [[| | | | |fields|]|]; try reflexivity.
    now rewrite Hrecords.
Qed.

Lemma touches_read key key' w w' :
  invalid_key key = false -> invalid_key key' = false -> key <> key' ->
  touches (physical key') key' w w' ->
  fst (getPluginData key w') = fst (getPluginData key w) /\
  GlobalQuotaManager.getKeyUsage (MockNode.id (node w')) key (usage w') =
  GlobalQuotaManager.getKeyUsage (MockNode.id (node w)) key (usage w).
Proof.
  intros Hkey Hkey' Hne (Hid & Hstorage & Husage). split.
  - apply getPluginData_depends. intros k Hk. unfold MockNode.getPluginData.
    rewrite Hstorage; [reflexivity|].
    intros Hk'. apply Hne. exact (physical_disjoint key key' k Hkey Hkey' Hk Hk').
  - rewrite Hid, !getKeyUsage_entry, Husage; [reflexivity|]. now right.
Qed.

End Frames.

(** X7. Storing under one key leaves every other key as it was: however
    [setPluginData(key', value)] or [setPluginDataAsync(key', value)]
    ends, and also when it fails midway, a key of the caller's that is
    different from [key'] reads as before and keeps its ledger entry. *)
Theorem store_leaves_other_keys `{Platform} (key key' : string) (value : Json)
        (w w' : World) (r : outcome unit) :
  PluginData.invalid_key key = false ->
  key <> key' ->
  PluginData.setPluginData key' value w = (r, w') \/
  PluginData.setPluginDataAsync key' value w = (r, w') ->
  fst (PluginData.getPluginData key w') = fst (PluginData.getPluginData key w) /\
  GlobalQuotaManager.getKeyUsage (MockNode.id (node w')) key (usage w') =
  GlobalQuotaManager.getKeyUsage (MockNode.id (node w)) key (usage w).
Proof.
  intros Hkey Hne E.
  destruct (PluginData.invalid_key key') eqn:Hkey'.
  - unfold PluginData.setPluginData, PluginData.setPluginDataAsync in E.
    rewrite Hkey' in E. destruct E as [E|E]; injection E as _ <-; now split.
  - apply (touches_read key key'); try assumption.
    destruct E as [E|E].
    + exact (confined_setPluginData key' value w r w' E).
    + exact (confined_setPluginDataAsync key' value w r w' E).
Qed.

(** X8. Deleting one key leaves every other key as it was, in both
    forms of the deletion, when neither key lies in the reserved
    namespace. *)
Theorem delete_leaves_other_keys `{Platform} (key key' : string)
        (w w' : World) (r : outcome unit) :
  PluginData.invalid_key key = false ->
  PluginData.invalid_key key' = false ->
  key <> key' ->
  PluginData.deletePluginData key' w = (r, w') \/
  PluginData.deletePluginDataAsync key' w = (r, w') ->
  fst (PluginData.getPluginData key w') = fst (PluginData.getPluginData key w) /\
  GlobalQuotaManager.getKeyUsage (MockNode.id (node w')) key (usage w') =
  GlobalQuotaManager.getKeyUsage (MockNode.id (node w)) key (usage w).
Proof.
  intros Hkey Hkey' Hne E.
  apply (touches_read key key'); try assumption.
  destruct E as [E|E].
  - exact (confined_deletePluginData key' w r w' E).
  - exact (confined_deletePluginDataAsync key' w r w' E).
Qed.

(** ** Decimal indices and entry sizes *)

Section EntrySizes.
Import ChunkManager.

Lemma string_of_uint_length d :
  String.length (NilEmpty.string_of_uint d) = Decimal.nb_digits d.
Proof. induction d; simpl; congruence. Qed.

Lemma succ_nb_digits d :
  (Decimal.nb_digits d <= Decimal.nb_digits (Decimal.Little.succ d))%nat.
Proof. induction d; simpl; lia. Qed.

Lemma to_little_uint_succ n : forall acc,
  Nat.to_little_uint n (Decimal.Little.succ acc) =
  Decimal.Little.succ (Nat.to_little_uint n acc).
Proof. induction n as [|n IH]; intros acc; simpl; [reflexivity|apply IH]. Qed.

Lemma Number_toString_length_S n :
  (String.length (Number_toString n) <= String.length (Number_toString (S n)))%nat.
Proof.
  unfold Number_toString, Nat.to_uint.
  rewrite !string_of_uint_length, !DecimalFacts.nb_digits_rev.
  change (Nat.to_little_uint (S n) (Decimal.D0 Decimal.Nil))
    with (Nat.to_little_uint n (Decimal.Little.succ (Decimal.D0 Decimal.Nil))).
  rewrite to_little_uint_succ. apply succ_nb_digits.
Qed.

Lemma Number_toString_length_mono i j :
  (i <= j)%nat ->
  (String.length (Number_toString i) <= String.length (Number_toString j))%nat.
Proof.
  induction 1 as [|j _ IH]; [lia|].
  etransitivity; [exact IH|apply Number_toString_length_S].
Qed.

Lemma chunkKey_len key index :
  len (calculateChunkKey key index) = 14 + len key + len (Number_toString index).
Proof.
  unfold calculateChunkKey. rewrite !len_append.
  change (len "__fpdu_chunk_") with 13. change (len "_") with 1. lia.
Qed.

Lemma chunkKey_len_mono key i j :
  (i <= j)%nat -> len (calculateChunkKey key i) <= len (calculateChunkKey key j).
Proof.
  intros Hij. rewrite !chunkKey_len. unfold len.
  apply Number_toString_length_mono in Hij. lia.
Qed.

Lemma getSafeChunkSize_eq key : getSafeChunkSize key = 100 * 1024 - 17 - len key.
Proof.
  unfold getSafeChunkSize, MAX_ENTRY_SIZE. rewrite chunkKey_len.
  change (len (Number_toString 999)) with 3. lia.
Qed.

Lemma chunk_loop_length size (size_pos : (0 < size)%nat) fuel : forall data i,
  (String.length data - i <= fuel)%nat ->
  List.length (chunk_loop size fuel data i) =
  ((String.length data - i + (size - 1)) / size)%nat.
Proof.
  induction fuel as [|fuel IH]; intros data i Hfuel; simpl.
  - replace (String.length data - i)%nat with 0%nat by lia.
    symmetry. apply Nat.div_small. lia.
  - destruct (Nat.ltb_spec i (String.length data)) as [Hlt|Hge]; simpl.
    + rewrite IH by lia.
      destruct (Nat.le_gt_cases size (String.length data - i)) as [Hbig|Hsmall].
      * replace (String.length data - i + (size - 1))%nat
          with (String.length data - (i + size) + (size - 1) + 1 * size)%nat by lia.
        rewrite Nat.div_add by lia. lia.
      * replace (String.length data - (i + size))%nat with 0%nat by lia.
        replace (String.length data - i + (size - 1))%nat
          with (String.length data - i - 1 + 1 * size)%nat by lia.
        rewrite Nat.div_add by lia.
        rewrite !Nat.div_small by lia. reflexivity.
    + replace (String.length data - i)%nat with 0%nat by lia.
      symmetry. apply Nat.div_small. lia.
Qed.

End EntrySizes.

(** X9. The number of pieces that [chunk] cuts is the payload length
    divided by [CHUNK_SIZE], rounded up, and no piece is empty. *)
Theorem chunk_count (payload : string) :
  let pieces := ChunkManager.chunks (ChunkManager.chunk payload) in
  List.length pieces =
    ((String.length payload + (ChunkManager.CHUNK_SIZE - 1))
       / ChunkManager.CHUNK_SIZE)%nat /\
  Forall (fun c => c <> "") pieces.
Proof.
  split; [|apply chunk_pieces_nonempty].
  unfold ChunkManager.chunk. cbn [ChunkManager.chunks].
  rewrite (chunk_loop_length _ CHUNK_SIZE_pos) by lia.
  now rewrite Nat.sub_0_r.
Qed.

(** X10. [getSafeChunkSize] leaves room for the longest chunk key of up
    to a thousand chunks: it is the entry limit less the key and 17 code
    units, a payload within it passes [validateEntrySize] under the bare
    key, and it passes [validateChunkEntry] under every chunk key with an
    index below 1000. *)
Theorem safe_chunk_size (key payload : string) (index : nat) :
  len payload <= ChunkManager.getSafeChunkSize key ->
  (index < 1000)%nat ->
  ChunkManager.getSafeChunkSize key = 100 * 1024 - 17 - len key /\
  GlobalQuotaManager.validateEntrySize key payload = None /\
  ChunkManager.validateChunkEntry (ChunkManager.calculateChunkKey key index) payload
    = None.
Proof.
  intros Hfit Hindex. rewrite getSafeChunkSize_eq in *.
  split; [reflexivity|]. split.
  - unfold GlobalQuotaManager.validateEntrySize, GlobalQuotaManager.MAX_ENTRY_SIZE.
    destruct (Z.gtb_spec (len key + len payload) (100 * 1024)); [lia|reflexivity].
  - unfold ChunkManager.validateChunkEntry, ChunkManager.MAX_ENTRY_SIZE.
    pose proof (chunkKey_len_mono key index 999 ltac:(lia)) as Hmono.
    rewrite (chunkKey_len key 999) in Hmono.
    change (len (Number_toString 999)) with 3 in Hmono.
    destruct (Z.gtb_spec (len (ChunkManager.calculateChunkKey key index) + len payload)
                (100 * 1024)); [lia|reflexivity].
Qed.

(** X11. In a chunked store every chunk passes [validateChunkEntry] as
    long as the key leaves [getSafeChunkSize] at [CHUNK_SIZE] or more
    (a key of at most 15343 code units) and there are fewer than a
    thousand chunks. *)
Theorem chunk_entries_fit (key compressed chunk : string) (index : nat) :
  Z.of_nat ChunkManager.CHUNK_SIZE <= ChunkManager.getSafeChunkSize key ->
  (index < 1000)%nat ->
  ChunkManager.chunks (ChunkManager.chunk compressed) !! index = Some chunk ->
  ChunkManager.validateChunkEntry (ChunkManager.calculateChunkKey key index) chunk
    = None.
Proof.
  intros Hkey Hindex Hchunk. rewrite getSafeChunkSize_eq in Hkey.
  pose proof (chunk_loop_bounds _ CHUNK_SIZE_pos (String.length compressed) compressed 0)
    as Hbounds.
  rewrite Forall_lookup in Hbounds. apply Hbounds in Hchunk as [_ Hlen].
  unfold ChunkManager.validateChunkEntry, ChunkManager.MAX_ENTRY_SIZE.
  pose proof (chunkKey_len_mono key index 999 ltac:(lia)) as Hmono.
  rewrite (chunkKey_len key 999) in Hmono.
  change (len (Number_toString 999)) with 3 in Hmono.
  destruct (Z.gtb_spec (len (ChunkManager.calculateChunkKey key index) + len chunk)
              (100 * 1024)); [|reflexivity].
  unfold len in *. lia.
Qed.

(** X12. What a refusal of the backing store means.  A write that the
    node refuses was either too large for an entry, and then both
    validators reject it too and the node is as before; or it ran over
    the node's usage limit, and then the record is written all the
    same. *)
Theorem node_refusal (key value : string) (n n' : MockNode.t) (e : Error) :
  MockNode.setPluginData key value n = (n', Some e) ->
  (GlobalQuotaManager.validateEntrySize key value =
     Some (EntryTooLargeError (len key + len value) (100 * 1024)) /\
   ChunkManager.validateChunkEntry key value =
     Some (EntryTooLargeError (len key + len value) (100 * 1024)) /\
   n' = n) \/
  (GlobalQuotaManager.validateEntrySize key value = None /\
   ChunkManager.validateChunkEntry key value = None /\
   e = JsError "Mock node quota exceeded" /\
   1024 * 1024 < MockNode.nodeUsage n' /\
   MockNode.getPluginData key n' = value).
Proof.
  unfold MockNode.setPluginData, GlobalQuotaManager.validateEntrySize,
    ChunkManager.validateChunkEntry, GlobalQuotaManager.MAX_ENTRY_SIZE,
    ChunkManager.MAX_ENTRY_SIZE.
  destruct (len key + len value >? 100 * 1024).
  - intros [= <- _]. now left.
  - cbv zeta. intros E. right. split; [reflexivity|]. split; [reflexivity|].
    destruct (String.eqb value "") eqn:Hvalue;
      match type of E with
      | (if ?c then _ else _) = _ => destruct c eqn:Hc
      end; try discriminate; injection E as <- <-;
      apply Z.gtb_lt in Hc; (split; [reflexivity|]); (split; [lia|]);
      unfold MockNode.getPluginData; cbn [MockNode.storage].
    + apply String.eqb_eq in Hvalue as ->. now rewrite lookup_delete_eq.
    + now rewrite lookup_insert_eq.
Qed.

(** ** The checksum in closed form *)

Section Checksum.
Import IntegrityValidator.

Lemma ToInt32_shift z k : ToInt32 (z + 2 ^ 32 * k) = ToInt32 z.
Proof.
  rewrite !ToInt32_mod.
  replace (z + 2 ^ 32 * k + 2 ^ 31) with (z + 2 ^ 31 + k * 2 ^ 32) by lia.
  now rewrite Z_mod_plus_full.
Qed.

Lemma ToInt32_wraps z : exists k, ToInt32 z = z + 2 ^ 32 * k.
Proof.
  rewrite ToInt32_mod. exists (- ((z + 2 ^ 31) / 2 ^ 32)).
  pose proof (Z.div_mod (z + 2 ^ 31) (2 ^ 32) ltac:(lia)). lia.
Qed.

Lemma hash_step_eq hash c : hash_step hash c = ToInt32 (31 * hash + charCodeAt c).
Proof.
  unfold hash_step. cbv zeta. rewrite Z.land_diag, Z.shiftl_mul_pow2 by lia.
  destruct (ToInt32_wraps hash) as [k Hk].
  destruct (ToInt32_wraps (ToInt32 hash * 2 ^ 5)) as [k' Hk'].
  rewrite Hk', Hk.
  replace ((hash + 2 ^ 32 * k) * 2 ^ 5 + 2 ^ 32 * k' - hash + charCodeAt c)
    with (31 * hash + charCodeAt c + 2 ^ 32 * (32 * k + k')) by lia.
  apply ToInt32_shift.
Qed.

Lemma horner_shift data : forall hash k,
  exists k', horner data (hash + 2 ^ 32 * k) = horner data hash + 2 ^ 32 * k'.
Proof.
  induction data as [|c rest IH]; intros hash k; simpl.
  - now exists k.
  - replace (31 * (hash + 2 ^ 32 * k) + charCodeAt c)
      with (31 * hash + charCodeAt c + 2 ^ 32 * (31 * k)) by lia.
    apply IH.
Qed.

Lemma hash_loop_horner data : forall hash,
  hash_loop data (ToInt32 hash) = ToInt32 (horner data hash).
Proof.
  induction data as [|c rest IH]; intros hash; simpl; [reflexivity|].
  rewrite hash_step_eq, IH.
  destruct (ToInt32_wraps hash) as [k ->].
  replace (31 * (hash + 2 ^ 32 * k) + charCodeAt c)
    with (31 * hash + charCodeAt c + 2 ^ 32 * (31 * k)) by lia.
  destruct (horner_shift rest (31 * hash + charCodeAt c) (31 * k)) as [k' ->].
  apply ToInt32_shift.
Qed.

End Checksum.

(** X13. The checksum loop wraps once.  Although the running hash is cut
    to 32 bits at every character, the result is the 32-bit cut of the
    exact polynomial in 31 over the code units; hence the checksum is the
    base-36 text of a number between 0 and 2^31. *)
Theorem checksum_closed_form (data : string) :
  IntegrityValidator.hash_loop data 0 = IntegrityValidator.ToInt32 (horner data 0) /\
  IntegrityValidator.calculateChecksum data =
    IntegrityValidator.toString36
      (Z.abs (IntegrityValidator.ToInt32 (horner data 0))) /\
  0 <= Z.abs (IntegrityValidator.hash_loop data 0) <= 2 ^ 31.
Proof.
  assert (E : IntegrityValidator.hash_loop data 0 =
              IntegrityValidator.ToInt32 (horner data 0)).
  { change 0 with (IntegrityValidator.ToInt32 0) at 1. apply hash_loop_horner. }
  split; [exact E|]. split.
  - unfold IntegrityValidator.calculateChecksum. now rewrite E.
  - rewrite E. pose proof (ToInt32_range (horner data 0)). lia.
Qed.

(** ** The two forms of the read path *)

(** X14. [getPluginDataAsync] gives what [getPluginData] gives, value
    or error, when the callback form of gunzip yields what the direct
    form yields on the compressed text that the read assembles. *)
Theorem read_sync_async `{Platform} (key : string) (w : World) :
  (forall compressed, gunzip_text compressed = gunzipSync_text compressed) ->
  PluginData.getPluginDataAsync key w = PluginData.getPluginData key w.
Proof.
  intros Hgunzip.
  assert (Hdecompress : forall c, Compressor.decompressAsync c = Compressor.decompress c).
  { intros c. unfold Compressor.decompressAsync, Compressor.decompress.
    now rewrite Hgunzip. }
  unfold PluginData.getPluginDataAsync, PluginData.getPluginData,
    PluginData.retrieveChunkedAsync, PluginData.retrieveChunked.
  unfold bind, try_catch.
  destruct (node_get (PluginData.metaKey key) w) as [[metadataStr|e] w1]; [|reflexivity].
  destruct (String.eqb metadataStr ""); [reflexivity|].
  destruct (PluginData.parse metadataStr w1) as [[metadata|e] w2]; [|reflexivity].
  destruct (lift (js_get metadata "chunked") w2) as [[chunked|e] w3]; [|reflexivity].
  destruct (truthy chunked).
  - destruct (lift (js_get metadata "totalChunks") w3) as [[total|e] w4]; [|reflexivity].
    destruct (PluginData.read_chunks key (loop_bound total) 0 w4) as [[chunks|e] w5];
      [|reflexivity].
    now rewrite Hdecompress.
  - destruct (node_get key w3) as [[compressed|e] w4]; [|reflexivity].
    now rewrite Hdecompress.
Qed.

(** ** The two forms of deletion *)

Section DeletionForms.
Context `{Platform}.
Import PluginData.

Lemma erase_chunks_async_refused key i :
  100 * 1024 < len (ChunkManager.calculateChunkKey key i) ->
  forall n j w, (i <= j)%nat ->
    exists ps, erase_chunks_async key n j w = (Ok ps, w).
Proof.
  intros Hlong. induction n as [|n IH]; intros j w Hij; simpl.
  - now exists [].
  - pose proof (chunkKey_len_mono key i j Hij) as Hmono.
    destruct (node_erase_refused (ChunkManager.calculateChunkKey key j) w ltac:(lia))
      as [e He].
    destruct (IH (S j) w ltac:(lia)) as [ps Hps].
    exists (Rejected e 0 :: ps).
    unfold bind, new_Promise. now rewrite He, Hps.
Qed.

(** On a node within its usage limit the fan-out of erasures ends in
    the world in which the loop of the direct form ends, and a promise
    is rejected exactly when the loop throws. *)
Lemma erase_chunks_async_spec key n : forall i w,
  within_limit (node w) ->
  exists ps,
    erase_chunks_async key n i w = (Ok ps, snd (erase_chunks key n i w)) /\
    match fst (erase_chunks key n i w) with
    | Ok _ => first_rejection ps = None
    | Throw _ => first_rejection ps <> None
    end.
Proof.
  induction n as [|n IH]; intros i w Hlimit; simpl.
  - now exists [].
  - unfold bind at 1 3 4, new_Promise.
    destruct (Z.le_gt_cases (len (ChunkManager.calculateChunkKey key i)) (100 * 1024))
      as [Hshort|Hlong].
    + destruct (node_erase_ok _ w Hshort Hlimit) as (w1 & E1 & Herases & _).
      rewrite E1.
      destruct (IH (S i) w1 (erases_within _ _ _ Herases Hlimit)) as (ps & Eps & Hps).
      exists (Fulfilled :: ps). unfold bind. rewrite Eps. split; [reflexivity|].
      exact Hps.
    + destruct (node_erase_refused _ w Hlong) as [e He]. rewrite He.
      destruct (erase_chunks_async_refused key i Hlong n (S i) w ltac:(lia))
        as [ps Eps].
      exists (Rejected e 0 :: ps). unfold bind. rewrite Eps. split; [reflexivity|].
      simpl. now destruct (first_rejection ps) as [[e' t']|]; [destruct (t' <? 0)%nat|].
Qed.

Lemma erase_managed_forms key metadataStr w :
  within_limit (node w) ->
  erase_managed_async key metadataStr w = erase_managed key metadataStr w.
Proof.
  intros Hlimit. unfold erase_managed_async, erase_managed, try_catch, bind, parse.
  destruct (JSON_parse metadataStr) as [metadata|]; cbn [ret throw]; [|reflexivity].
  destruct (js_get metadata "chunked") as [e|chunked]; cbn [lift ret throw];
    [reflexivity|].
  destruct (truthy chunked); [|reflexivity].
  destruct (js_get metadata "totalChunks") as [e|total]; cbn [lift ret throw];
    [reflexivity|].
  destruct (erase_chunks_async_spec key (loop_bound total) 0 w Hlimit)
    as (ps & Eps & Hps).
  rewrite Eps.
  destruct (erase_chunks key (loop_bound total) 0 w) as [[[]|e] w2];
    cbn [fst snd] in *; unfold Promise_all.
  - now rewrite Hps.
  - destruct (first_rejection ps) as [[e' t']|]; [reflexivity|congruence].
Qed.

End DeletionForms.

(** X15. On a node within its usage limit [deletePluginDataAsync] ends
    exactly as [deletePluginData] does, with the same outcome, the same
    records and the same ledger: a chunk erasure can then fail only for
    the length of its key, and every later chunk key is at least as
    long. *)
Theorem delete_sync_async `{Platform} (key : string) (w : World) :
  within_limit (node w) ->
  PluginData.deletePluginDataAsync key w = PluginData.deletePluginData key w.
Proof.
  intros Hlimit. unfold PluginData.deletePluginDataAsync, PluginData.deletePluginData.
  unfold bind. rewrite node_get_eq.
  destruct (negb _); [|reflexivity].
  now rewrite erase_managed_forms.
Qed.

(** ** What a successful store has done *)

Section ChunkedConfinement.
Context `{Platform}.
Import PluginData.

Lemma confined_reserve_any P key compressed : confined P key (reserve key compressed).
Proof. unfold reserve. confine. Qed.

Lemma confined_store_chunks_derived key chunks : forall index total,
  confined (derived key) key (store_chunks key chunks index total).
Proof. induction chunks as [|c chunks IH]; intros index total; simpl; confine. Qed.

Lemma confined_storeChunked_derived key compressed data :
  confined (derived key) key (storeChunked key compressed data).
Proof.
  unfold storeChunked, store_chunked_metadata. confine.
  apply confined_store_chunks_derived.
Qed.

Lemma not_derived_bare key : ~ derived key key.
Proof.
  intros [E|[index E]].
  - symmetry in E. now apply metaKey_neq in E.
  - apply (f_equal len) in E. rewrite chunkKey_len in E.
    pose proof (len_nonneg (Number_toString index)). lia.
Qed.

Lemma confined_bind_ret {A B} P key (a : A) (f : A -> M B) :
  confined P key (f a) -> confined P key (bind (ret a) f).
Proof. intros Hf w r w' E. exact (Hf w r w' E). Qed.

Lemma setPluginData_chunked key value compressed :
  gzipSync_base64 (serialize value) = Some compressed ->
  ChunkManager.getSafeChunkSize key < len compressed ->
  confined (derived key) key (setPluginData key value).
Proof.
  intros Hzip Hlong. unfold setPluginData.
  destruct (invalid_key key); [apply confined_throw|].
  destruct (serialize_error value); [apply confined_throw|]. cbv zeta.
  destruct (_ >? _); [apply confined_throw|].
  apply confined_try_catch; [|intros e; unfold write_handler; destruct e; confine].
  unfold write_path, Compressor.compress. rewrite Hzip.
  apply confined_bind_ret.
  apply confined_bind; [apply confined_reserve_any|intros _].
  apply Z.gtb_lt in Hlong. rewrite Hlong.
  apply confined_storeChunked_derived.
Qed.

End ChunkedConfinement.

(** X16. A chunked store writes no bare record.  When the compressed
    text is longer than [getSafeChunkSize(key)], [setPluginData] leaves
    the record under the bare key as it was, however the call ends; so
    a key that was not listed by [getPluginDataKeys] before is not
    listed after. *)
Theorem chunked_store_keeps_bare_record `{Platform} (key : string) (value : Json)
        (compressed : string) (w w' : World) (r : outcome unit) :
  PluginData.setPluginData key value w = (r, w') ->
  gzipSync_base64 (PluginData.serialize value) = Some compressed ->
  ChunkManager.getSafeChunkSize key < len compressed ->
  MockNode.storage (node w') !! key = MockNode.storage (node w) !! key /\
  (key ∈ PluginData.getPluginDataKeys w' <-> key ∈ PluginData.getPluginDataKeys w).
Proof.
  intros E Hzip Hlong.
  destruct (setPluginData_chunked key value compressed Hzip Hlong w r w' E)
    as (_ & Hstorage & _).
  specialize (Hstorage key (not_derived_bare key)).
  split; [exact Hstorage|].
  unfold PluginData.getPluginDataKeys, MockNode.getPluginDataKeys.
  rewrite !elem_of_filter, !elem_of_dom, Hstorage. reflexivity.
Qed.

Section StoreFacts.
Context `{Platform}.
Import PluginData.

Lemma node_set_ok_limits key value w w' :
  node_set key value w = (Ok tt, w') ->
  len key + len value <= 100 * 1024 /\ within_limit (node w') /\
  MockNode.id (node w') = MockNode.id (node w).
Proof.
  intros E. apply node_set_ok in E as [E _].
  pose proof (MockNode_set_id key value (node w)) as Hid. rewrite E in Hid.
  split; [|split; [|exact Hid]].
  - unfold MockNode.setPluginData in E.
    destruct (Z.gtb_spec (len key + len value) (100 * 1024)); [discriminate|lia].
  - unfold MockNode.setPluginData in E.
    destruct (_ >? _); [discriminate|]. cbv zeta in E.
    match type of E with
    | (if ?a >? ?b then _ else _) = _ => destruct (Z.gtb_spec a b) as [Hgt|Hle]
    end; [discriminate|].
    injection E as <-. exact Hle.
Qed.

Lemma reserve_facts key compressed w w1 :
  reserve key compressed w = (Ok tt, w1) ->
  node w1 = node w /\
  GlobalQuotaManager.canStore (len compressed + 200) (usage w) = true /\
  usage w1 =
    if GlobalQuotaManager.getKeyUsage (MockNode.id (node w)) key (usage w) >? 0
    then GlobalQuotaManager.removeUsage (MockNode.id (node w)) key (usage w)
    else usage w.
Proof.
  cbv beta iota zeta delta
    [reserve bind quota_read ret throw getKeyUsage removeUsage node_id quota_update].
  destruct (GlobalQuotaManager.canStore _ _); [|discriminate]. simpl.
  destruct (_ >? 0); intros [= <-]; auto.
Qed.

Lemma storeSingle_facts key compressed data w1 w' :
  storeSingle key compressed data w1 = (Ok tt, w') ->
  within_limit (node w') /\
  len (metaKey key) <= 100 * 1024 /\
  MockNode.id (node w') = MockNode.id (node w1) /\
  usage w' =
    GlobalQuotaManager.recordUsage (MockNode.id (node w1)) key
      (len compressed + len (metaKey key) + len (JSON_stringify (single_metadata data)))
      (usage w1).
Proof.
  unfold storeSingle. intros E.
  apply bind_ok_inv in E as ([] & w2 & E2 & E). apply check_ok_inv in E2 as [_ ->].
  apply bind_ok_inv in E as ([] & w2 & E2 & E). apply check_ok_inv in E2 as [_ ->].
  apply bind_ok_inv in E as ([] & w2 & E2 & E).
  apply bind_ok_inv in E as ([] & w3 & E3 & E).
  pose proof (node_set_usage key compressed w1) as U2. rewrite E2 in U2.
  pose proof (node_set_usage (metaKey key) (JSON_stringify (single_metadata data)) w2)
    as U3. rewrite E3 in U3. simpl in U2, U3.
  apply node_set_ok_limits in E2 as (_ & _ & Hid2).
  apply node_set_ok_limits in E3 as (Hlen3 & Hlimit3 & Hid3).
  injection E as <-. simpl.
  pose proof (len_nonneg (JSON_stringify (single_metadata data))).
  repeat split; [exact Hlimit3|lia|congruence|].
  rewrite U3, U2. f_equal. congruence.
Qed.

Lemma store_chunks_facts key chunks : forall i total w t w',
  store_chunks key chunks i total w = (Ok t, w') ->
  usage w' = usage w /\
  MockNode.id (node w') = MockNode.id (node w) /\
  (forall j, (j < List.length chunks)%nat ->
     len (ChunkManager.calculateChunkKey key (i + j)) <= 100 * 1024) /\
  t = chunks_usage key chunks i total.
Proof.
  induction chunks as [|chunk rest IH]; intros i total w t w' E.
  - injection E as <- <-. repeat split. simpl. intros j Hj. lia.
  - cbn [store_chunks] in E.
    apply bind_ok_inv in E as ([] & w1 & E1 & E). apply check_ok_inv in E1 as [_ ->].
    apply bind_ok_inv in E as ([] & w1 & E1 & E).
    pose proof (node_set_usage (ChunkManager.calculateChunkKey key i) chunk w) as U1.
    rewrite E1 in U1. simpl in U1.
    apply node_set_ok_limits in E1 as (Hlen1 & _ & Hid1).
    apply IH in E as (U & Hid & Hlens & Ht).
    split; [congruence|]. split; [congruence|]. split; [|exact Ht].
    intros [|j] Hj.
    + rewrite Nat.add_0_r. pose proof (len_nonneg chunk). lia.
    + replace (i + S j)%nat with (S i + j)%nat by lia. apply Hlens. simpl in Hj. lia.
Qed.

Lemma storeChunked_facts key compressed data w1 w' :
  storeChunked key compressed data w1 = (Ok tt, w') ->
  let chunks := ChunkManager.chunks (ChunkManager.chunk compressed) in
  within_limit (node w') /\
  len (metaKey key) <= 100 * 1024 /\
  (forall j, (j < List.length chunks)%nat ->
     len (ChunkManager.calculateChunkKey key j) <= 100 * 1024) /\
  MockNode.id (node w') = MockNode.id (node w1) /\
  usage w' =
    GlobalQuotaManager.recordUsage (MockNode.id (node w1)) key
      (chunks_usage key chunks 0 0
       + (len (metaKey key)
          + len (JSON_stringify (chunked_metadata (List.length chunks) data))))
      (usage w1).
Proof.
  intros E. cbv zeta. unfold storeChunked in E.
  set (chunks := ChunkManager.chunks (ChunkManager.chunk compressed)) in *.
  apply bind_ok_inv in E as (total & w2 & E2 & E).
  apply store_chunks_facts in E2 as (U2 & Hid2 & Hlens & ->).
  unfold store_chunked_metadata in E.
  apply bind_ok_inv in E as ([] & w3 & E3 & E). apply check_ok_inv in E3 as [_ ->].
  apply bind_ok_inv in E as ([] & w3 & E3 & E).
  pose proof (node_set_usage (metaKey key)
                (JSON_stringify (chunked_metadata (List.length chunks) data)) w2) as U3.
  rewrite E3 in U3. simpl in U3.
  apply node_set_ok_limits in E3 as (Hlen3 & Hlimit3 & Hid3).
  injection E as <-. simpl.
  pose proof (len_nonneg (JSON_stringify (chunked_metadata (List.length chunks) data))).
  repeat split; [exact Hlimit3|lia|exact Hlens|congruence|].
  rewrite U3, U2. f_equal. congruence.
Qed.

Lemma setPluginData_inv key value w w' :
  setPluginData key value w = (Ok tt, w') ->
  let data := serialize value in
  invalid_key key = false /\
  exists compressed w1,
    gzipSync_base64 data = Some compressed /\
    reserve key compressed w = (Ok tt, w1) /\
    (if len compressed >? ChunkManager.getSafeChunkSize key
     then storeChunked key compressed data w1
     else storeSingle key compressed data w1) = (Ok tt, w').
Proof.
  intros E. cbv zeta. unfold setPluginData in E.
  set (data := serialize value) in *.
  destruct (invalid_key key); [discriminate|].
  destruct (serialize_error value); [discriminate|]. cbv zeta in E.
  destruct (Blob_size data >? 5 * 1024 * 1024); [discriminate|].
  split; [reflexivity|].
  apply try_catch_ok_inv in E.
  2:{ intros e w1 w2. rewrite write_handler_rethrown. discriminate. }
  unfold write_path in E.
  apply bind_ok_inv in E as (compressed & w1 & E1 & E).
  unfold Compressor.compress in E1.
  destruct (gzipSync_base64 data) as [c|] eqn:Hzip; [|discriminate].
  injection E1 as -> ->.
  apply bind_ok_inv in E as ([] & w2 & E2 & E).
  exists compressed, w2. split; [reflexivity|]. split; [exact E2|].
  destruct (len compressed >? ChunkManager.getSafeChunkSize key); exact E.
Qed.

(** The ledger after a successful store. *)
Lemma setPluginData_ledger key value w w' :
  setPluginData key value w = (Ok tt, w') ->
  let data := serialize value in
  let nodeId := MockNode.id (node w) in
  exists compressed,
    gzipSync_base64 data = Some compressed /\
    GlobalQuotaManager.canStore (len compressed + 200) (usage w) = true /\
    MockNode.id (node w') = nodeId /\
    usage w' =
      GlobalQuotaManager.recordUsage nodeId key (footprint key compressed data)
        (if GlobalQuotaManager.getKeyUsage nodeId key (usage w) >? 0
         then GlobalQuotaManager.removeUsage nodeId key (usage w)
         else usage w).
Proof.
  intros E. cbv zeta.
  apply setPluginData_inv in E as (_ & compressed & w1 & Hzip & E1 & E).
  apply reserve_facts in E1 as (Hnode & Hcan & Husage).
  exists compressed. split; [exact Hzip|]. split; [exact Hcan|].
  unfold footprint, written_metadata.
  destruct (len compressed >? ChunkManager.getSafeChunkSize key).
  - apply storeChunked_facts in E as (_ & _ & _ & Hid & U).
    rewrite Hnode in Hid, U. split; [exact Hid|]. now rewrite U, Husage.
  - apply storeSingle_facts in E as (_ & _ & Hid & U).
    rewrite Hnode in Hid, U. split; [exact Hid|]. now rewrite U, Husage.
Qed.

End StoreFacts.

(** X17. The ledger after a successful store.  The entry of the key is
    the footprint of what was written (compressed text, chunk keys,
    metadata key and metadata text), the total has changed by the
    difference to what the key held before, and the quota check passed
    on the total before the call with the estimate of compressed length
    plus 200. *)
Theorem store_ledger `{Platform} (key : string) (value : Json) (w w' : World) :
  PluginData.setPluginData key value w = (Ok tt, w') ->
  let data := PluginData.serialize value in
  let nodeId := MockNode.id (node w) in
  exists compressed,
    gzipSync_base64 data = Some compressed /\
    GlobalQuotaManager.getKeyUsage nodeId key (usage w') =
      footprint key compressed data /\
    GlobalQuotaManager.getCurrentUsage (usage w') =
      GlobalQuotaManager.getCurrentUsage (usage w)
        - GlobalQuotaManager.getKeyUsage nodeId key (usage w)
        + footprint key compressed data /\
    GlobalQuotaManager.getCurrentUsage (usage w) + (len compressed + 200)
      <= GlobalQuotaManager.MAX_TOTAL_QUOTA.
Proof.
  intros E. cbv zeta.
  destruct (setPluginData_ledger key value w w' E) as (compressed & Hzip & Hcan & _ & U).
  exists compressed. split; [exact Hzip|]. rewrite U.
  split; [|split].
  - rewrite getKeyUsage_entry, entry_recordUsage. now rewrite decide_True.
  - rewrite total_recordUsage.
    destruct (Z.gtb_spec
      (GlobalQuotaManager.getKeyUsage (MockNode.id (node w)) key (usage w)) 0).
    + rewrite total_removeUsage.
      rewrite (getKeyUsage_entry _ _ (GlobalQuotaManager.removeUsage _ _ _)),
        entry_removeUsage.
      rewrite decide_True by tauto. simpl. lia.
    + lia.
  - unfold GlobalQuotaManager.canStore in Hcan. lia.
Qed.

(** ** Store, then delete *)

Section StoreDelete.
Context `{Platform}.
Import PluginData.

Lemma erased_chunks_complete key n : forall i,
  (forall j, (j < n)%nat ->
     len (ChunkManager.calculateChunkKey key (i + j)) <= 100 * 1024) ->
  erased_chunks key n i = (map (ChunkManager.calculateChunkKey key) (seq i n), true).
Proof.
  induction n as [|n IH]; intros i Hlens; simpl; [reflexivity|].
  pose proof (Hlens 0%nat ltac:(lia)) as H0. rewrite Nat.add_0_r in H0.
  destruct (Z.gtb_spec (len (ChunkManager.calculateChunkKey key i)) (100 * 1024));
    [lia|].
  rewrite IH; [reflexivity|].
  intros j Hj. replace (S i + j)%nat with (i + S j)%nat by lia. apply Hlens. lia.
Qed.

Lemma metaKey_len key : len (metaKey key) = 12 + len key.
Proof. unfold metaKey. now rewrite len_append. Qed.

(** What [deletePluginData] erases after a successful store. *)
Lemma deleted_keys_after_store key value w w1 compressed :
  setPluginData key value w = (Ok tt, w1) ->
  let data := serialize value in
  JSON_parse "" = None ->
  JSON_parse (JSON_stringify (written_metadata key compressed data)) =
    Some (written_metadata key compressed data) ->
  gzipSync_base64 data = Some compressed ->
  within_limit (node w1) /\ len key <= 100 * 1024 /\
  deleted_keys key (node w1) =
    ((if len compressed >? ChunkManager.getSafeChunkSize key
      then map (ChunkManager.calculateChunkKey key)
             (seq 0 (List.length (ChunkManager.chunks (ChunkManager.chunk compressed))))
      else []) ++ [metaKey key; key])%list.
Proof.
  intros E data Hempty Hparse Hzip.
  pose proof (setPluginData_ok key value w w1 E) as (c & Hzip' & Hmeta & _).
  fold data in Hzip'. rewrite Hzip in Hzip'. injection Hzip' as <-.
  fold data in Hmeta.
  apply setPluginData_inv in E as (_ & c & w0 & Hzip' & _ & E).
  fold data in Hzip', E. rewrite Hzip in Hzip'. injection Hzip' as <-.
  unfold deleted_keys. rewrite Hmeta.
  assert (Hne : String.eqb (JSON_stringify (written_metadata key compressed data)) ""
                = false).
  { apply String.eqb_neq. intros Heq. rewrite Heq, Hempty in Hparse. discriminate. }
  rewrite Hne. unfold erase_plan. rewrite Hparse. unfold written_metadata in *.
  destruct (len compressed >? ChunkManager.getSafeChunkSize key).
  - apply storeChunked_facts in E as (Hlimit & Hmetalen & Hlens & _ & _).
    rewrite metaKey_len in Hmetalen.
    split; [exact Hlimit|]. split; [lia|].
    unfold chunked_metadata.
    change (truthy (assoc_last "chunked" _)) with true. cbv iota.
    change (loop_bound (assoc_last "totalChunks" _))
      with (Z.to_nat (Z.of_nat
              (List.length (ChunkManager.chunks (ChunkManager.chunk compressed))))).
    rewrite Nat2Z.id, erased_chunks_complete by exact Hlens.
    rewrite metaKey_len.
    destruct (Z.gtb_spec (12 + len key) (100 * 1024)); [lia|].
    now rewrite <- app_assoc.
  - apply storeSingle_facts in E as (Hlimit & Hmetalen & _ & _).
    rewrite metaKey_len in Hmetalen.
    split; [exact Hlimit|]. split; [lia|].
    unfold single_metadata.
    change (truthy (assoc_last "chunked" _)) with false. cbv iota.
    rewrite metaKey_len.
    destruct (Z.gtb_spec (12 + len key) (100 * 1024)); [lia|reflexivity].
Qed.

End StoreDelete.

(** X18. Deleting after a successful store.  On a platform whose JSON
    codec reads the metadata back, [deletePluginData] of a key that was
    just stored does not raise; afterwards the key reads as the empty
    string, its ledger entry is gone, it is not listed, and neither its
    metadata record nor any of the chunk records that the store wrote is
    left. *)
Theorem store_then_delete `{Platform} (key : string) (value : Json) (w w1 : World)
        (compressed : string) :
  PluginData.setPluginData key value w = (Ok tt, w1) ->
  let data := PluginData.serialize value in
  gzipSync_base64 data = Some compressed ->
  JSON_parse "" = None ->
  JSON_parse (JSON_stringify (written_metadata key compressed data)) =
    Some (written_metadata key compressed data) ->
  exists w2,
    PluginData.deletePluginData key w1 = (Ok tt, w2) /\
    PluginData.getPluginData key w2 = (Ok (JStr ""), w2) /\
    GlobalQuotaManager.getKeyUsage (MockNode.id (node w2)) key (usage w2) = 0 /\
    (key ∉ PluginData.getPluginDataKeys w2) /\
    MockNode.storage (node w2) !! PluginData.metaKey key = None /\
    (ChunkManager.getSafeChunkSize key < len compressed ->
     forall j,
       (j < List.length (ChunkManager.chunks (ChunkManager.chunk compressed)))%nat ->
       MockNode.storage (node w2) !! ChunkManager.calculateChunkKey key j = None).
Proof.
  intros E data Hzip Hempty Hparse.
  destruct (deleted_keys_after_store key value w w1 compressed E Hempty Hparse Hzip)
    as (Hlimit & Hlen & Hkeys).
  destruct (deletePluginData_spec key w1 Hlimit Hlen) as (w2 & Hdelete & Herases & U).
  rewrite Hkeys in Herases.
  exists w2. split; [exact Hdelete|].
  assert (Hmeta : MockNode.storage (node w2) !! PluginData.metaKey key = None).
  { eapply erases_gone; [exact Herases|].
    apply elem_of_app. right. apply elem_of_cons. now left. }
  assert (Hbare : MockNode.storage (node w2) !! key = None).
  { eapply erases_gone; [exact Herases|].
    apply elem_of_app. right. apply elem_of_cons. right. apply elem_of_cons. now left. }
  split; [|split; [|split; [|split; [exact Hmeta|]]]].
  - rewrite getPluginData_unmanaged.
    + unfold MockNode.getPluginData. now rewrite Hbare.
    + unfold MockNode.getPluginData. now rewrite Hmeta.
  - destruct Herases as (_ & _ & Hid). rewrite Hid, U.
    rewrite getKeyUsage_entry, entry_removeUsage. now rewrite decide_True.
  - unfold PluginData.getPluginDataKeys, MockNode.getPluginDataKeys.
    rewrite elem_of_filter, elem_of_dom, Hbare. intros [_ [v Hv]]. discriminate.
  - intros Hlong j Hj. eapply erases_gone; [exact Herases|].
    apply Z.gtb_lt in Hlong. rewrite Hlong.
    apply elem_of_app. left. apply list_elem_of_fmap. exists j. split; [reflexivity|].
    apply elem_of_seq. lia.
Qed.

(** ** Deletion and the quota *)

(** X19. Deleting gives the quota back.  On a node within its usage
    limit, and for a key that the node accepts, [deletePluginData] does
    not raise; afterwards the key has no ledger entry, the total usage
    has fallen by what the key held, the remaining quota has grown by
    the same amount, and every other ledger entry is as before. *)
Theorem delete_releases_quota `{Platform} (key : string) (w : World) :
  within_limit (node w) ->
  len key <= 100 * 1024 ->
  let nodeId := MockNode.id (node w) in
  exists w',
    PluginData.deletePluginData key w = (Ok tt, w') /\
    GlobalQuotaManager.getKeyUsage nodeId key (usage w') = 0 /\
    GlobalQuotaManager.getCurrentUsage (usage w') =
      GlobalQuotaManager.getCurrentUsage (usage w)
        - GlobalQuotaManager.getKeyUsage nodeId key (usage w) /\
    GlobalQuotaManager.getRemainingQuota (usage w') =
      GlobalQuotaManager.getRemainingQuota (usage w)
        + GlobalQuotaManager.getKeyUsage nodeId key (usage w) /\
    (forall nodeId' key', nodeId' <> nodeId \/ key' <> key ->
       GlobalQuotaManager.getKeyUsage nodeId' key' (usage w') =
       GlobalQuotaManager.getKeyUsage nodeId' key' (usage w)).
Proof.
  intros Hlimit Hlen nodeId.
  destruct (deletePluginData_spec key w Hlimit Hlen) as (w' & E & _ & U).
  exists w'. split; [exact E|]. rewrite U. fold nodeId.
  unfold GlobalQuotaManager.getRemainingQuota. rewrite total_removeUsage.
  split; [|split; [reflexivity|split; [lia|]]].
  - rewrite getKeyUsage_entry, entry_removeUsage. now rewrite decide_True.
  - intros nodeId' key' Hother.
    rewrite !getKeyUsage_entry, entry_removeUsage.
    rewrite decide_False; [reflexivity|]. intros [-> ->]. destruct Hother; congruence.
Qed.

(** ** Cleaning up a node *)

Section Cleanup.
Context `{Platform}.
Import PluginData.

Lemma cleanupNode_removeUsage nodeId key (u : GlobalQuotaManager.Usage) :
  GlobalQuotaManager.cleanupNode nodeId (GlobalQuotaManager.removeUsage nodeId key u) =
  GlobalQuotaManager.cleanupNode nodeId u.
Proof.
  unfold GlobalQuotaManager.cleanupNode, GlobalQuotaManager.removeUsage.
  destruct (u !! nodeId) as [row|]; [|reflexivity].
  destruct (decide _).
  - apply delete_delete_eq.
  - apply delete_insert_eq.
Qed.

Lemma deleted_keys_bare key n : key ∈ deleted_keys key n.
Proof. unfold deleted_keys. apply elem_of_app. right. now left. Qed.

(** The loop of [cleanupNode]: every key of the list is erased, no
    record appears, and the ledger changes in the node's row only. *)
Lemma delete_keys_spec keys : forall w,
  within_limit (node w) ->
  (forall k, k ∈ keys -> len k <= 100 * 1024) ->
  exists w',
    delete_keys keys w = (Ok tt, w') /\
    MockNode.id (node w') = MockNode.id (node w) /\
    (forall k v, MockNode.storage (node w') !! k = Some v ->
                 MockNode.storage (node w) !! k = Some v /\ k ∉ keys) /\
    GlobalQuotaManager.cleanupNode (MockNode.id (node w)) (usage w') =
    GlobalQuotaManager.cleanupNode (MockNode.id (node w)) (usage w).
Proof.
  induction keys as [|key keys IH]; intros w Hlimit Hlens.
  - exists w. repeat split; try assumption. apply not_elem_of_nil.
  - cbn [delete_keys]. unfold bind.
    destruct (deletePluginData_spec key w Hlimit) as (w1 & E1 & Herases & U1).
    { apply Hlens. now left. }
    rewrite E1.
    destruct (IH w1) as (w' & E' & Hid' & Hstorage' & U').
    { exact (erases_within _ _ _ Herases Hlimit). }
    { intros k Hk. apply Hlens. now right. }
    destruct Herases as (Hstorage1 & _ & Hid1).
    exists w'. split; [exact E'|]. split; [congruence|]. split.
    + intros k v Hk. apply Hstorage' in Hk as [Hk Hnotin].
      rewrite Hstorage1 in Hk.
      destruct (decide (k ∈ deleted_keys key (node w))) as [Hin|Hout];
        [discriminate|].
      split; [exact Hk|].
      intros [->|Hin]%elem_of_cons; [|contradiction].
      apply Hout, deleted_keys_bare.
    + rewrite Hid1 in U'. rewrite U', U1. apply cleanupNode_removeUsage.
Qed.

End Cleanup.

(** X20. [cleanupNode] on a node within its usage limit, whose listed
    keys are short enough for the node to accept their erasure, in
    whatever order the keys are listed: the call does not raise, no key
    of the caller's is left on the node, and the ledger is the ledger
    before the call without the node's row; the rows of other nodes are
    as before. *)
Theorem cleanup_node `{Platform} (listed : list string) (w : World) :
  lists listed w ->
  within_limit (node w) ->
  set_Forall (fun k => len k <= 100 * 1024) (PluginData.getPluginDataKeys w) ->
  exists w',
    PluginData.cleanupNode listed w = (Ok tt, w') /\
    PluginData.getPluginDataKeys w' = ∅ /\
    usage w' = GlobalQuotaManager.cleanupNode (MockNode.id (node w)) (usage w) /\
    GlobalQuotaManager.getNodeUsage (MockNode.id (node w)) (usage w') = 0 /\
    (forall nodeId, nodeId <> MockNode.id (node w) ->
       usage w' !! nodeId = usage w !! nodeId).
Proof.
  intros Hlisted Hlimit Hlens.
  assert (Hin : forall k, k ∈ listed <-> k ∈ PluginData.getPluginDataKeys w).
  { intros k. unfold lists in Hlisted. rewrite Hlisted. apply elem_of_elements. }
  destruct (delete_keys_spec listed w Hlimit) as (w1 & E1 & Hid1 & Hstorage1 & U1).
  { intros k Hk. apply Hlens. now apply Hin. }
  unfold PluginData.cleanupNode, bind. rewrite E1.
  cbn [node_id quota_update].
  eexists. split; [reflexivity|]. cbn [node usage].
  rewrite Hid1, U1.
  split; [|split; [reflexivity|split]].
  - apply elem_of_equiv_empty_L. intros k Hk.
    unfold PluginData.getPluginDataKeys, MockNode.getPluginDataKeys in Hk.
    apply elem_of_filter in Hk as [Hprefix [v Hv]%elem_of_dom].
    apply Hstorage1 in Hv as [Hv Hnotin]. apply Hnotin.
    apply Hin.
    unfold PluginData.getPluginDataKeys, MockNode.getPluginDataKeys.
    apply elem_of_filter. split; [exact Hprefix|]. apply elem_of_dom. now exists v.
  - unfold GlobalQuotaManager.getNodeUsage, GlobalQuotaManager.cleanupNode.
    now rewrite lookup_delete_eq.
  - intros nodeId Hne. unfold GlobalQuotaManager.cleanupNode.
    now rewrite lookup_delete_ne by congruence.
Qed.

(** ** Migration and optimisation *)

Section Migration.
Context `{Platform}.
Import PluginData.

(** One turn of the migration loop: the key is pushed on exactly one
    of the three lists, according to what the turn found. *)
Lemma migrate_key_spec store key result w :
  let value := MockNode.getPluginData key (node w) in
  if negb (String.eqb (MockNode.getPluginData (metaKey key) (node w)) "")
     || String.eqb value ""
  then migrate_key store key result w =
         (Ok {| migrated := migrated result; failed := failed result;
                skipped := skipped result ++ [key] |}, w)
  else match store key (JStr value) w with
       | (Ok _, w') =>
           migrate_key store key result w =
             (Ok {| migrated := migrated result ++ [key]; failed := failed result;
                    skipped := skipped result |}, w')
       | (Throw _, w') =>
           migrate_key store key result w =
             (Ok {| migrated := migrated result; failed := failed result ++ [key];
                    skipped := skipped result |}, w')
       end.
Proof.
  cbv zeta. unfold migrate_key, try_catch, bind. rewrite !node_get_eq.
  destruct (negb _); [reflexivity|]. cbn [orb].
  rewrite node_get_eq.
  destruct (String.eqb (MockNode.getPluginData key (node w)) ""); [reflexivity|].
  now destruct (store key _ w) as [[[]|e] w'].
Qed.

Lemma migrate_keys_partition store keys : forall result w,
  exists result' w',
    migrate_keys store keys result w = (Ok result', w') /\
    migrated result' ++ failed result' ++ skipped result' ≡ₚ
    (migrated result ++ failed result ++ skipped result) ++ keys.
Proof.
  induction keys as [|key keys IH]; intros result w.
  - exists result, w. split; [reflexivity|]. now rewrite app_nil_r.
  - cbn [migrate_keys]. unfold bind.
    pose proof (migrate_key_spec store key result w) as Hkey. cbv zeta in Hkey.
    destruct (_ || _); [|destruct (store key _ w) as [[[]|e] w1]];
      rewrite Hkey;
      match goal with
      | |- context [migrate_keys store keys ?r ?w0] =>
          destruct (IH r w0) as (r' & w' & E & Hperm)
      end;
      exists r', w'; (split; [exact E|]); rewrite Hperm;
      cbn [migrated failed skipped]; rewrite <- !app_assoc.
    + reflexivity.
    + solve_Permutation.
    + solve_Permutation.
Qed.

Lemma optimize_key_spec read store key acc w :
  exists acc' w',
    optimize_key read store key acc w = (Ok acc', w') /\
    (acc' = acc \/
     (keysOptimized acc' = keysOptimized acc + 1 /\
      bytesSaved acc + 1 <= bytesSaved acc')).
Proof.
  cbv beta iota zeta delta
    [optimize_key try_catch bind getKeyUsage node_id quota_read ret].
  match goal with
  | |- context [if ?a =? 0 then _ else _] => destruct (a =? 0)
  end; [now eauto|].
  destruct (read key w) as [[data|e] w1]; [|now eauto].
  destruct (store key data w1) as [[[]|e] w2]; [|now eauto].
  match goal with
  | |- context [if ?a <? ?b then _ else _] => destruct (Z.ltb_spec a b)
  end; [|now eauto].
  eexists _, _. split; [reflexivity|]. right. cbn [keysOptimized bytesSaved].
  split; [reflexivity|lia].
Qed.

Lemma optimize_keys_spec read store keys : forall acc w,
  exists acc' w',
    optimize_keys read store keys acc w = (Ok acc', w') /\
    keysOptimized acc <= keysOptimized acc'
      <= keysOptimized acc + Z.of_nat (List.length keys) /\
    keysOptimized acc' - keysOptimized acc <= bytesSaved acc' - bytesSaved acc.
Proof.
  induction keys as [|key keys IH]; intros acc w.
  - exists acc, w. split; [reflexivity|]. simpl. lia.
  - cbn [optimize_keys]. unfold bind.
    destruct (optimize_key_spec read store key acc w) as (acc1 & w1 & E1 & Hacc1).
    rewrite E1.
    destruct (IH acc1 w1) as (acc' & w' & E' & Hcount & Hsaved).
    exists acc', w'. split; [exact E'|].
    cbn [List.length]. destruct Hacc1 as [->|[Hk Hb]]; lia.
Qed.

End Migration.

(** X21. [migrateFromNative] and [migrateFromNativeAsync] do not raise,
    with or without a list of keys, and their result sorts the target
    keys: every target key is on exactly one of the lists [migrated],
    [failed] and [skipped], as often as it occurs among the targets. *)
Theorem migrate_partition `{Platform} (keys : option (list string))
        (listed : list string) (w : World) :
  let targets :=
    match keys with
    | Some keys => keys
    | None => listed
    end in
  (exists result w',
     PluginData.migrateFromNative keys listed w = (Ok result, w') /\
     migrated result ++ failed result ++ skipped result ≡ₚ targets) /\
  (exists result w',
     PluginData.migrateFromNativeAsync keys listed w = (Ok result, w') /\
     migrated result ++ failed result ++ skipped result ≡ₚ targets).
Proof.
  intros targets.
  unfold PluginData.migrateFromNative, PluginData.migrateFromNativeAsync.
  fold targets. split.
  - destruct (migrate_keys_partition PluginData.setPluginData targets
                {| migrated := []; failed := []; skipped := [] |} w)
      as (result & w' & E & Hperm).
    exists result, w'. split; [exact E|exact Hperm].
  - destruct (migrate_keys_partition PluginData.setPluginDataAsync targets
                {| migrated := []; failed := []; skipped := [] |} w)
      as (result & w' & E & Hperm).
    exists result, w'. split; [exact E|exact Hperm].
Qed.

(** X22. [optimizeStorage] and [optimizeStorageAsync] do not raise,
    whatever happens to the keys they rewrite; they count at most the
    listed keys, and every key they count has saved at least one byte. *)
Theorem optimize_bounds `{Platform} (listed : list string) (w : World) :
  (exists result w',
     PluginData.optimizeStorage listed w = (Ok result, w') /\
     0 <= keysOptimized result <= Z.of_nat (List.length listed) /\
     keysOptimized result <= bytesSaved result) /\
  (exists result w',
     PluginData.optimizeStorageAsync listed w = (Ok result, w') /\
     0 <= keysOptimized result <= Z.of_nat (List.length listed) /\
     keysOptimized result <= bytesSaved result).
Proof.
  unfold PluginData.optimizeStorage, PluginData.optimizeStorageAsync. split.
  - destruct (optimize_keys_spec PluginData.getPluginData PluginData.setPluginData
                listed {| bytesSaved := 0; keysOptimized := 0 |} w)
      as (result & w' & E & Hcount & Hsaved).
    exists result, w'. split; [exact E|]. cbn [keysOptimized bytesSaved] in *. lia.
  - destruct (optimize_keys_spec PluginData.getPluginDataAsync
                PluginData.setPluginDataAsync
                listed {| bytesSaved := 0; keysOptimized := 0 |} w)
      as (result & w' & E & Hcount & Hsaved).
    exists result, w'. split; [exact E|]. cbn [keysOptimized bytesSaved] in *. lia.
Qed.

Section MigrationPreserves.
Context `{Platform}.
Import PluginData.

Lemma derived_reserved key k : derived key k -> invalid_key k = true.
Proof.
  intros [->|[index ->]]; [apply metaKey_reserved|apply chunkKey_reserved].
Qed.

Lemma getPluginData_readonly key w : snd (getPluginData key w) = w.
Proof.
  destruct (String.eqb_spec (MockNode.getPluginData (metaKey key) (node w)) "")
    as [E|E].
  - now rewrite (getPluginData_unmanaged key w E).
  - now rewrite (getPluginData_managed key w E).
Qed.

Lemma setPluginData_invalid key value w :
  invalid_key key = true -> setPluginData key value w = (Throw (InvalidKeyError key), w).
Proof. intros E. unfold setPluginData. now rewrite E. Qed.

(** The invariant of the migration loop, for the keys [done] that it
    has been through: the records of every other valid key are as in
    the world [w0] at the start, and every key on the [migrated] list
    reads as its native value. *)
Lemma migrate_keys_preserves w0 keys : forall done result w,
  NoDup (done ++ keys) ->
  JSON_parse "" = None ->
  (forall k c, k ∈ keys ->
     let data := MockNode.getPluginData k (node w0) in
     gzipSync_base64 data = Some c ->
     gunzipSync_text c = Some data /\
     JSON_parse (JSON_stringify (written_metadata k c data)) =
       Some (written_metadata k c data)) ->
  (forall x, (forall k', k' ∈ done -> invalid_key k' = false -> ~ physical k' x) ->
     MockNode.storage (node w) !! x = MockNode.storage (node w0) !! x) ->
  (forall k, k ∈ migrated result ->
     k ∈ done /\ invalid_key k = false /\
     MockNode.getPluginData k (node w0) <> "" /\
     fst (getPluginData k w) = Ok (decode (MockNode.getPluginData k (node w0)))) ->
  forall result' w',
    migrate_keys setPluginData keys result w = (Ok result', w') ->
    forall k, k ∈ migrated result' ->
      invalid_key k = false /\
      MockNode.getPluginData k (node w0) <> "" /\
      fst (getPluginData k w') = Ok (decode (MockNode.getPluginData k (node w0))).
Proof.
  induction keys as [|key keys IH];
    intros done result w Hnodup Hempty Hcodec Hframe Hgood result' w' E.
  - injection E as <- <-. intros k Hk. now apply Hgood in Hk as (_ & Hk).
  - cbn [migrate_keys] in E. apply bind_ok_inv in E as (result1 & w1 & E1 & E).
    assert (Hnodup' : NoDup ((done ++ [key])%list ++ keys)) by now rewrite <- app_assoc.
    assert (Hfresh : key ∉ done).
    { apply NoDup_app in Hnodup as (_ & Hdisjoint & _).
      intros Hin. apply (Hdisjoint key Hin). now left. }
    assert (Hcodec' : forall k c, k ∈ keys ->
              let data := MockNode.getPluginData k (node w0) in
              gzipSync_base64 data = Some c ->
              gunzipSync_text c = Some data /\
              JSON_parse (JSON_stringify (written_metadata k c data)) =
                Some (written_metadata k c data)).
    { intros k c Hk. apply Hcodec. now right. }
    pose proof (migrate_key_spec setPluginData key result w) as Hkey. cbv zeta in Hkey.
    destruct (_ || _) eqn:Hskip.
    + (* skipped *)
      rewrite Hkey in E1. injection E1 as <- <-.
      eapply (IH (done ++ [key])%list _ w Hnodup' Hempty Hcodec'); [| |exact E].
      * intros x Hx. apply Hframe. intros k' Hk'. apply Hx, elem_of_app. now left.
      * intros k Hk. apply Hgood in Hk as (Hdone & Hrest).
        split; [apply elem_of_app; now left|exact Hrest].
    + apply orb_false_iff in Hskip as [_ Hvalue].
      destruct (setPluginData key _ w) as [r w2] eqn:Estore.
      pose proof (confined_setPluginData key _ w r w2 Estore) as Htouch.
      assert (Hw1 : w1 = w2).
      { destruct r as [[]|e]; rewrite Hkey in E1; now injection E1. }
      subst w2.
      assert (Hframe1 : forall x,
                (forall k', k' ∈ (done ++ [key])%list -> invalid_key k' = false ->
                            ~ physical k' x) ->
                MockNode.storage (node w1) !! x = MockNode.storage (node w0) !! x).
      { intros x Hx. rewrite <- Hframe.
        - destruct (invalid_key key) eqn:Hvalid.
          + rewrite (setPluginData_invalid key _ w Hvalid) in Estore.
            now injection Estore as _ <-.
          + destruct Htouch as (_ & Hstorage & _). apply Hstorage.
            apply Hx; [|exact Hvalid]. apply elem_of_app. right. now left.
        - intros k' Hk'. apply Hx, elem_of_app. now left. }
      assert (Hold : forall k, k ∈ migrated result ->
                k ∈ (done ++ [key])%list /\ invalid_key k = false /\
                MockNode.getPluginData k (node w0) <> "" /\
                fst (getPluginData k w1) =
                  Ok (decode (MockNode.getPluginData k (node w0)))).
      { intros k Hk. apply Hgood in Hk as (Hdone & Hvalid & Hnative & Hread).
        split; [apply elem_of_app; now left|]. split; [exact Hvalid|].
        split; [exact Hnative|]. rewrite <- Hread.
        destruct (invalid_key key) eqn:Hvalid'.
        - rewrite (setPluginData_invalid key _ w Hvalid') in Estore.
          now injection Estore as _ <-.
        - apply (touches_read k key w w1 Hvalid Hvalid'); [|exact Htouch].
          intros ->. contradiction. }
      destruct r as [[]|e]; rewrite Hkey in E1; injection E1 as <-.
      * (* migrated *)
        eapply (IH (done ++ [key])%list _ w1 Hnodup' Hempty Hcodec' Hframe1); [|exact E].
        cbn [migrated]. intros k [Hk|Hk]%elem_of_app; [now apply Hold|].
        apply list_elem_of_singleton in Hk as ->.
        pose proof (setPluginData_inv key _ w w1 Estore) as (Hvalid & _).
        assert (Hnative : MockNode.getPluginData key (node w) =
                          MockNode.getPluginData key (node w0)).
        { unfold MockNode.getPluginData. rewrite Hframe; [reflexivity|].
          intros k' Hk' Hvalid' [->|Hderived]; [contradiction|].
          apply derived_reserved in Hderived. congruence. }
        rewrite Hnative in *.
        split; [apply elem_of_app; right; now left|]. split; [exact Hvalid|].
        split; [now apply String.eqb_neq|].
        rewrite (read_after_store key _ w w1 Estore); [reflexivity| |exact Hempty|];
          intros c Hc; apply (Hcodec key c); try exact Hc; now left.
      * (* failed *)
        eapply (IH (done ++ [key])%list _ w1 Hnodup' Hempty Hcodec' Hframe1); [|exact E].
        exact Hold.
Qed.

End MigrationPreserves.

(** X23. Migration keeps the data.  When the target keys are pairwise
    different and the codecs of the platform read back what they wrote
    for the native values of the targets, every key that
    [migrateFromNative] reports as migrated was a valid key with a
    native value, and [getPluginData] now returns that value, decoded
    as the read path decodes any stored text. *)
Theorem migrate_preserves `{Platform} (keys : option (list string))
        (listed : list string) (w w' : World) (result : IMigrationResult) :
  let targets :=
    match keys with
    | Some keys => keys
    | None => listed
    end in
  NoDup targets ->
  JSON_parse "" = None ->
  (forall k c, k ∈ targets ->
     let data := MockNode.getPluginData k (node w) in
     gzipSync_base64 data = Some c ->
     gunzipSync_text c = Some data /\
     JSON_parse (JSON_stringify (written_metadata k c data)) =
       Some (written_metadata k c data)) ->
  PluginData.migrateFromNative keys listed w = (Ok result, w') ->
  forall k, k ∈ migrated result ->
    PluginData.invalid_key k = false /\
    MockNode.getPluginData k (node w) <> "" /\
    PluginData.getPluginData k w' =
      (Ok (PluginData.decode (MockNode.getPluginData k (node w))), w').
Proof.
  intros targets Hnodup Hempty Hcodec E k Hk.
  unfold PluginData.migrateFromNative in E. fold targets in E.
  destruct (migrate_keys_preserves w targets []
              {| migrated := []; failed := []; skipped := [] |}
              w Hnodup Hempty Hcodec
              ltac:(reflexivity)
              ltac:(intros k0 Hk0; now apply elem_of_nil in Hk0)
              result w' E k Hk) as (Hvalid & Hnative & Hread).
  split; [exact Hvalid|]. split; [exact Hnative|].
  pose proof (getPluginData_readonly k w') as Hworld.
  destruct (PluginData.getPluginData k w') as [r wr].
  cbn [fst snd] in *. now subst.
Qed.

(** ** Reading and listing *)

Section Reading.
Context `{Platform}.
Import PluginData.

Lemma getPluginDataAsync_readonly key w : snd (getPluginDataAsync key w) = w.
Proof.
  unfold getPluginDataAsync, retrieveChunkedAsync, validate_and_decode, read_handler,
    try_catch, bind, parse, Compressor.decompressAsync.
  rewrite node_get_eq. destruct (String.eqb _ ""); [reflexivity|].
  destruct (JSON_parse _) as [metadata|]; cbn [ret throw snd]; [|reflexivity].
  destruct (js_get metadata "chunked") as [e|chunked]; cbn [lift ret throw snd];
    [now destruct e|].
  destruct (truthy chunked).
  - destruct (js_get metadata "totalChunks") as [e|total]; cbn [lift ret throw snd];
      [now destruct e|].
    rewrite read_chunks_spec. cbv zeta. destruct (existsb _ _); [reflexivity|].
    destruct (gunzip_text _); cbn [ret throw snd]; [|reflexivity].
    destruct (js_get metadata "checksum") as [e|checksum]; cbn [lift ret throw snd];
      [now destruct e|].
    now destruct (negb _).
  - rewrite node_get_eq.
    destruct (gunzip_text _); cbn [ret throw snd]; [|reflexivity].
    destruct (js_get metadata "checksum") as [e|checksum]; cbn [lift ret throw snd];
      [now destruct e|].
    now destruct (negb _).
Qed.

End Reading.

(** X24. Reading never writes, and a key without a metadata record is
    read through: after [getPluginData] or [getPluginDataAsync], node and
    ledger are as before, whatever the records hold; and for a key that
    the library does not manage both return the node's own value, the
    empty string when there is none. *)
Theorem read_never_writes `{Platform} (key : string) (w : World) :
  snd (PluginData.getPluginData key w) = w /\
  snd (PluginData.getPluginDataAsync key w) = w /\
  (MockNode.getPluginData (PluginData.metaKey key) (node w) = "" ->
   PluginData.getPluginData key w =
     (Ok (JStr (MockNode.getPluginData key (node w))), w) /\
   PluginData.getPluginDataAsync key w =
     (Ok (JStr (MockNode.getPluginData key (node w))), w)) /\
  (MockNode.storage (node w) !! PluginData.metaKey key = None ->
   MockNode.storage (node w) !! key = None ->
   PluginData.getPluginData key w = (Ok (JStr ""), w)).
Proof.
  split; [apply getPluginData_readonly|].
  split; [apply getPluginDataAsync_readonly|]. split.
  - intros E. split; [now apply getPluginData_unmanaged|].
    unfold PluginData.getPluginDataAsync, bind. rewrite node_get_eq, E. reflexivity.
  - intros Hmeta Hbare. rewrite getPluginData_unmanaged.
    + unfold MockNode.getPluginData. now rewrite Hbare.
    + unfold MockNode.getPluginData. now rewrite Hmeta.
Qed.

(** X25. [getPluginDataKeys] never shows the library's own records: no
    metadata key and no chunk key is listed, whatever the node holds,
    and a listed key is one that has a record and lies outside the
    reserved namespace. *)
Theorem keys_listing `{Platform} (w : World) (key : string) (index : nat) (k : string) :
  (PluginData.metaKey key ∉ PluginData.getPluginDataKeys w) /\
  (ChunkManager.calculateChunkKey key index ∉ PluginData.getPluginDataKeys w) /\
  (k ∈ PluginData.getPluginDataKeys w <->
   String.prefix "__fpdu_" k = false /\ is_Some (MockNode.storage (node w) !! k)).
Proof.
  unfold PluginData.getPluginDataKeys, MockNode.getPluginDataKeys.
  rewrite !elem_of_filter, !elem_of_dom.
  split; [|split; [|reflexivity]].
  - intros [Hprefix _]. pose proof (metaKey_reserved key) as Hreserved.
    unfold PluginData.invalid_key in Hreserved. rewrite Hprefix, orb_false_r in Hreserved.
    unfold PluginData.metaKey in Hreserved. discriminate.
  - intros [Hprefix _]. pose proof (chunkKey_reserved key index) as Hreserved.
    unfold PluginData.invalid_key in Hreserved. rewrite Hprefix, orb_false_r in Hreserved.
    unfold ChunkManager.calculateChunkKey in Hreserved. discriminate.
Qed.

(** ** A store that raises *)

Section FailedStore.
Context `{Platform}.
Import PluginData.

Lemma node_set_usage_eq key value w r w' :
  node_set key value w = (r, w') -> usage w' = usage w.
Proof. intros E. pose proof (node_set_usage key value w) as U. now rewrite E in U. Qed.

Lemma check_world r w o w' : check r w = (o, w') -> w' = w.
Proof. destruct r; now intros [= _ <-]. Qed.

Lemma store_chunks_usage key chunks : forall i total w r w',
  store_chunks key chunks i total w = (r, w') -> usage w' = usage w.
Proof.
  induction chunks as [|chunk rest IH]; intros i total w r w' E.
  - now injection E as _ <-.
  - cbn [store_chunks] in E. unfold bind in E.
    destruct (check _ w) as [[[]|e1] w1] eqn:E1; apply check_world in E1 as ->;
      [|now injection E as _ <-].
    destruct (node_set _ chunk w) as [[[]|e2] w2] eqn:E2;
      apply node_set_usage_eq in E2; [|injection E as _ <-; exact E2].
    apply IH in E. congruence.
Qed.

Lemma store_chunked_metadata_throw key chunks data total w e w' :
  store_chunked_metadata key chunks data total w = (Throw e, w') ->
  usage w' = usage w.
Proof.
  unfold store_chunked_metadata, bind. intros E.
  destruct (check _ w) as [[[]|e1] w1] eqn:E1; apply check_world in E1 as ->;
    [|now injection E as _ <-].
  destruct (node_set _ _ w) as [[[]|e2] w2] eqn:E2;
    apply node_set_usage_eq in E2; [discriminate|injection E as _ <-; exact E2].
Qed.

Lemma storeChunked_throw key compressed data w e w' :
  storeChunked key compressed data w = (Throw e, w') -> usage w' = usage w.
Proof.
  unfold storeChunked, bind. intros E.
  destruct (store_chunks _ _ _ _ w) as [[total|e1] w1] eqn:E1;
    apply store_chunks_usage in E1.
  - apply store_chunked_metadata_throw in E. congruence.
  - injection E as _ <-. exact E1.
Qed.

Lemma storeSingle_throw key compressed data w e w' :
  storeSingle key compressed data w = (Throw e, w') -> usage w' = usage w.
Proof.
  unfold storeSingle, bind. intros E.
  destruct (check _ w) as [[[]|e1] w1] eqn:E1; apply check_world in E1 as ->;
    [|now injection E as _ <-].
  destruct (check _ w) as [[[]|e1] w1] eqn:E1; apply check_world in E1 as ->;
    [|now injection E as _ <-].
  destruct (node_set key _ w) as [[[]|e2] w2] eqn:E2;
    apply node_set_usage_eq in E2; [|injection E as _ <-; exact E2].
  destruct (node_set _ _ w2) as [[[]|e3] w3] eqn:E3;
    apply node_set_usage_eq in E3; [discriminate|injection E as _ <-; congruence].
Qed.

Lemma reserve_throw key compressed w e w' :
  reserve key compressed w = (Throw e, w') -> w' = w.
Proof.
  cbv beta iota zeta delta
    [reserve bind quota_read ret throw getKeyUsage removeUsage node_id quota_update].
  destruct (negb _); [now intros [= _ <-]|].
  destruct (_ >? 0); discriminate.
Qed.

Lemma write_path_throw key data w e w' :
  write_path key data w = (Throw e, w') ->
  let nodeId := MockNode.id (node w) in
  usage w' = usage w \/
  (0 < GlobalQuotaManager.getKeyUsage nodeId key (usage w) /\
   usage w' = GlobalQuotaManager.removeUsage nodeId key (usage w)).
Proof.
  unfold write_path, bind, Compressor.compress. intros E. cbv zeta.
  destruct (gzipSync_base64 data) as [compressed|]; cbn [ret throw] in E;
    [|injection E as _ <-; now left].
  destruct (reserve key compressed w) as [[[]|e1] w1] eqn:E1.
  - apply reserve_facts in E1 as (_ & _ & U1).
    assert (U : usage w' = usage w1).
    { destruct (len compressed >? ChunkManager.getSafeChunkSize key);
        [now apply storeChunked_throw in E|now apply storeSingle_throw in E]. }
    rewrite U, U1.
    destruct (Z.gtb_spec
      (GlobalQuotaManager.getKeyUsage (MockNode.id (node w)) key (usage w)) 0);
      [right; now split|now left].
  - apply reserve_throw in E1 as ->. injection E as _ <-. now left.
Qed.

End FailedStore.

(** X26. A store that raises records nothing and rolls nothing back: the
    ledger is then as it was before the call, or as it was with the
    entry of the key released, which happens when the failure comes
    after the quota check and the key had a positive entry. *)
Theorem failed_store_ledger `{Platform} (key : string) (value : Json) (w w' : World)
        (e : Error) :
  PluginData.setPluginData key value w = (Throw e, w') ->
  let nodeId := MockNode.id (node w) in
  usage w' = usage w \/
  (0 < GlobalQuotaManager.getKeyUsage nodeId key (usage w) /\
   usage w' = GlobalQuotaManager.removeUsage nodeId key (usage w) /\
   GlobalQuotaManager.getKeyUsage nodeId key (usage w') = 0).
Proof.
  unfold PluginData.setPluginData. intros E. cbv zeta.
  destruct (PluginData.invalid_key key); [injection E as _ <-; now left|].
  destruct (PluginData.serialize_error value); [injection E as _ <-; now left|].
  cbv zeta in E. destruct (_ >? _); [injection E as _ <-; now left|].
  unfold try_catch in E.
  destruct (PluginData.write_path key _ w) as [[[]|e1] w1] eqn:E1; [discriminate|].
  assert (w' = w1) as ->.
  { rewrite write_handler_rethrown in E. now injection E. }
  destruct (write_path_throw key _ w e1 w1 E1) as [U|[Hold U]]; [now left|right].
  split; [exact Hold|]. split; [exact U|].
  rewrite U, getKeyUsage_entry, entry_removeUsage. now rewrite decide_True.
Qed.

(** ** The further properties at work *)

Section FurtherProperties.

#[local] Existing Instance Reference.platform.
Import Scenario.

Lemma len_repeat_char c n : len (repeat_char c n) = Z.of_N n.
Proof.
  unfold repeat_char, len. induction n as [|n IH] using N.peano_ind.
  - reflexivity.
  - rewrite N.iter_succ. cbn [String.length]. lia.
Qed.

Lemma run_pair {A} (m : M A) (w : World) : m w = (fst (m w), snd (m w)).
Proof. now destruct (m w). Qed.

(** The world after [setPluginData("doc", "test data")] on a new node. *)
Lemma doc_stored :
  PluginData.setPluginData "doc" (JStr "test data") fresh =
    (Ok tt, stored "doc" (JStr "test data") fresh).
Proof. apply run_eq. vm_compute. reflexivity. Qed.

Lemma doc_within_limit : within_limit (node (stored "doc" (JStr "test data") fresh)).
Proof. unfold within_limit. vm_compute. discriminate. Qed.

Lemma ledger_rows_nonempty_witness :
  ledger_wf (GlobalQuotaManager.recordUsage "node-1" "a" 100 ∅) /\
  ledger_wf (GlobalQuotaManager.removeUsage "node-1" "a"
               (GlobalQuotaManager.recordUsage "node-1" "a" 100 ∅)).
Proof.
  assert (Hwf : ledger_wf (GlobalQuotaManager.recordUsage "node-1" "a" 100 ∅))
    by apply ledger_wf_recordUsage, ledger_wf_empty.
  split; [exact Hwf|].
  exact (proj1 (proj2 (proj2 (ledger_rows_nonempty "node-1" "a" 0 0 _ Hwf)))).
Defined.

Lemma records_of_distinct_keys_witness :
  PluginData.invalid_key "a" = false /\ PluginData.invalid_key "b" = false /\
  physical "a" "__fpdu_meta_a" /\ ~ physical "b" "__fpdu_meta_a".
Proof.
  assert (Ha : PluginData.invalid_key "a" = false) by (vm_compute; reflexivity).
  assert (Hb : PluginData.invalid_key "b" = false) by (vm_compute; reflexivity).
  assert (Hk : physical "a" "__fpdu_meta_a") by (right; left; reflexivity).
  split; [exact Ha|]. split; [exact Hb|]. split; [exact Hk|].
  apply (records_of_distinct_keys "a" "b" "__fpdu_meta_a" Ha Hb); [discriminate|exact Hk].
Defined.

Lemma store_leaves_other_keys_witness :
  let w := stored "doc" (JStr "test data") fresh in
  let w' := stored "other" object w in
  fst (PluginData.getPluginData "doc" w') = Ok (JStr "test data") /\
  GlobalQuotaManager.getKeyUsage (MockNode.id (node w')) "doc" (usage w') =
  GlobalQuotaManager.getKeyUsage (MockNode.id (node w)) "doc" (usage w).
Proof.
  intros w w'.
  destruct (store_leaves_other_keys "doc" "other" object w w'
              (fst (PluginData.setPluginData "other" object w)))
    as [Hread Hledger].
  - vm_compute. reflexivity.
  - discriminate.
  - left. apply run_pair.
  - split; [|exact Hledger]. rewrite Hread. vm_compute. reflexivity.
Defined.

Lemma delete_leaves_other_keys_witness :
  let w := stored "other" object (stored "doc" (JStr "test data") fresh) in
  let w' := snd (PluginData.deletePluginData "other" w) in
  fst (PluginData.getPluginData "doc" w') = Ok (JStr "test data").
Proof.
  intros w w'.
  destruct (delete_leaves_other_keys "doc" "other" w w'
              (fst (PluginData.deletePluginData "other" w)))
    as [Hread _].
  - vm_compute. reflexivity.
  - vm_compute. reflexivity.
  - discriminate.
  - left. apply run_pair.
  - rewrite Hread. vm_compute. reflexivity.
Defined.

Lemma safe_chunk_size_witness :
  ChunkManager.getSafeChunkSize "doc" = 102380 /\
  GlobalQuotaManager.validateEntrySize "doc" "H4sItest data" = None /\
  ChunkManager.validateChunkEntry (ChunkManager.calculateChunkKey "doc" 7)
    "H4sItest data" = None.
Proof.
  apply (safe_chunk_size "doc" "H4sItest data" 7); [vm_compute; discriminate|lia].
Defined.

Lemma chunk_entries_fit_witness :
  ChunkManager.validateChunkEntry (ChunkManager.calculateChunkKey "doc" 0)
    "H4sItest data" = None.
Proof.
  apply (chunk_entries_fit "doc" "H4sItest data" "H4sItest data" 0).
  - vm_compute. discriminate.
  - lia.
  - vm_compute. reflexivity.
Defined.

Lemma node_refusal_witness :
  let n' := fst (MockNode.setPluginData "k" "v" (node full)) in
  MockNode.setPluginData "k" "v" (node full) =
    (n', Some (JsError "Mock node quota exceeded")) /\
  MockNode.getPluginData "k" n' = "v".
Proof.
  intros n'.
  assert (E : MockNode.setPluginData "k" "v" (node full) =
              (n', Some (JsError "Mock node quota exceeded")))
    by (vm_compute; reflexivity).
  split; [exact E|].
  destruct (node_refusal "k" "v" (node full) n' _ E)
    as [(Hbig & _)|(_ & _ & _ & _ & Hget)]; [discriminate|exact Hget].
Defined.

Lemma read_sync_async_witness :
  PluginData.getPluginDataAsync "doc" (stored "doc" (JStr "test data") fresh) =
  PluginData.getPluginData "doc" (stored "doc" (JStr "test data") fresh).
Proof.
  apply (read_sync_async "doc" (stored "doc" (JStr "test data") fresh)).
  intros compressed. reflexivity.
Defined.

Lemma delete_sync_async_witness :
  within_limit (node (stored "doc" (JStr "test data") fresh)) /\
  PluginData.deletePluginDataAsync "doc" (stored "doc" (JStr "test data") fresh) =
  PluginData.deletePluginData "doc" (stored "doc" (JStr "test data") fresh).
Proof.
  split; [exact doc_within_limit|].
  exact (delete_sync_async "doc" _ doc_within_limit).
Defined.

Lemma chunked_store_keeps_bare_record_witness :
  gzipSync_base64 (PluginData.serialize huge) =
    Some (Reference.header +:+ repeat_char "x" 110000) /\
  ChunkManager.getSafeChunkSize "huge" <
    len (Reference.header +:+ repeat_char "x" 110000) /\
  ("huge" ∈ PluginData.getPluginDataKeys (stored "huge" huge fresh) <->
   "huge" ∈ PluginData.getPluginDataKeys fresh).
Proof.
  assert (Hzip : gzipSync_base64 (PluginData.serialize huge) =
                 Some (Reference.header +:+ repeat_char "x" 110000)) by reflexivity.
  assert (Hlong : ChunkManager.getSafeChunkSize "huge" <
                  len (Reference.header +:+ repeat_char "x" 110000)).
  { rewrite getSafeChunkSize_eq, len_append, len_repeat_char.
    change (len "huge") with 4. change (len Reference.header) with 4. lia. }
  split; [exact Hzip|]. split; [exact Hlong|].
  exact (proj2 (chunked_store_keeps_bare_record "huge" huge _ fresh
                  (stored "huge" huge fresh)
                  (fst (PluginData.setPluginData "huge" huge fresh))
                  (run_pair _ _) Hzip Hlong)).
Defined.

Lemma store_ledger_witness :
  exists compressed,
    gzipSync_base64 "test data" = Some compressed /\
    GlobalQuotaManager.getKeyUsage "node-1" "doc"
      (usage (stored "doc" (JStr "test data") fresh)) =
      footprint "doc" compressed "test data" /\
    GlobalQuotaManager.getCurrentUsage (usage (stored "doc" (JStr "test data") fresh)) =
      GlobalQuotaManager.getCurrentUsage (usage fresh)
        - GlobalQuotaManager.getKeyUsage "node-1" "doc" (usage fresh)
        + footprint "doc" compressed "test data" /\
    GlobalQuotaManager.getCurrentUsage (usage fresh) + (len compressed + 200)
      <= GlobalQuotaManager.MAX_TOTAL_QUOTA.
Proof.
  exact (store_ledger "doc" (JStr "test data") fresh _ doc_stored).
Defined.

Lemma store_then_delete_witness :
  exists w2,
    PluginData.deletePluginData "doc" (stored "doc" (JStr "test data") fresh)
      = (Ok tt, w2) /\
    PluginData.getPluginData "doc" w2 = (Ok (JStr ""), w2) /\
    GlobalQuotaManager.getKeyUsage (MockNode.id (node w2)) "doc" (usage w2) = 0.
Proof.
  destruct (store_then_delete "doc" (JStr "test data") fresh _ "H4sItest data"
              doc_stored eq_refl eq_refl)
    as (w2 & Hdelete & Hread & Hledger & _).
  - vm_compute. reflexivity.
  - exists w2. auto.
Defined.

Lemma delete_releases_quota_witness :
  exists w',
    PluginData.deletePluginData "doc" (stored "doc" (JStr "test data") fresh)
      = (Ok tt, w') /\
    GlobalQuotaManager.getKeyUsage "node-1" "doc" (usage w') = 0.
Proof.
  destruct (delete_releases_quota "doc" (stored "doc" (JStr "test data") fresh)
              doc_within_limit)
    as (w' & Hdelete & Hgone & _).
  - vm_compute. discriminate.
  - exists w'. split; [exact Hdelete|exact Hgone].
Defined.

Lemma doc_listed : lists ["doc"] (stored "doc" (JStr "test data") fresh).
Proof. unfold lists. vm_compute. reflexivity. Qed.

Lemma cleanup_node_witness :
  exists w',
    PluginData.cleanupNode ["doc"] (stored "doc" (JStr "test data") fresh)
      = (Ok tt, w') /\
    PluginData.getPluginDataKeys w' = ∅ /\
    GlobalQuotaManager.getNodeUsage "node-1" (usage w') = 0.
Proof.
  destruct (cleanup_node ["doc"] (stored "doc" (JStr "test data") fresh)
              doc_listed doc_within_limit)
    as (w' & Hclean & Hkeys & _ & Hnode & _).
  - intros k Hk. apply elem_of_elements in Hk.
    pose proof doc_listed as Hlisted. unfold lists in Hlisted.
    rewrite <- Hlisted in Hk.
    apply list_elem_of_singleton in Hk as ->. vm_compute. discriminate.
  - exists w'. split; [exact Hclean|]. split; [exact Hkeys|exact Hnode].
Defined.

Lemma legacy_migrated :
  PluginData.migrateFromNative None ["title"] legacy =
    (Ok {| migrated := ["title"]; failed := []; skipped := [] |},
     stored "title" (JStr "hello world") legacy).
Proof. apply run_eq. vm_compute. reflexivity. Qed.

Lemma migrate_preserves_witness :
  PluginData.getPluginData "title" (stored "title" (JStr "hello world") legacy) =
    (Ok (JStr "hello world"), stored "title" (JStr "hello world") legacy).
Proof.
  pose proof (migrate_preserves None ["title"] legacy
                (stored "title" (JStr "hello world") legacy)
                {| migrated := ["title"]; failed := []; skipped := [] |}) as Hm.
  cbv zeta in Hm.
  destruct (Hm (NoDup_singleton "title") eq_refl) with (k := "title")
    as (_ & _ & Hread).
  - intros k c Hk. apply list_elem_of_singleton in Hk as ->. intros Hc.
    assert (c = "H4sIhello world") as -> by (vm_compute in Hc; congruence).
    split; vm_compute; reflexivity.
  - exact legacy_migrated.
  - now left.
  - rewrite Hread. vm_compute. reflexivity.
Defined.

Lemma failed_store_ledger_witness :
  fst (PluginData.setPluginData "k" (JStr "v") full) = Throw (CompressionError Compress) /\
  GlobalQuotaManager.getKeyUsage "node-1" "k" (usage full) = 100 /\
  GlobalQuotaManager.getKeyUsage "node-1" "k"
    (usage (stored "k" (JStr "v") full)) = 0.
Proof.
  assert (E : PluginData.setPluginData "k" (JStr "v") full =
              (Throw (CompressionError Compress), stored "k" (JStr "v") full))
    by (apply run_eq; vm_compute; reflexivity).
  split; [now rewrite E|]. split; [vm_compute; reflexivity|].
  destruct (failed_store_ledger "k" (JStr "v") full _ _ E) as [U|(_ & _ & Hgone)].
  - exfalso.
    apply (f_equal (GlobalQuotaManager.getKeyUsage "node-1" "k")) in U.
    vm_compute in U. discriminate.
  - exact Hgone.
Defined.

End FurtherProperties.
